(** * Symbol layout engine of mapbox-gl-js: a shallow embedding

    The development follows [src/symbol/symbol_layout.ts].  JavaScript
    numbers are modelled as rationals ([Q]) with exact arithmetic, objects
    that the code mutates are threaded explicitly, and every function of
    the repository that lives outside [symbol_layout.ts] (the shaper, the
    line clipper, the anchor generators, the bucket's append operations,
    ...) is a field of the [Collaborators] interface. *)

From Stdlib Require Import QArith Qabs ZArith String List Bool Lia.
From stdpp Require Import base option list gmap strings.

Local Open Scope Q_scope.
Local Open Scope string_scope.
Local Open Scope list_scope.

(** ** Numbers *)

Module Num.

(** [a < b] and [a >= b] on numbers, as booleans. *)
Definition ltb (a b : Q) : bool := negb (Qle_bool b a).
Definition geb (a b : Q) : bool := Qle_bool b a.
Definition gtb (a b : Q) : bool := ltb b a.

(** [Math.max(a, b)] and [Math.min(a, b)]. *)
Definition max (a b : Q) : Q := if ltb a b then b else a.
Definition min (a b : Q) : Q := if ltb b a then b else a.

(** [Math.abs(a)]. *)
Definition abs (a : Q) : Q := Qabs a.

(** [clamp(n, min, max)] of util: [Math.min(max, Math.max(min, n))]. *)
Definition clamp (n lo hi : Q) : Q := min hi (max lo n).

(** A number used as a condition: [0] is falsy. *)
Definition truthy (a : Q) : bool := negb (Qeq_bool a 0).

End Num.

(** ** Geometry *)

(** [Point] of @mapbox/point-geometry. *)
Record Point := mkPoint { px : Q; py : Q }.

(** [Anchor] extends [Point] with an elevation, a line angle and an
    optional segment index. *)
Record Anchor := mkAnchor {
  ax : Q;
  ay : Q;
  az : Q;
  angle : Q;
  segment : option nat
}.

(** ** Shapings *)

(** The members that the collision code reads from a [Shaping] or a
    [PositionedIcon] ([shaped: any] in the source). *)
Record Shaped := mkShaped {
  top : Q;
  bottom : Q;
  left : Q;
  right : Q;
  collisionPadding : option (Q * Q * Q * Q)
}.

Definition set_top (v : Q) (s : Shaped) : Shaped :=
  mkShaped v (bottom s) (left s) (right s) (collisionPadding s).
Definition set_bottom (v : Q) (s : Shaped) : Shaped :=
  mkShaped (top s) v (left s) (right s) (collisionPadding s).
Definition set_left (v : Q) (s : Shaped) : Shaped :=
  mkShaped (top s) (bottom s) v (right s) (collisionPadding s).
Definition set_right (v : Q) (s : Shaped) : Shaped :=
  mkShaped (top s) (bottom s) (left s) v (collisionPadding s).

(** [evaluateCircleCollisionFeature(shaped)].  The function writes
    [shaped.top] and [shaped.bottom]; the object after the call is the
    second component of the result. *)
Definition evaluateCircleCollisionFeature (shaped : Shaped) : option Q * Shaped :=
  let shaped1 :=
    match collisionPadding shaped with
    | Some (_, p1, _, p3) =>
        let s := set_top (top shaped - p1) shaped in
        set_bottom (bottom s + p3) s
    | None => shaped
    end in
  let height := bottom shaped1 - top shaped1 in
  (if Num.gtb height 0 then Some (Num.max 10 height) else None, shaped1).

(** The height of a shaping once its collision padding is applied: the
    padding's second entry extends the top edge upwards and its fourth
    entry extends the bottom edge downwards. *)
Definition paddedHeight (shaped : Shaped) : Q :=
  match collisionPadding shaped with
  | Some (_, p1, _, p3) => (bottom shaped + p3) - (top shaped - p1)
  | None => bottom shaped - top shaped
  end.

(** ** Style values *)

(** [TextJustify] of the shaper: the keys of
    [shapedTextOrientations.horizontal]. *)
Inductive TextJustify := JustifyLeft | JustifyCenter | JustifyRight.

(** The value of the [text-justify] layout property. *)
Inductive TextJustifyValue := JustifyAuto | Justify (j : TextJustify).

Inductive TextAnchor :=
| AnchorCenter | AnchorLeft | AnchorRight | AnchorTop | AnchorBottom
| AnchorTopLeft | AnchorTopRight | AnchorBottomLeft | AnchorBottomRight.

(** ['image-top' | 'image-bottom' | 'image-right' | 'image-left']. *)
Inductive ImageTextAnchor := ImageTop | ImageBottom | ImageRight | ImageLeft.

(** The value of the [text-anchor] layout property: a plain anchor or one
    of the [image-*] anchors. *)
Inductive TextAnchorValue :=
| PlainAnchor (a : TextAnchor)
| ImageAnchor (a : ImageTextAnchor).

Inductive SymbolPlacement :=
| PlacePoint | PlaceLine | PlaceLineCenter
| PlaceVertex | PlaceFirstVertex | PlaceLastVertex | PlaceFirstLastVertex
| PlaceExceptFirstVertex | PlaceExceptLastVertex | PlaceMiddleVertex
| PlaceOther.

Inductive Alignment := AlignMap | AlignViewport | AlignAuto.

Inductive IconTextFit := FitNone | FitWidth | FitHeight | FitBoth.

Inductive WritingMode := HorizontalOnly | Horizontal | Vertical.

(** A number that may be [Number.POSITIVE_INFINITY]. *)
Inductive ExtNum := Finite (q : Q) | PositiveInfinity.

Definition INVALID_TEXT_OFFSET : ExtNum := PositiveInfinity.

(** [bucket.textSizeData.kind] and [bucket.iconSizeData.kind]; the
    composite kind carries its two bracketing zoom levels. *)
Inductive SizeData :=
| SizeConstant | SizeSource | SizeCamera
| SizeComposite (minZoom maxZoom : Q).

(** ** Features *)

Inductive FeatureType := TypePoint | TypeLineString | TypePolygon | TypeUnknown.

(** [feature.icon]: a resolved image with a primary and an optional
    secondary name. *)
Record Icon := mkIcon {
  namePrimary : string;
  nameSecondary : option string
}.

Record SymbolFeature := mkFeature {
  ftype : FeatureType;
  geometry : list (list Point);
  ftext : option string;
  ficon : option Icon;
  findex : Z;
  sourceLayerIndex : Z;
  sortKey : option Q
}.

(** ** Shapings, continued *)

Record PositionedGlyph := mkGlyph { gx : Q; gy : Q; gcode : Z }.

(** A [Shaping] of the text shaper. *)
Record Shaping := mkShaping {
  sbox : Shaped;
  stext : string;
  positionedLines : list (list PositionedGlyph);
  siconsInText : bool
}.

Definition set_sbox (b : Shaped) (s : Shaping) : Shaping :=
  mkShaping b (stext s) (positionedLines s) (siconsInText s).
Definition set_positionedLines (l : list (list PositionedGlyph)) (s : Shaping) : Shaping :=
  mkShaping (sbox s) (stext s) l (siconsInText s).

(** A [PositionedIcon] of the icon shaper; [iimage] stands for the atlas
    positions it refers to. *)
Record PositionedIcon := mkPositionedIcon {
  ibox : Shaped;
  iimage : Z
}.

Definition set_ibox (b : Shaped) (i : PositionedIcon) : PositionedIcon :=
  mkPositionedIcon b (iimage i).

(** A style image of [imageMap]. *)
Record StyleImage := mkStyleImage {
  sdf : bool;
  usvg : bool;
  imagePixelRatio : Q
}.

(** ** JavaScript objects with string keys

    [for ... in] and [Object.keys] enumerate the own keys in insertion
    order, so an object is a list of bindings.  Writing to a key that
    exists keeps its place; writing to a new key appends it. *)

Definition JsObject (V : Type) := list (string * V).

Fixpoint obj_get {V} (k : string) (o : JsObject V) : option V :=
  match o with
  | [] => None
  | (k', v) :: o' => if String.eqb k k' then Some v else obj_get k o'
  end.

Fixpoint obj_set {V} (k : string) (v : V) (o : JsObject V) : JsObject V :=
  match o with
  | [] => [(k, v)]
  | (k', v') :: o' =>
      if String.eqb k k' then (k', v) :: o' else (k', v') :: obj_set k v o'
  end.

Definition obj_keys {V} (o : JsObject V) : list string := map fst o.

(** The property key of a justification. *)
Definition justifyKey (j : TextJustify) : string :=
  match j with
  | JustifyLeft => "left"
  | JustifyCenter => "center"
  | JustifyRight => "right"
  end.

(** [shapedTextOrientations.horizontal]: a value is a [Shaping] or
    [undefined] ([None]). *)
Definition HorizontalShapings := JsObject (option Shaping).

(** [horizontal[key]]: [undefined] for a key that is absent. *)
Definition horizontal_get (k : string) (h : HorizontalShapings) : option Shaping :=
  match obj_get k h with
  | Some v => v
  | None => None
  end.

(** The shapings of one feature.  [addFeature] and [addSymbol] share these
    objects between all the anchors of the feature, and
    [evaluateCircleCollisionFeature] writes to them. *)
Record Shapes := mkShapes {
  horizontal : HorizontalShapings;
  vertical : option Shaping;
  shapedIcon : option PositionedIcon;
  verticallyShapedIcon : option PositionedIcon
}.

Definition set_horizontal (h : HorizontalShapings) (s : Shapes) : Shapes :=
  mkShapes h (vertical s) (shapedIcon s) (verticallyShapedIcon s).
Definition set_vertical (v : option Shaping) (s : Shapes) : Shapes :=
  mkShapes (horizontal s) v (shapedIcon s) (verticallyShapedIcon s).
Definition set_shapedIcon (i : option PositionedIcon) (s : Shapes) : Shapes :=
  mkShapes (horizontal s) (vertical s) i (verticallyShapedIcon s).
Definition set_verticallyShapedIcon (i : option PositionedIcon) (s : Shapes) : Shapes :=
  mkShapes (horizontal s) (vertical s) (shapedIcon s) i.

(** [getDefaultHorizontalShaping]: the value of the first key, whatever it
    is; [null] for an object without keys. *)
Definition getDefaultHorizontalShaping (h : HorizontalShapings) : option Shaping :=
  match h with
  | (_, v) :: _ => v
  | [] => None
  end.

(** [getDefaultHorizontalShaping(horizontal) || vertical]. *)
Definition defaultShaping (s : Shapes) : option Shaping :=
  match getDefaultHorizontalShaping (horizontal s) with
  | Some d => Some d
  | None => vertical s
  end.

(** [getAnchorJustification]. *)
Definition getAnchorJustification (anchor : TextAnchor) : TextJustify :=
  match anchor with
  | AnchorRight | AnchorTopRight | AnchorBottomRight => JustifyRight
  | AnchorLeft | AnchorTopLeft | AnchorBottomLeft => JustifyLeft
  | _ => JustifyCenter
  end.

(** ** Layout properties

    [bucket.layers[0].layout] and [bucket.layers[0]._unevaluatedLayout]:
    a field that takes a feature stands for
    [layout.get(name).evaluate(feature, {}, canonical)]. *)
Record Layout := mkLayout {
  text_size_scale_range : Q * Q;
  icon_size_scale_range : Q * Q;
  text_rotation_alignment : Alignment;
  icon_rotation_alignment : Alignment;
  symbol_placement : SymbolPlacement;
  symbol_spacing : Q;
  text_padding : Q;
  icon_padding : Q;
  text_max_angle : Q;
  text_variable_anchor : option (list TextAnchor);
  text_writing_mode : list string;
  text_size : SymbolFeature -> Q;
  icon_size : SymbolFeature -> Q;
  text_font : SymbolFeature -> list string;
  text_letter_spacing : SymbolFeature -> Q;
  text_line_height : SymbolFeature -> Q;
  text_anchor : SymbolFeature -> TextAnchorValue;
  text_radial_offset : SymbolFeature -> Q;
  text_offset : SymbolFeature -> Q * Q;
  text_justify : SymbolFeature -> TextJustifyValue;
  text_max_width : SymbolFeature -> Q;
  text_rotate : SymbolFeature -> Q;
  icon_offset : SymbolFeature -> Q * Q;
  icon_anchor : SymbolFeature -> TextAnchor;
  icon_rotate : SymbolFeature -> Q;
  (** [layout.get('icon-rotate').constantOr(1)] *)
  icon_rotate_constantOr1 : Q;
  icon_text_fit : SymbolFeature -> IconTextFit;
  icon_text_fit_padding : SymbolFeature -> Q * Q * Q * Q;
  (** [_unevaluatedLayout.getValue('text-radial-offset') === undefined] *)
  text_radial_offset_unset : bool;
  (** [_unevaluatedLayout._values['text-size'].possiblyEvaluate(new
      EvaluationParameters(zoom), canonical).evaluate(feature, {},
      canonical)], which may be [undefined] *)
  unevaluated_text_size : Q -> SymbolFeature -> option Q;
  unevaluated_icon_size : Q -> SymbolFeature -> option Q
}.

(** [symbolPlacement.includes('line')]. *)
Definition placement_includes_line (p : SymbolPlacement) : bool :=
  match p with
  | PlaceLine | PlaceLineCenter => true
  | _ => false
  end.

Definition is_map (a : Alignment) : bool :=
  match a with AlignMap => true | _ => false end.

(** A possibly [undefined] size in arithmetic.  JavaScript computes [NaN]
    from [undefined]; the rationals have no such value, and the sizes of
    a style that passed validation are numbers. *)
Definition number (v : option Q) : Q :=
  match v with
  | Some q => q
  | None => 0
  end.

(** The [Sizes] record. *)
Record Sizes := mkSizes {
  scaleFactor : Q;
  textSizeScaleRange : Q * Q;
  iconSizeScaleRange : Q * Q;
  textScaleFactor : Q;
  iconScaleFactor : Q;
  layoutTextSize : SymbolFeature -> option Q;
  layoutIconSize : SymbolFeature -> option Q;
  textMaxSize : SymbolFeature -> option Q;
  compositeTextSizes : option ((SymbolFeature -> option Q) * (SymbolFeature -> option Q));
  compositeIconSizes : option ((SymbolFeature -> option Q) * (SymbolFeature -> option Q))
}.

(** ** Constants of the module *)

Definition baselineOffset : Q := 7.

(** [Math.sqrt(2)]: the double nearest to the square root of two. *)
Definition sqrt2 : Q := 6369051672525773 # 4503599627370496.

Definition MAX_GLYPHS : Z := 65535.

Definition MAX_GLYPH_ICON_SIZE : Q := 255.

(** [evaluateVariableOffset(anchor, [offsetX, offsetY])]. *)
Definition evaluateVariableOffset (anchor : TextAnchor) (offset : Q * ExtNum) : Q * Q :=
  let '(offsetX, offsetY) := offset in
  match offsetY with
  | PositiveInfinity =>
      (* radial offset *)
      let offsetX := if Num.ltb offsetX 0 then 0 else offsetX in
      let hypotenuse := offsetX / sqrt2 in
      let y :=
        match anchor with
        | AnchorTopRight | AnchorTopLeft => hypotenuse - baselineOffset
        | AnchorBottomRight | AnchorBottomLeft => - hypotenuse + baselineOffset
        | AnchorBottom => - offsetX + baselineOffset
        | AnchorTop => offsetX - baselineOffset
        | _ => 0
        end in
      let x :=
        match anchor with
        | AnchorTopRight | AnchorBottomRight => - hypotenuse
        | AnchorTopLeft | AnchorBottomLeft => hypotenuse
        | AnchorLeft => offsetX
        | AnchorRight => - offsetX
        | _ => 0
        end in
      (x, y)
  | Finite offsetY =>
      (* text offset: absolute values *)
      let offsetX := Num.abs offsetX in
      let offsetY := Num.abs offsetY in
      let y :=
        match anchor with
        | AnchorTopRight | AnchorTopLeft | AnchorTop => offsetY - baselineOffset
        | AnchorBottomRight | AnchorBottomLeft | AnchorBottom => - offsetY + baselineOffset
        | _ => 0
        end in
      let x :=
        match anchor with
        | AnchorTopRight | AnchorBottomRight | AnchorRight => - offsetX
        | AnchorTopLeft | AnchorBottomLeft | AnchorLeft => offsetX
        | _ => 0
        end in
      (x, y)
  end.

(** [ToInt32] on an integer. *)
Definition toInt32 (z : Z) : Z :=
  ((z + 2147483648) mod 4294967296 - 2147483648)%Z.

(** [shapedIconText]: moves the text's box next to the icon's box and
    shifts every glyph by the same amount.  Without an icon the text is
    left as it is. *)
Definition shapedIconText (ONE_EM : Q) (shapedText : Shaping) (icon : option PositionedIcon)
    (imageTextAnchor : ImageTextAnchor) (layoutTextSize layoutIconSize : Q) : Shaping :=
  match icon with
  | None => shapedText
  | Some icon =>
      let scale := layoutTextSize / ONE_EM in
      let b := sbox shapedText in
      let textWidth := right b - left b in
      let textHeight := bottom b - top b in
      let imagePadding := 2 in
      let iconTop := (top (ibox icon) - imagePadding) * layoutIconSize / scale in
      let iconBottom := (bottom (ibox icon) + imagePadding) * layoutIconSize / scale in
      let iconLeft := (left (ibox icon) - imagePadding) * layoutIconSize / scale in
      let iconRight := (right (ibox icon) + imagePadding) * layoutIconSize / scale in
      let iconHeight := iconBottom - iconTop in
      let oldTop := top b in
      let oldLeft := left b in
      let b' :=
        match imageTextAnchor with
        | ImageTop =>
            let b1 := set_bottom iconTop b in
            set_top (bottom b1 - textHeight) b1
        | ImageBottom =>
            let b1 := set_top iconBottom b in
            set_bottom (top b1 + textHeight) b1
        | ImageLeft =>
            let b1 := set_bottom (iconBottom - iconHeight / 2 + textHeight / 2) b in
            let b2 := set_top (bottom b1 - textHeight) b1 in
            let b3 := set_right iconLeft b2 in
            set_left (right b3 - textWidth) b3
        | ImageRight =>
            let b1 := set_bottom (iconBottom - iconHeight / 2 + textHeight / 2) b in
            let b2 := set_top (bottom b1 - textHeight) b1 in
            let b3 := set_left iconRight b2 in
            set_right (left b3 + textWidth) b3
        end in
      let dx := oldLeft - left b' in
      let dy := oldTop - top b' in
      let lines :=
        map (map (fun g => mkGlyph (gx g - dx) (gy g - dy) (gcode g)))
            (positionedLines shapedText) in
      set_positionedLines lines (set_sbox b' shapedText)
  end.

(** ** The bucket *)

(** A row of [bucket.collisionBoxArray]: the arguments of its
    [emplaceBack]. *)
Record CollisionBox := mkCollisionBox {
  cbProjectedAnchorX : Q;
  cbProjectedAnchorY : Q;
  cbProjectedAnchorZ : Q;
  cbTileAnchorX : Q;
  cbTileAnchorY : Q;
  cbX1 : Q;
  cbY1 : Q;
  cbX2 : Q;
  cbY2 : Q;
  cbPadding : Q;
  cbFeatureIndex : Z;
  cbSourceLayerIndex : Z;
  cbBucketIndex : Z
}.

(** A row of a [placedSymbolArray]: what [bucket.addSymbols] was given. *)
Record PlacedSymbol := mkPlacedSymbol {
  psQuads : nat;
  psSizeData : option (list Q);
  psLineOffset : Q * Q;
  psAlongLine : bool;
  psWritingMode : option WritingMode;
  psAnchor : Anchor;
  psLineStartIndex : Z;
  psLineLength : Z;
  psAssociatedIconIndex : Z;
  psHasAnySecondaryIcon : bool
}.

(** A row of [bucket.symbolInstances]: the arguments of its [emplaceBack],
    in their order. *)
Record SymbolInstance := mkSymbolInstance {
  anchorX : Q;
  anchorY : Q;
  projectedAnchorX : Q;
  projectedAnchorY : Q;
  projectedAnchorZ : Q;
  rightJustifiedTextSymbolIndex : Z;
  centerJustifiedTextSymbolIndex : Z;
  leftJustifiedTextSymbolIndex : Z;
  verticalPlacedTextSymbolIndex : Z;
  placedIconSymbolIndex : Z;
  verticalPlacedIconSymbolIndex : Z;
  key : Z;
  textBoxStartIndex : Z;
  textBoxEndIndex : Z;
  verticalTextBoxStartIndex : Z;
  verticalTextBoxEndIndex : Z;
  iconBoxStartIndex : Z;
  iconBoxEndIndex : Z;
  verticalIconBoxStartIndex : Z;
  verticalIconBoxEndIndex : Z;
  featureIndex : Z;
  numHorizontalGlyphVertices : Z;
  numVerticalGlyphVertices : Z;
  numIconVertices : Z;
  numVerticalIconVertices : Z;
  useRuntimeCollisionCircles : Z;
  crossTileID : Z;
  textOffset0 : Q;
  textOffset1 : ExtNum;
  collisionCircleDiameter : Q;
  zOffset : Z;
  hasIconTextFit : Z
}.

(** What the bucket is built from; the layout reads these and never
    writes them. *)
Record BucketConfig := mkBucketConfig {
  overscaling : Z;
  zoom : Q;
  bucketIndex : Z;
  bucketPixelRatio : Q;
  allowVerticalPlacement : bool;
  layerId : string;
  textSizeData : SizeData;
  iconSizeData : SizeData;
  features : list SymbolFeature;
  layout : Layout
}.

(** The members of the bucket that the layout writes, together with the
    message history of [warnOnce], which belongs to the util module and
    outlives a bucket. *)
Record Bucket := mkBucket {
  tilePixelRatio : Q;
  compareText : gmap string (list Anchor);
  iconsNeedLinear : bool;
  sdfIcons : option bool;
  iconsInText : bool;
  hasAnyIconTextFit : bool;
  collisionBoxArray : list CollisionBox;
  lineVertexArray : Z;
  glyphOffsetArray : Z;
  textPlacedSymbolArray : list PlacedSymbol;
  iconPlacedSymbolArray : list PlacedSymbol;
  sortKeyRanges : list (Z * Q);
  symbolInstances : list SymbolInstance;
  collisionDebugBuffers : bool;
  warnOnceHistory : list string
}.

Definition set_tilePixelRatio (v : Q) (b : Bucket) : Bucket :=
  mkBucket v (compareText b) (iconsNeedLinear b) (sdfIcons b) (iconsInText b)
    (hasAnyIconTextFit b) (collisionBoxArray b) (lineVertexArray b) (glyphOffsetArray b)
    (textPlacedSymbolArray b) (iconPlacedSymbolArray b) (sortKeyRanges b)
    (symbolInstances b) (collisionDebugBuffers b) (warnOnceHistory b).
Definition set_compareText (v : gmap string (list Anchor)) (b : Bucket) : Bucket :=
  mkBucket (tilePixelRatio b) v (iconsNeedLinear b) (sdfIcons b) (iconsInText b)
    (hasAnyIconTextFit b) (collisionBoxArray b) (lineVertexArray b) (glyphOffsetArray b)
    (textPlacedSymbolArray b) (iconPlacedSymbolArray b) (sortKeyRanges b)
    (symbolInstances b) (collisionDebugBuffers b) (warnOnceHistory b).
Definition set_iconsNeedLinear (v : bool) (b : Bucket) : Bucket :=
  mkBucket (tilePixelRatio b) (compareText b) v (sdfIcons b) (iconsInText b)
    (hasAnyIconTextFit b) (collisionBoxArray b) (lineVertexArray b) (glyphOffsetArray b)
    (textPlacedSymbolArray b) (iconPlacedSymbolArray b) (sortKeyRanges b)
    (symbolInstances b) (collisionDebugBuffers b) (warnOnceHistory b).
Definition set_sdfIcons (v : option bool) (b : Bucket) : Bucket :=
  mkBucket (tilePixelRatio b) (compareText b) (iconsNeedLinear b) v (iconsInText b)
    (hasAnyIconTextFit b) (collisionBoxArray b) (lineVertexArray b) (glyphOffsetArray b)
    (textPlacedSymbolArray b) (iconPlacedSymbolArray b) (sortKeyRanges b)
    (symbolInstances b) (collisionDebugBuffers b) (warnOnceHistory b).
Definition set_iconsInText (v : bool) (b : Bucket) : Bucket :=
  mkBucket (tilePixelRatio b) (compareText b) (iconsNeedLinear b) (sdfIcons b) v
    (hasAnyIconTextFit b) (collisionBoxArray b) (lineVertexArray b) (glyphOffsetArray b)
    (textPlacedSymbolArray b) (iconPlacedSymbolArray b) (sortKeyRanges b)
    (symbolInstances b) (collisionDebugBuffers b) (warnOnceHistory b).
Definition set_hasAnyIconTextFit (v : bool) (b : Bucket) : Bucket :=
  mkBucket (tilePixelRatio b) (compareText b) (iconsNeedLinear b) (sdfIcons b) (iconsInText b)
    v (collisionBoxArray b) (lineVertexArray b) (glyphOffsetArray b)
    (textPlacedSymbolArray b) (iconPlacedSymbolArray b) (sortKeyRanges b)
    (symbolInstances b) (collisionDebugBuffers b) (warnOnceHistory b).
Definition set_collisionBoxArray (v : list CollisionBox) (b : Bucket) : Bucket :=
  mkBucket (tilePixelRatio b) (compareText b) (iconsNeedLinear b) (sdfIcons b) (iconsInText b)
    (hasAnyIconTextFit b) v (lineVertexArray b) (glyphOffsetArray b)
    (textPlacedSymbolArray b) (iconPlacedSymbolArray b) (sortKeyRanges b)
    (symbolInstances b) (collisionDebugBuffers b) (warnOnceHistory b).
Definition set_lineVertexArray (v : Z) (b : Bucket) : Bucket :=
  mkBucket (tilePixelRatio b) (compareText b) (iconsNeedLinear b) (sdfIcons b) (iconsInText b)
    (hasAnyIconTextFit b) (collisionBoxArray b) v (glyphOffsetArray b)
    (textPlacedSymbolArray b) (iconPlacedSymbolArray b) (sortKeyRanges b)
    (symbolInstances b) (collisionDebugBuffers b) (warnOnceHistory b).
Definition set_glyphOffsetArray (v : Z) (b : Bucket) : Bucket :=
  mkBucket (tilePixelRatio b) (compareText b) (iconsNeedLinear b) (sdfIcons b) (iconsInText b)
    (hasAnyIconTextFit b) (collisionBoxArray b) (lineVertexArray b) v
    (textPlacedSymbolArray b) (iconPlacedSymbolArray b) (sortKeyRanges b)
    (symbolInstances b) (collisionDebugBuffers b) (warnOnceHistory b).
Definition set_textPlacedSymbolArray (v : list PlacedSymbol) (b : Bucket) : Bucket :=
  mkBucket (tilePixelRatio b) (compareText b) (iconsNeedLinear b) (sdfIcons b) (iconsInText b)
    (hasAnyIconTextFit b) (collisionBoxArray b) (lineVertexArray b) (glyphOffsetArray b)
    v (iconPlacedSymbolArray b) (sortKeyRanges b)
    (symbolInstances b) (collisionDebugBuffers b) (warnOnceHistory b).
Definition set_iconPlacedSymbolArray (v : list PlacedSymbol) (b : Bucket) : Bucket :=
  mkBucket (tilePixelRatio b) (compareText b) (iconsNeedLinear b) (sdfIcons b) (iconsInText b)
    (hasAnyIconTextFit b) (collisionBoxArray b) (lineVertexArray b) (glyphOffsetArray b)
    (textPlacedSymbolArray b) v (sortKeyRanges b)
    (symbolInstances b) (collisionDebugBuffers b) (warnOnceHistory b).
Definition set_sortKeyRanges (v : list (Z * Q)) (b : Bucket) : Bucket :=
  mkBucket (tilePixelRatio b) (compareText b) (iconsNeedLinear b) (sdfIcons b) (iconsInText b)
    (hasAnyIconTextFit b) (collisionBoxArray b) (lineVertexArray b) (glyphOffsetArray b)
    (textPlacedSymbolArray b) (iconPlacedSymbolArray b) v
    (symbolInstances b) (collisionDebugBuffers b) (warnOnceHistory b).
Definition set_symbolInstances (v : list SymbolInstance) (b : Bucket) : Bucket :=
  mkBucket (tilePixelRatio b) (compareText b) (iconsNeedLinear b) (sdfIcons b) (iconsInText b)
    (hasAnyIconTextFit b) (collisionBoxArray b) (lineVertexArray b) (glyphOffsetArray b)
    (textPlacedSymbolArray b) (iconPlacedSymbolArray b) (sortKeyRanges b)
    v (collisionDebugBuffers b) (warnOnceHistory b).
Definition set_collisionDebugBuffers (v : bool) (b : Bucket) : Bucket :=
  mkBucket (tilePixelRatio b) (compareText b) (iconsNeedLinear b) (sdfIcons b) (iconsInText b)
    (hasAnyIconTextFit b) (collisionBoxArray b) (lineVertexArray b) (glyphOffsetArray b)
    (textPlacedSymbolArray b) (iconPlacedSymbolArray b) (sortKeyRanges b)
    (symbolInstances b) v (warnOnceHistory b).
Definition set_warnOnceHistory (v : list string) (b : Bucket) : Bucket :=
  mkBucket (tilePixelRatio b) (compareText b) (iconsNeedLinear b) (sdfIcons b) (iconsInText b)
    (hasAnyIconTextFit b) (collisionBoxArray b) (lineVertexArray b) (glyphOffsetArray b)
    (textPlacedSymbolArray b) (iconPlacedSymbolArray b) (sortKeyRanges b)
    (symbolInstances b) (collisionDebugBuffers b) v.

(** The length of an array, as a number. *)
Definition len {A} (l : list A) : Z := Z.of_nat (length l).

(** ** Computations on the bucket

    A computation reads and writes the bucket and either completes with a
    value or throws a [TypeError], which nothing in the module catches. *)

Inductive Completion (A : Type) :=
| Normal (a : A)
| TypeError.
Arguments Normal {A} a.
Arguments TypeError {A}.

Definition M (A : Type) := Bucket -> Completion (A * Bucket).

Definition ret {A} (a : A) : M A := fun b => Normal (a, b).

Definition bind {A B} (m : M A) (k : A -> M B) : M B :=
  fun b =>
    match m b with
    | Normal (a, b') => k a b'
    | TypeError => TypeError
    end.

Definition throw {A} : M A := fun _ => TypeError.

Definition get : M Bucket := fun b => Normal (b, b).

Definition modify (f : Bucket -> Bucket) : M unit := fun b => Normal (tt, f b).

#[global] Instance M_ret : MRet M := @ret.
#[global] Instance M_bind : MBind M := fun A B k m => bind m k.

(** [for (const x of l) body(x)], threading a value through the
    iterations. *)
Fixpoint forEach {A S} (l : list A) (body : A -> S -> M S) (s : S) : M S :=
  match l with
  | [] => ret s
  | x :: l' => s' ← body x s; forEach l' body s'
  end.

(** The bucket and value of a completed computation. *)
Definition bucketOf {A} (c : Completion (A * Bucket)) : option Bucket :=
  match c with
  | Normal (_, b) => Some b
  | TypeError => None
  end.

Definition valueOf {A} (c : Completion (A * Bucket)) : option A :=
  match c with
  | Normal (a, _) => Some a
  | TypeError => None
  end.

(** The rectangle [x1, y1, x2, y2] handed to the line clipper. *)
Record ClipRegion := mkClipRegion { clipX1 : Q; clipY1 : Q; clipX2 : Q; clipY2 : Q }.

(** ** Collaborators

    What [symbol_layout.ts] imports from the rest of the repository and
    from its libraries.  The glyph and image atlases, the tile id and the
    brightness only pass through the layout to these functions and are
    part of them here.  Quads are counted: the layout reads their number
    and hands them to the bucket. *)
Class Collaborators := {
  (** [EXTENT] of style-spec/data/extent *)
  EXTENT : Q;
  (** [SIZE_PACK_FACTOR] of symbol_size *)
  SIZE_PACK_FACTOR : Q;
  (** [ONE_EM] of one_em *)
  ONE_EM : Q;
  (** [shapeText(text, ..., fontstack, maxWidth, lineHeight, textAnchor,
      textJustify, spacing, textOffset, writingMode,
      allowVerticalPlacement, layoutTextSize, layoutTextSizeThisZoom)];
      [None] when the shaper returns nothing *)
  shapeText : string -> string -> ExtNum -> Q -> TextAnchor -> TextJustify -> Q ->
              Q * Q -> WritingMode -> bool -> Q -> Q -> option Shaping;
  (** [shapeIcon(position, secondaryPosition, iconOffset, iconAnchor)] *)
  shapeIcon : option Z -> option Z -> Q * Q -> TextAnchor -> PositionedIcon;
  (** [fitIconToText(shapedIcon, shapedText, textFit, padding, iconOffset,
      fontScale)] *)
  fitIconToText : PositionedIcon -> Shaping -> IconTextFit -> Q * Q * Q * Q -> Q * Q -> Q ->
                  PositionedIcon;
  (** the number of quads of [getGlyphQuads(anchor, shaping, textOffset,
      layer, alongLine, feature, imageMap, allowVerticalPlacement)] *)
  getGlyphQuads : Anchor -> Shaping -> Q * Q -> bool -> SymbolFeature -> bool -> nat;
  (** the number of quads of [getIconQuads(shapedIcon, iconRotate, isSDFIcon,
      hasIconTextFit, iconScale)] *)
  getIconQuads : PositionedIcon -> Q -> bool -> bool -> Q -> nat;
  (** [clipLine(lines, x1, y1, x2, y2)], the four bounds as one rectangle *)
  clipLine : list (list Point) -> ClipRegion -> list (list Point);
  (** [getAnchors(line, spacing, maxAngle, shapedText, shapedIcon,
      glyphSize, boxScale, overscaling, tileExtent)] *)
  getAnchors : list Point -> Q -> Q -> option Shaping -> option PositionedIcon -> Q -> Q ->
               Z -> Q -> list Anchor;
  (** [getCenterAnchor(line, maxAngle, shapedText, shapedIcon, glyphSize,
      boxScale)] *)
  getCenterAnchor : list Point -> Q -> option Shaping -> option PositionedIcon -> Q -> Q ->
                    option Anchor;
  (** [classifyRings(rings, maxRings)] *)
  classifyRings : list (list Point) -> Z -> list (list (list Point));
  (** [findPoleOfInaccessibility(polygon, precision)] *)
  findPoleOfInaccessibility : list (list Point) -> Q -> Point;
  (** [murmur3(text)] *)
  murmur3 : string -> Z;
  allowsVerticalWritingMode : string -> bool;
  allowsLetterSpacing : string -> bool;
  (** [getRasterizedIconSize(bucket.iconSizeData,
      unevaluatedLayoutValues['icon-size'], canonical, bucket.zoom,
      feature)] *)
  getRasterizedIconSize : BucketConfig -> SymbolFeature -> Q;
  (** [icon.getPrimary().scaleSelf(scale).serialize()] and the same for the
      secondary image, from the image's name *)
  serializeImage : string -> Q -> string;
  (** [degToRad] of util *)
  degToRad : Q -> Q;
  (** [Point._rotateAround(angle, center)] *)
  rotateAround : Q -> Point -> Point -> Point;
  (** [projection.projectTilePoint(x, y, canonical)] *)
  projectTilePoint : Q -> Q -> Q * Q * Q;
  (** how many rows [bucket.addToLineVertexArray(anchor, line)] appends *)
  lineVertexCount : Anchor -> list Point -> Z
}.

(** The arguments of [performSymbolLayout] besides the bucket. *)
Record Tile := mkTile {
  imageMap : string -> option StyleImage;
  imagePositions : string -> option Z;
  showCollisionBoxes : bool;
  tileZoom : Q;
  projectionIsGlobe : bool;
  tileScaleFactor : Q;
  tilePixelRatioArg : Q
}.

(** ** The sink *)

(** The double quote character, for the messages. *)
Definition dq : string :=
  String (Ascii.Ascii false true false false false true false false) EmptyString.

(** Modelled from the spec: [warnOnce] of util is missing from the
    sources; a fidelity warning is logged once per cause, so a message
    that the history already holds is not logged again. *)
Definition warnOnce (message : string) : M unit :=
  modify (fun b =>
    if existsb (String.eqb message) (warnOnceHistory b) then b
    else set_warnOnceHistory (warnOnceHistory b ++ [message]) b).

(** Modelled from the spec: [bucket.addToLineVertexArray] is missing from
    the sources; the sink appends line-vertex records to a growable store
    indexed by insertion order and reports where they start and how many
    they are. *)
Definition addToLineVertexArray `{Collaborators} (anchor : Anchor) (line : list Point)
    : M (Z * Z) :=
  b ← get;
  let lineStartIndex := lineVertexArray b in
  let n := lineVertexCount anchor line in
  modify (set_lineVertexArray (lineStartIndex + n)%Z);;
  ret (lineStartIndex, n).

(** Which of the two symbol buffers, [bucket.text] or [bucket.icon]. *)
Inductive Buffers := TextBuffers | IconBuffers.

(** Modelled from the spec: [bucket.addSymbols] is missing from the
    sources; the sink appends one placed-symbol row to the given buffers
    and one glyph offset per quad. *)
Definition addSymbols (arrays : Buffers) (p : PlacedSymbol) : M unit :=
  modify (fun b =>
    let b1 := set_glyphOffsetArray (glyphOffsetArray b + Z.of_nat (psQuads p))%Z b in
    match arrays with
    | TextBuffers => set_textPlacedSymbolArray (textPlacedSymbolArray b1 ++ [p]) b1
    | IconBuffers => set_iconPlacedSymbolArray (iconPlacedSymbolArray b1 ++ [p]) b1
    end).

(** Modelled from the spec: [bucket.addToSortKeyRanges] is missing from
    the sources; the call is recorded. *)
Definition addToSortKeyRanges (symbolInstanceIndex : Z) (sortKey : Q) : M unit :=
  modify (fun b => set_sortKeyRanges (sortKeyRanges b ++ [(symbolInstanceIndex, sortKey)]) b).

(** Modelled from the spec: [bucket.createArrays] is missing from the
    sources; the vertex buffers, line vertices, glyph offsets and symbol
    instances of the bucket start empty.  The collision-primitive store is
    not created here. *)
Definition createArrays : M unit :=
  modify (fun b =>
    set_symbolInstances []
      (set_iconPlacedSymbolArray []
        (set_textPlacedSymbolArray []
          (set_glyphOffsetArray 0%Z
            (set_lineVertexArray 0%Z b))))).

(** Modelled from the spec: [bucket.generateCollisionDebugBuffers] is
    missing from the sources; an auxiliary output, it is recorded as
    done. *)
Definition generateCollisionDebugBuffers : M unit :=
  modify (set_collisionDebugBuffers true).

(** ** The layout *)

Section Layout.

Context `{C : Collaborators}.

Definition MAX_PACKED_SIZE : Q := MAX_GLYPH_ICON_SIZE * SIZE_PACK_FACTOR.

(** [tilePixelRatioForSymbolSpacing(overscaleFactor, overscaledZ)]. *)
Definition tilePixelRatioForSymbolSpacing (overscaleFactor : Z) (overscaledZ : Q) : Q :=
  let overscaleFactor :=
    if Num.gtb overscaledZ 18 && (2 <? overscaleFactor)%Z
    then Z.shiftr (toInt32 overscaleFactor) 1
    else overscaleFactor in
  let tilePixelRatio := EXTENT / (512 * inject_Z overscaleFactor) in
  Num.max tilePixelRatio 1.

Definition min4 (a b c d : Q) : Q := Num.min (Num.min (Num.min a b) c) d.
Definition max4 (a b c d : Q) : Q := Num.max (Num.max (Num.max a b) c) d.

(** [evaluateBoxCollisionFeature]; the [collisionBoxArray] it is given is
    always the bucket's.  [textOffset] is [None] where the caller passes
    [null] or nothing. *)
Definition evaluateBoxCollisionFeature (projectedAnchor tileAnchor : Anchor)
    (featureIndex sourceLayerIndex bucketIndex : Z) (shaped : Shaped)
    (padding rotate : Q) (textOffset : option (Q * Q)) (iconScaledSize : Q) : M Z :=
  let y1 := top shaped / iconScaledSize in
  let y2 := bottom shaped / iconScaledSize in
  let x1 := left shaped / iconScaledSize in
  let x2 := right shaped / iconScaledSize in
  let '(x1, y1, x2, y2) :=
    match collisionPadding shaped with
    | Some (p0, p1, p2, p3) => (x1 - p0, y1 - p1, x2 + p2, y2 + p3)
    | None => (x1, y1, x2, y2)
    end in
  let '(x1, y1, x2, y2) :=
    if Num.truthy rotate then
      let tl := mkPoint x1 y1 in
      let tr := mkPoint x2 y1 in
      let bl := mkPoint x1 y2 in
      let br := mkPoint x2 y2 in
      let rotateRadians := degToRad rotate in
      let rotateCenter :=
        match textOffset with
        | Some (o0, o1) => mkPoint o0 o1
        | None => mkPoint 0 0
        end in
      let tl := rotateAround rotateRadians rotateCenter tl in
      let tr := rotateAround rotateRadians rotateCenter tr in
      let bl := rotateAround rotateRadians rotateCenter bl in
      let br := rotateAround rotateRadians rotateCenter br in
      (min4 (px tl) (px tr) (px bl) (px br),
       min4 (py tl) (py tr) (py bl) (py br),
       max4 (px tl) (px tr) (px bl) (px br),
       max4 (py tl) (py tr) (py bl) (py br))
    else (x1, y1, x2, y2) in
  modify (fun b =>
    set_collisionBoxArray
      (collisionBoxArray b ++
       [mkCollisionBox (ax projectedAnchor) (ay projectedAnchor) (az projectedAnchor)
          (ax tileAnchor) (ay tileAnchor) x1 y1 x2 y2 padding
          featureIndex sourceLayerIndex bucketIndex]) b);;
  b ← get;
  ret (len (collisionBoxArray b) - 1)%Z.

(** The messages of the two size warnings. *)
Definition sizeWarning (layerId property : string) : string :=
  layerId ++ ": Value for " ++ dq ++ property ++ dq ++ " is >= 255. Reduce your "
    ++ dq ++ property ++ dq ++ ".".

Definition glyphWarning : string :=
  "Too many glyphs being rendered in a tile. See https://github.com/mapbox/mapbox-gl-js/issues/2907".

Definition sdfWarning : string :=
  "Style sheet warning: Cannot mix SDF and non-SDF icons in one buffer".

(** The size data of a symbol, as [addTextVertices] and [addSymbol] compute
    it for the text and for the icon: [null] for a constant or camera
    size, one packed size for a source size, two for a composite size,
    with a warning when a packed size is greater than [MAX_PACKED_SIZE].
    Reading [sizes.compositeTextSizes[0]] when the composite sizes are
    [undefined] throws. *)
Definition packSizes (cfg : BucketConfig) (property : string) (sizeData : SizeData)
    (layoutSize : SymbolFeature -> Q)
    (compositeSizes : option ((SymbolFeature -> option Q) * (SymbolFeature -> option Q)))
    (scale : Q) (feature : SymbolFeature) : M (option (list Q)) :=
  match sizeData with
  | SizeSource =>
      let data0 := SIZE_PACK_FACTOR * layoutSize feature * scale in
      (if Num.gtb data0 MAX_PACKED_SIZE
       then warnOnce (sizeWarning (layerId cfg) property)
       else ret tt);;
      ret (Some [data0])
  | SizeComposite _ _ =>
      match compositeSizes with
      | None => throw
      | Some (size0, size1) =>
          let data0 := SIZE_PACK_FACTOR * number (size0 feature) * scale in
          let data1 := SIZE_PACK_FACTOR * number (size1 feature) * scale in
          (if Num.gtb data0 MAX_PACKED_SIZE || Num.gtb data1 MAX_PACKED_SIZE
           then warnOnce (sizeWarning (layerId cfg) property)
           else ret tt);;
          ret (Some [data0; data1])
      end
  | _ => ret None
  end.

(** [addTextVertices]; it returns the number of vertices and the
    [placedTextSymbolIndices] object after its writes. *)
Definition addTextVertices (cfg : BucketConfig) (tileAnchor : Anchor) (shapedText : Shaping)
    (textAlongLine : bool) (feature : SymbolFeature) (textOffset : Q * Q)
    (lineArray : Z * Z) (writingMode : WritingMode) (placementTypes : list string)
    (placedTextSymbolIndices : gmap string Z) (placedIconIndex : Z) (sizes : Sizes)
    : M (Z * gmap string Z) :=
  let glyphQuads :=
    getGlyphQuads tileAnchor shapedText textOffset textAlongLine feature
      (allowVerticalPlacement cfg) in
  textSizeData ← packSizes cfg "text-size" (textSizeData cfg) (text_size (layout cfg))
                   (compositeTextSizes sizes) (textScaleFactor sizes) feature;
  addSymbols TextBuffers
    (mkPlacedSymbol glyphQuads textSizeData textOffset textAlongLine (Some writingMode)
       tileAnchor (fst lineArray) (snd lineArray) placedIconIndex false);;
  b ← get;
  let index := (len (textPlacedSymbolArray b) - 1)%Z in
  let indices :=
    fold_left (fun m placementType => <[placementType := index]> m)
      placementTypes placedTextSymbolIndices in
  ret ((Z.of_nat glyphQuads * 4)%Z, indices).

(** A box index used as a condition ([!textBoxIndex],
    [verticalIconBoxIndex ? ... : ...]): [undefined] and [0] are falsy. *)
Definition indexTruthy (i : option Z) : bool :=
  match i with
  | Some i => negb (i =? 0)%Z
  | None => false
  end.

(** [index !== undefined ? index + k : bucket.collisionBoxArray.length]. *)
Definition definedOr (i : option Z) (k : Z) (length : Z) : Z :=
  match i with
  | Some i => (i + k)%Z
  | None => length
  end.

(** [index ? index + k : bucket.collisionBoxArray.length]. *)
Definition truthyOr (i : option Z) (k : Z) (length : Z) : Z :=
  match i with
  | Some i => if (i =? 0)%Z then length else (i + k)%Z
  | None => length
  end.

(** [placedTextSymbolIndices[name] >= 0 ? placedTextSymbolIndices[name] : -1]. *)
Definition placedIndex (indices : gmap string Z) (name : string) : Z :=
  match indices !! name with
  | Some i => if (0 <=? i)%Z then i else (-1)%Z
  | None => (-1)%Z
  end.

(** [getCollisionCircleHeight(diameter, prevHeight)] of [addSymbol];
    [null], [undefined] and [0] are falsy. *)
Definition getCollisionCircleHeight (diameter : option Q) (prevHeight : Q) : Q :=
  match diameter with
  | Some d => if Num.truthy d then Num.max d prevHeight else prevHeight
  | None => prevHeight
  end.

(** The variables of [addSymbol] that its loop over
    [shapedTextOrientations.horizontal] writes, and the shapings. *)
Record TextLoop := mkTextLoop {
  tlShapes : Shapes;
  tlTextBoxIndex : option Z;
  tlKey : Z;
  tlTextCircle : option Q;
  tlNumHorizontalGlyphVertices : Z;
  tlPlacedTextSymbolIndices : gmap string Z
}.

(** The arguments of [addSymbol] that stay the same for all the anchors
    of a feature. *)
Record SymbolArgs := mkSymbolArgs {
  saTextPadding : Q;
  saTextAlongLine : bool;
  saTextOffset : Q * Q;
  saIconBoxScale : Q;
  saIconPadding : Q;
  saIconAlongLine : bool;
  saIconOffset : Q * Q;
  saFeature : SymbolFeature;
  saSizes : Sizes;
  saIsSDFIcon : bool;
  saIsUSVGIcon : bool;
  saHasAnySecondaryIcon : bool
}.

Section AddSymbol.

Variable cfg : BucketConfig.
Variable args : SymbolArgs.
Variable anchor : Anchor.
Variable globe : option Anchor.
Variable line : list Point.

Let feature := saFeature args.
Let sizes := saSizes args.
Let lay := layout cfg.
Let collisionFeatureAnchor : Anchor :=
  match globe with Some g => g | None => anchor end.

(** The block [if (!textBoxIndex) { ... }] of the loop of [addSymbol]: the
    key and the collision primitive of the text, from the shaping of the
    current justification. *)
Definition textCollision (justification : string) (shaping : Shaping) (st : TextLoop)
    : M TextLoop :=
  if negb (indexTruthy (tlTextBoxIndex st)) then
    let key := murmur3 (stext shaping) in
    if saTextAlongLine args then
      let '(circle, box) := evaluateCircleCollisionFeature (sbox shaping) in
      let shapes :=
        set_horizontal
          (obj_set justification (Some (set_sbox box shaping)) (horizontal (tlShapes st)))
          (tlShapes st) in
      ret (mkTextLoop shapes (tlTextBoxIndex st) key circle
             (tlNumHorizontalGlyphVertices st) (tlPlacedTextSymbolIndices st))
    else
      let textRotate := text_rotate lay feature in
      textBoxIndex ← evaluateBoxCollisionFeature collisionFeatureAnchor anchor
                       (findex feature) (sourceLayerIndex feature) (bucketIndex cfg)
                       (sbox shaping) (saTextPadding args) textRotate
                       (Some (saTextOffset args)) 1;
      ret (mkTextLoop (tlShapes st) (Some textBoxIndex) key (tlTextCircle st)
             (tlNumHorizontalGlyphVertices st) (tlPlacedTextSymbolIndices st))
  else ret st.

(** The loop [for (const justification in shapedTextOrientations.horizontal)]
    of [addSymbol] over the keys that are left; it ends early after a
    shaping of one line.  A key whose value is [undefined] makes
    [shaping.text] throw. *)
Fixpoint horizontalLoop (lineArray : Z * Z) (placedIconSymbolIndex : Z)
    (keys : list string) (st : TextLoop) : M TextLoop :=
  match keys with
  | [] => ret st
  | justification :: rest =>
      match horizontal_get justification (horizontal (tlShapes st)) with
      | None => throw
      | Some shaping =>
          st1 ← textCollision justification shaping st;
          match horizontal_get justification (horizontal (tlShapes st1)) with
          | None => throw
          | Some shaping =>
              let singleLine := (length (positionedLines shaping) =? 1)%nat in
              r ← addTextVertices cfg anchor shaping (saTextAlongLine args) feature
                    (saTextOffset args) lineArray
                    (match vertical (tlShapes st1) with
                     | Some _ => Horizontal
                     | None => HorizontalOnly
                     end)
                    (if singleLine then obj_keys (horizontal (tlShapes st1))
                     else [justification])
                    (tlPlacedTextSymbolIndices st1) placedIconSymbolIndex sizes;
              let st2 :=
                mkTextLoop (tlShapes st1) (tlTextBoxIndex st1) (tlKey st1) (tlTextCircle st1)
                  (tlNumHorizontalGlyphVertices st1 + fst r)%Z (snd r) in
              if singleLine then ret st2
              else horizontalLoop lineArray placedIconSymbolIndex rest st2
          end
      end
  end.

(** The collision primitives of the vertical shaping and of the vertically
    shaped icon: the first block of [addSymbol]. *)
Definition verticalCollision (sh : Shapes)
    : M (Shapes * option Z * option Z * option Q * option Q) :=
  match (if allowVerticalPlacement cfg then vertical sh else None) with
  | Some verticalShaping =>
      if saTextAlongLine args then
        let '(verticalTextCircle, box) :=
          evaluateCircleCollisionFeature (sbox verticalShaping) in
        let sh1 := set_vertical (Some (set_sbox box verticalShaping)) sh in
        match verticallyShapedIcon sh1 with
        | Some icon =>
            let '(verticalIconCircle, ibox') := evaluateCircleCollisionFeature (ibox icon) in
            ret (set_verticallyShapedIcon (Some (set_ibox ibox' icon)) sh1,
                 None, None, verticalTextCircle, verticalIconCircle)
        | None => ret (sh1, None, None, verticalTextCircle, None)
        end
      else
        let textRotation := text_rotate lay feature in
        let verticalTextRotation := textRotation + 90 in
        verticalTextBoxIndex ← evaluateBoxCollisionFeature collisionFeatureAnchor anchor
                                 (findex feature) (sourceLayerIndex feature) (bucketIndex cfg)
                                 (sbox verticalShaping) (saTextPadding args)
                                 verticalTextRotation (Some (saTextOffset args)) 1;
        match verticallyShapedIcon sh with
        | Some icon =>
            verticalIconBoxIndex ← evaluateBoxCollisionFeature collisionFeatureAnchor anchor
                                     (findex feature) (sourceLayerIndex feature)
                                     (bucketIndex cfg) (ibox icon) (saIconPadding args)
                                     verticalTextRotation None 1;
            ret (sh, Some verticalTextBoxIndex, Some verticalIconBoxIndex, None, None)
        | None => ret (sh, Some verticalTextBoxIndex, None, None, None)
        end
  | None => ret (sh, None, None, None, None)
  end.

(** What the icon block of [addSymbol] leaves in its variables. *)
Record IconPlacement := mkIconPlacement {
  ipIconBoxIndex : option Z;
  ipNumIconVertices : Z;
  ipNumVerticalIconVertices : Z;
  ipPlacedIconSymbolIndex : Z;
  ipVerticalPlacedIconSymbolIndex : Z
}.

(** The icon block of [addSymbol]: [if (shapedIcon) { ... }]. *)
Definition placeIcon (lineArray : Z * Z) (sh : Shapes) : M IconPlacement :=
  match shapedIcon sh with
  | None => ret (mkIconPlacement None 0 0 (-1) (-1))
  | Some icon =>
      let hasIconTextFit :=
        match icon_text_fit lay feature with FitNone => false | _ => true end in
      let rasterizedIconScaleFactor :=
        if saIsUSVGIcon args then getRasterizedIconSize cfg feature else 1 in
      let iconRotate := icon_rotate lay feature in
      let iconQuads :=
        getIconQuads icon iconRotate (saIsSDFIcon args) hasIconTextFit
          (if saIsUSVGIcon args then 1 / rasterizedIconScaleFactor
           else iconScaleFactor sizes) in
      let verticalIconQuads :=
        match verticallyShapedIcon sh with
        | Some vicon =>
            Some (getIconQuads vicon iconRotate (saIsSDFIcon args) hasIconTextFit
                    (iconScaleFactor sizes))
        | None => None
        end in
      iconBoxIndex ← evaluateBoxCollisionFeature collisionFeatureAnchor anchor
                       (findex feature) (sourceLayerIndex feature) (bucketIndex cfg)
                       (ibox icon) (saIconPadding args) iconRotate None
                       (if saIsUSVGIcon args
                        then iconScaleFactor sizes * rasterizedIconScaleFactor else 1);
      let numIconVertices := (Z.of_nat iconQuads * 4)%Z in
      iconSizeData ← packSizes cfg "icon-size" (iconSizeData cfg) (icon_size lay)
                       (compositeIconSizes sizes) (iconScaleFactor sizes) feature;
      addSymbols IconBuffers
        (mkPlacedSymbol iconQuads iconSizeData (saIconOffset args) (saIconAlongLine args)
           None anchor (fst lineArray) (snd lineArray) (-1) (saHasAnySecondaryIcon args));;
      b ← get;
      let placedIconSymbolIndex := (len (iconPlacedSymbolArray b) - 1)%Z in
      match verticalIconQuads with
      | Some verticalIconQuads =>
          let numVerticalIconVertices := (Z.of_nat verticalIconQuads * 4)%Z in
          addSymbols IconBuffers
            (mkPlacedSymbol verticalIconQuads iconSizeData (saIconOffset args)
               (saIconAlongLine args) (Some Vertical) anchor (fst lineArray)
               (snd lineArray) (-1) (saHasAnySecondaryIcon args));;
          b ← get;
          ret (mkIconPlacement (Some iconBoxIndex) numIconVertices numVerticalIconVertices
                 placedIconSymbolIndex (len (iconPlacedSymbolArray b) - 1)%Z)
      | None =>
          ret (mkIconPlacement (Some iconBoxIndex) numIconVertices 0
                 placedIconSymbolIndex (-1))
      end
  end.

(** [addSymbol]: adds a single label and icon placement.  It returns the
    feature's shapings as its calls of [evaluateCircleCollisionFeature]
    leave them. *)
Definition addSymbol (sh : Shapes) : M Shapes :=
  lineArray ← addToLineVertexArray anchor line;
  let key := murmur3 "" in
  let hasIconTextFit :=
    match icon_text_fit lay feature with FitNone => false | _ => true end in
  let '(textOffset0, textOffset1) :=
    if text_radial_offset_unset lay then
      (fst (text_offset lay feature) * ONE_EM,
       Finite (snd (text_offset lay feature) * ONE_EM))
    else (text_radial_offset lay feature * ONE_EM, INVALID_TEXT_OFFSET) in
  v ← verticalCollision sh;
  let '(sh1, verticalTextBoxIndex, verticalIconBoxIndex,
        verticalTextCircle, verticalIconCircle) := v in
  (* Place icon first, so text can have a reference to its index in the
     placed symbol array. *)
  ip ← placeIcon lineArray sh1;
  st ← horizontalLoop lineArray (ipPlacedIconSymbolIndex ip) (obj_keys (horizontal sh1))
         (mkTextLoop sh1 None key None 0 ∅);
  let sh2 := tlShapes st in
  vt ← match vertical sh2 with
       | Some verticalShaping =>
           addTextVertices cfg anchor verticalShaping (saTextAlongLine args) feature
             (saTextOffset args) lineArray Vertical ["vertical"]
             (tlPlacedTextSymbolIndices st) (ipVerticalPlacedIconSymbolIndex ip) sizes
       | None => ret (0%Z, tlPlacedTextSymbolIndices st)
       end;
  let '(numVerticalGlyphVertices, placedTextSymbolIndices) := vt in
  let collisionCircleDiameter := getCollisionCircleHeight (tlTextCircle st) (-1) in
  let collisionCircleDiameter :=
    getCollisionCircleHeight verticalTextCircle collisionCircleDiameter in
  let collisionCircleDiameter :=
    getCollisionCircleHeight verticalIconCircle collisionCircleDiameter in
  let useRuntimeCollisionCircles :=
    if Num.gtb collisionCircleDiameter (-1) then 1%Z else 0%Z in
  b ← get;
  (if (MAX_GLYPHS <=? glyphOffsetArray b)%Z then warnOnce glyphWarning else ret tt);;
  b ← get;
  match sortKey feature with
  | Some k => addToSortKeyRanges (len (symbolInstances b)) k
  | None => ret tt
  end;;
  let projectedAnchor := collisionFeatureAnchor in
  modify (fun b =>
    let length := len (collisionBoxArray b) in
    set_symbolInstances
      (symbolInstances b ++
       [mkSymbolInstance
          (ax anchor) (ay anchor)
          (ax projectedAnchor) (ay projectedAnchor) (az projectedAnchor)
          (placedIndex placedTextSymbolIndices "right")
          (placedIndex placedTextSymbolIndices "center")
          (placedIndex placedTextSymbolIndices "left")
          (placedIndex placedTextSymbolIndices "vertical")
          (ipPlacedIconSymbolIndex ip)
          (ipVerticalPlacedIconSymbolIndex ip)
          (tlKey st)
          (definedOr (tlTextBoxIndex st) 0 length)
          (definedOr (tlTextBoxIndex st) 1 length)
          (definedOr verticalTextBoxIndex 0 length)
          (definedOr verticalTextBoxIndex 1 length)
          (definedOr (ipIconBoxIndex ip) 0 length)
          (definedOr (ipIconBoxIndex ip) 1 length)
          (truthyOr verticalIconBoxIndex 0 length)
          (truthyOr verticalIconBoxIndex 1 length)
          (findex feature)
          (tlNumHorizontalGlyphVertices st)
          numVerticalGlyphVertices
          (ipNumIconVertices ip)
          (ipNumVerticalIconVertices ip)
          useRuntimeCollisionCircles
          0
          textOffset0
          textOffset1
          collisionCircleDiameter
          0
          (if hasIconTextFit then 1 else 0)%Z]) b);;
  ret sh2.

End AddSymbol.

(** The names that [text in compareText] finds on [Object.prototype]
    whatever the registry holds: [compareText] is created as [{}]. *)
Definition objectPrototypeKeys : list string :=
  ["constructor"; "__defineGetter__"; "__defineSetter__"; "hasOwnProperty";
   "__lookupGetter__"; "__lookupSetter__"; "isPrototypeOf"; "propertyIsEnumerable";
   "toString"; "valueOf"; "__proto__"; "toLocaleString"].

Definition inObjectPrototype (k : string) : bool :=
  existsb (String.eqb k) objectPrototypeKeys.

(** [a.distSqr(b)] of a point. *)
Definition distSqr (a b : Anchor) : Q :=
  (ax b - ax a) * (ax b - ax a) + (ay b - ay a) * (ay b - ay a).

(** [a.dist(b) < r].  The distance is the square root of [distSqr a b]; it
    is less than [r] exactly when [r] is positive and [distSqr a b] is
    less than the square of [r]. *)
Definition distLess (a b : Anchor) (r : Q) : bool :=
  Num.ltb 0 r && Num.ltb (distSqr a b) (r * r).

(** The scan of [anchorIsTooClose], from the last registered anchor to the
    first: [true] as soon as one is within [repeatDistance]. *)
Fixpoint withinRepeatDistance (anchor : Anchor) (repeatDistance : Q)
    (othersFromLast : list Anchor) : bool :=
  match othersFromLast with
  | [] => false
  | other :: rest =>
      if distLess anchor other repeatDistance then true
      else withinRepeatDistance anchor repeatDistance rest
  end.

(** [anchorIsTooClose(bucket, text, repeatDistance, anchor)].  For a text
    that names a member of [Object.prototype] the [in] test succeeds on the
    empty registry, and the member is not an array of anchors: the scan
    or the [push] throws. *)
Definition anchorIsTooClose (text : string) (repeatDistance : Q) (anchor : Anchor) : M bool :=
  b ← get;
  match compareText b !! text with
  | None =>
      if inObjectPrototype text then throw
      else
        modify (set_compareText (<[text := [anchor]]> (compareText b)));;
        ret false
  | Some otherAnchors =>
      if withinRepeatDistance anchor repeatDistance (rev otherAnchors) then ret true
      else
        modify (set_compareText (<[text := otherAnchors ++ [anchor]]> (compareText b)));;
        ret false
  end.

Section AddFeature.

Variable cfg : BucketConfig.
Variable tile : Tile.
Variable args : SymbolArgs.

Let feature := saFeature args.
Let lay := layout cfg.

(** [addSymbolAtAnchor(line, anchor, canonicalId)] of [addFeature]. *)
Definition addSymbolAtAnchor (line : list Point) (anchor : Anchor) (sh : Shapes) : M Shapes :=
  if Num.ltb (ax anchor) 0 || Num.geb (ax anchor) EXTENT
     || Num.ltb (ay anchor) 0 || Num.geb (ay anchor) EXTENT
  then
    (* Symbol layers are drawn across tile boundaries; symbols outside our
       tile boundaries are filtered out to prevent double-drawing. *)
    ret sh
  else
    let globe :=
      if projectionIsGlobe tile then
        let '(x, y, z) := projectTilePoint (ax anchor) (ay anchor) in
        Some (mkAnchor x y z 0 None)
      else None in
    addSymbol cfg args anchor globe line sh.

(** [new Anchor(line[i].x, line[i].y, 0, 0, undefined)] for the vertex
    [line[i]], and a [TypeError] where [line[i]] is [undefined]. *)
Definition addSymbolAtVertex (line : list Point) (i : nat) (sh : Shapes) : M Shapes :=
  match line !! i with
  | Some p => addSymbolAtAnchor line (mkAnchor (px p) (py p) 0 0 None) sh
  | None => throw
  end.

(** [addSymbolAtAnchorFromLine(line)] of [addFeature]. *)
Definition addSymbolAtAnchorFromLine (line : list Point) (sh : Shapes) : M Shapes :=
  let l := length line in
  let first := addSymbolAtVertex line 0 sh in
  match symbol_placement lay with
  | PlaceVertex =>
      forEach (seq 0 l) (addSymbolAtVertex line) sh
  | PlaceFirstVertex => first
  | PlaceLastVertex =>
      if (1 <? l)%nat then addSymbolAtVertex line (l - 1) sh else first
  | PlaceFirstLastVertex =>
      sh1 ← first;
      if (1 <? l)%nat then addSymbolAtVertex line (l - 1) sh1 else ret sh1
  | PlaceExceptFirstVertex =>
      if (1 <? l)%nat then forEach (seq 1 (l - 1)) (addSymbolAtVertex line) sh else first
  | PlaceExceptLastVertex =>
      if (1 <? l)%nat then forEach (seq 0 (l - 1)) (addSymbolAtVertex line) sh else first
  | PlaceMiddleVertex =>
      if (2 <? l)%nat then forEach (seq 1 (l - 2)) (addSymbolAtVertex line) sh else first
  | _ => first
  end.

(** The rectangle that [addFeature] hands to [clipLine]: the arguments
    [0, 0, EXTENT, EXTENT]. *)
Definition lineClipRegion : ClipRegion := mkClipRegion 0 0 EXTENT EXTENT.

(** [shapedTextOrientations.vertical || defaultShaping]. *)
Definition verticalOrDefault (sh : Shapes) : option Shaping :=
  match vertical sh with
  | Some v => Some v
  | None => defaultShaping sh
  end.

(** The body of the loop of [addFeature] over the clipped lines: the
    anchors of one line, each placed unless [anchorIsTooClose] rejects
    it. *)
Definition placeAlongLine (textMaxBoxScale symbolMinDistance textMaxAngle : Q)
    (line : list Point) (sh : Shapes) : M Shapes :=
  let glyphSize := ONE_EM in
  let textRepeatDistance := symbolMinDistance / 2 in
  let anchors :=
    getAnchors line symbolMinDistance textMaxAngle (verticalOrDefault sh)
      (shapedIcon sh) glyphSize textMaxBoxScale (overscaling cfg) EXTENT in
  forEach anchors
    (fun (anchor : Anchor) (sh : Shapes) =>
       match defaultShaping sh return M Shapes with
       | None => addSymbolAtAnchor line anchor sh
       | Some shapedText =>
           bind (anchorIsTooClose (stext shapedText) textRepeatDistance anchor)
             (fun tooClose : bool =>
                if tooClose then ret sh else addSymbolAtAnchor line anchor sh)
       end)
    sh.

(** The body of [addFeature] after the icon has been fitted: the dispatch
    on the placement and on the geometry's type. *)
Definition placeFeature (textMaxBoxScale symbolMinDistance textMaxAngle : Q)
    (sh : Shapes) : M Shapes :=
  let glyphSize := ONE_EM in
  match symbol_placement lay with
  | PlaceLine =>
      forEach (clipLine (geometry feature) lineClipRegion)
        (placeAlongLine textMaxBoxScale symbolMinDistance textMaxAngle) sh
  | PlaceLineCenter =>
      (* No clipping, multiple lines per feature are allowed;
         lines with only one point are ignored as in clipLines *)
      forEach (geometry feature)
        (fun line sh =>
           if (1 <? length line)%nat then
             match getCenterAnchor line textMaxAngle (verticalOrDefault sh)
                     (shapedIcon sh) glyphSize textMaxBoxScale with
             | Some anchor => addSymbolAtAnchor line anchor sh
             | None => ret sh
             end
           else ret sh)
        sh
  | placement =>
      match ftype feature with
      | TypePolygon =>
          forEach (classifyRings (geometry feature) 0)
            (fun polygon sh =>
               match placement with
               | PlacePoint =>
                   (* 16 here represents 2 pixels *)
                   let poi := findPoleOfInaccessibility polygon 16 in
                   addSymbolAtAnchor (hd [] polygon) (mkAnchor (px poi) (py poi) 0 0 None) sh
               | _ =>
                   match polygon with
                   | ring :: _ => addSymbolAtAnchorFromLine ring sh
                   | [] => throw
                   end
               end)
            sh
      | TypeLineString =>
          forEach (geometry feature) addSymbolAtAnchorFromLine sh
      | TypePoint =>
          forEach (geometry feature)
            (fun points sh =>
               forEach points
                 (fun point sh =>
                    addSymbolAtAnchor [point] (mkAnchor (px point) (py point) 0 0 None) sh)
                 sh)
            sh
      | TypeUnknown => ret sh
      end
  end.

End AddFeature.

(** [addFeature]: given a feature and its shaped text and icon, adds a
    symbol instance for each possible placement of the feature.  It
    returns the shapings as the placements leave them. *)
Definition addFeature (cfg : BucketConfig) (tile : Tile) (feature : SymbolFeature)
    (shapedTextOrientations : HorizontalShapings * option Shaping)
    (shapedIcon : option PositionedIcon) (sizes : Sizes)
    (layoutTextSize layoutIconSize : Q) (textOffset : Q * Q)
    (isSDFIcon isUSVGIcon hasAnySecondaryIcon : bool) : M Shapes :=
  let lay := layout cfg in
  let textMaxSize :=
    match textMaxSize sizes feature with
    | None => layoutTextSize * textScaleFactor sizes
    | Some t => t * textScaleFactor sizes
    end in
  let iconOffset := icon_offset lay feature in
  let sh := mkShapes (fst shapedTextOrientations) (snd shapedTextOrientations) shapedIcon None in
  let defaultShaping := defaultShaping sh in
  b ← get;
  let glyphSize := ONE_EM in
  let fontScale := layoutTextSize * textScaleFactor sizes / glyphSize in
  let textMaxBoxScale := tilePixelRatio b * textMaxSize / glyphSize in
  let iconBoxScale := tilePixelRatio b * layoutIconSize in
  let symbolMinDistance :=
    tilePixelRatioForSymbolSpacing (overscaling cfg) (zoom cfg) * symbol_spacing lay in
  let textPadding := text_padding lay * tilePixelRatio b in
  let iconPadding := icon_padding lay * tilePixelRatio b in
  let textMaxAngle := degToRad (text_max_angle lay) in
  let textAlongLine :=
    is_map (text_rotation_alignment lay) && placement_includes_line (symbol_placement lay) in
  let iconAlongLine :=
    is_map (icon_rotation_alignment lay) && placement_includes_line (symbol_placement lay) in
  let iconTextFit := icon_text_fit lay feature in
  let iconTextFitPadding := icon_text_fit_padding lay feature in
  let hasIconTextFit := match iconTextFit with FitNone => false | _ => true end in
  (if negb (hasAnyIconTextFit b) && hasIconTextFit
   then modify (set_hasAnyIconTextFit true) else ret tt);;
  (* Adjust shaped icon size when icon-text-fit is used. *)
  let sh :=
    match shapedIcon with
    | Some icon =>
        if hasIconTextFit then
          let verticallyShapedIcon :=
            match (if allowVerticalPlacement cfg then vertical sh else None) with
            | Some v =>
                Some (fitIconToText icon v iconTextFit iconTextFitPadding iconOffset fontScale)
            | None => None
            end in
          let shapedIcon :=
            match defaultShaping with
            | Some d =>
                Some (fitIconToText icon d iconTextFit iconTextFitPadding iconOffset fontScale)
            | None => Some icon
            end in
          set_shapedIcon shapedIcon (set_verticallyShapedIcon verticallyShapedIcon sh)
        else sh
    | None => sh
    end in
  placeFeature cfg tile
    (mkSymbolArgs textPadding textAlongLine textOffset iconBoxScale iconPadding iconAlongLine
       iconOffset feature sizes isSDFIcon isUSVGIcon hasAnySecondaryIcon)
    textMaxBoxScale symbolMinDistance textMaxAngle sh.

(** The loop of [performSymbolLayout] over the justifications of a layer
    with [text-variable-anchor].  [shape justification] is the call of
    [shapeText] for that justification.  After a shaping of a single line
    the other justifications are given [horizontal[0]], the value of the
    property named [0]. *)
Fixpoint shapeJustifications (shape : TextJustify -> option Shaping)
    (justifications : list TextJustify) (singleLine : bool) (h : HorizontalShapings)
    : HorizontalShapings :=
  match justifications with
  | [] => h
  | justification :: rest =>
      match horizontal_get (justifyKey justification) h with
      | Some _ => shapeJustifications shape rest singleLine h
      | None =>
          if singleLine then
            (* If the shaping for the first justification was only a single
               line, we can re-use it for the other justifications *)
            shapeJustifications shape rest singleLine
              (obj_set (justifyKey justification) (horizontal_get "0" h) h)
          else
            match shape justification with
            | Some shaping =>
                shapeJustifications shape rest
                  (length (positionedLines shaping) =? 1)%nat
                  (obj_set (justifyKey justification) (Some shaping) h)
            | None => shapeJustifications shape rest singleLine h
            end
      end
  end.

(** A string used as a condition: the empty string is falsy. *)
Definition nonEmpty (s : string) : bool :=
  match s with EmptyString => false | _ => true end.

(** [feature.icon && feature.icon.nameSecondary]. *)
Definition hasSecondaryIcon (feature : SymbolFeature) : bool :=
  match ficon feature with
  | Some icon =>
      match nameSecondary icon with
      | Some n => nonEmpty n
      | None => false
      end
  | None => false
  end.

(** The anchor of the shaper, with [image-] taken off an image anchor. *)
Definition plainTextAnchor (a : TextAnchorValue) : TextAnchor :=
  match a with
  | PlainAnchor a => a
  | ImageAnchor ImageTop => AnchorTop
  | ImageAnchor ImageBottom => AnchorBottom
  | ImageAnchor ImageLeft => AnchorLeft
  | ImageAnchor ImageRight => AnchorRight
  end.

(** A write through [shapedText], the object that
    [getDefaultHorizontalShaping(horizontal) || vertical] refers to. *)
Definition updateDefaultShaping (f : Shaping -> Shaping)
    (o : HorizontalShapings * option Shaping) : HorizontalShapings * option Shaping :=
  match fst o with
  | (k, Some d) :: rest => ((k, Some (f d)) :: rest, snd o)
  | _ => (fst o, option_map f (snd o))
  end.

Section PerformSymbolLayout.

Variable cfg : BucketConfig.
Variable tile : Tile.

Let lay := layout cfg.

(** The [sizes] of [performSymbolLayout]. *)
Definition layoutSizes : Sizes :=
  let textRange := text_size_scale_range lay in
  let iconRange := icon_size_scale_range lay in
  mkSizes (tileScaleFactor tile) textRange iconRange
    (Num.clamp (tileScaleFactor tile) (fst textRange) (snd textRange))
    (Num.clamp (tileScaleFactor tile) (fst iconRange) (snd iconRange))
    (unevaluated_text_size lay (tileZoom tile + 1))
    (unevaluated_icon_size lay (tileZoom tile + 1))
    (unevaluated_text_size lay 18)
    match textSizeData cfg with
    | SizeComposite minZoom maxZoom =>
        Some (unevaluated_text_size lay minZoom, unevaluated_text_size lay maxZoom)
    | _ => None
    end
    match iconSizeData cfg with
    | SizeComposite minZoom maxZoom =>
        Some (unevaluated_icon_size lay minZoom, unevaluated_icon_size lay maxZoom)
    | _ => None
    end.

Definition layoutTextAlongLine : bool :=
  is_map (text_rotation_alignment lay) && placement_includes_line (symbol_placement lay).

(** The text block of the feature loop: the shapings of the feature's
    text, its offset and its image anchor. *)
Definition shapeFeatureText (feature : SymbolFeature) (text : string)
    (layoutTextSize layoutTextSizeThisZoom : Q)
    : HorizontalShapings * option Shaping * (Q * Q) * option ImageTextAnchor :=
  let fontstack := String.concat "," (text_font lay feature) in
  let unformattedText := text in
  let spacing := text_letter_spacing lay feature * ONE_EM in
  let lineHeight := text_line_height lay feature * ONE_EM in
  let spacingIfAllowed := if allowsLetterSpacing unformattedText then spacing else 0 in
  let imageTextAnchor :=
    match text_anchor lay feature with
    | ImageAnchor a => Some a
    | PlainAnchor _ => None
    end in
  let textAnchor := plainTextAnchor (text_anchor lay feature) in
  let variableTextAnchor := text_variable_anchor lay in
  let textOffset :=
    match variableTextAnchor with
    | None =>
        let radialOffset := text_radial_offset lay feature in
        if Num.truthy radialOffset then
          evaluateVariableOffset textAnchor (radialOffset * ONE_EM, INVALID_TEXT_OFFSET)
        else
          (fst (text_offset lay feature) * ONE_EM, snd (text_offset lay feature) * ONE_EM)
    | Some _ => (0, 0)
    end in
  let textJustify :=
    if layoutTextAlongLine then Justify JustifyCenter else text_justify lay feature in
  let isPointPlacement :=
    match symbol_placement lay with PlacePoint => true | _ => false end in
  let maxWidth :=
    if isPointPlacement then Finite (text_max_width lay feature * ONE_EM)
    else PositiveInfinity in
  let addVerticalShapingIfNeeded (textJustify : TextJustify) : option Shaping :=
    if allowVerticalPlacement cfg && allowsVerticalWritingMode unformattedText then
      shapeText text fontstack maxWidth lineHeight textAnchor textJustify spacingIfAllowed
        textOffset Vertical true layoutTextSize layoutTextSizeThisZoom
    else None in
  match (if layoutTextAlongLine then None else variableTextAnchor) with
  | Some variableTextAnchor =>
      (* If this layer uses text-variable-anchor, generate shapings for
         all justification possibilities. *)
      let justifications :=
        match textJustify with
        | JustifyAuto => map getAnchorJustification variableTextAnchor
        | Justify j => [j]
        end in
      let h :=
        shapeJustifications
          (fun justification =>
             shapeText text fontstack maxWidth lineHeight AnchorCenter justification
               spacingIfAllowed textOffset Horizontal false layoutTextSize
               layoutTextSizeThisZoom)
          justifications false [] in
      (h, addVerticalShapingIfNeeded JustifyLeft, textOffset, imageTextAnchor)
  | None =>
      let textJustify :=
        match textJustify with
        | JustifyAuto => getAnchorJustification textAnchor
        | Justify j => j
        end in
      let h :=
        if isPointPlacement
           || existsb (String.eqb "horizontal") (text_writing_mode lay)
           || negb (allowsVerticalWritingMode unformattedText)
        then
          match shapeText text fontstack maxWidth lineHeight textAnchor textJustify
                  spacingIfAllowed textOffset Horizontal false layoutTextSize
                  layoutTextSizeThisZoom with
          | Some shaping => [(justifyKey textJustify, Some shaping)]
          | None => []
          end
        else [] in
      (h, addVerticalShapingIfNeeded (if isPointPlacement then JustifyLeft else textJustify),
       textOffset, imageTextAnchor)
  end.

(** The icon block of the feature loop: the shaped icon and the image's
    flags, with the writes to [bucket.sdfIcons] and
    [bucket.iconsNeedLinear]. *)
Definition shapeFeatureIcon (sizes : Sizes) (feature : SymbolFeature)
    : M (option PositionedIcon * bool * bool) :=
  match ficon feature with
  | Some icon =>
      if nonEmpty (namePrimary icon) then
        let iconSizeFactor := getRasterizedIconSize cfg feature in
        let scaleFactor := iconSizeFactor * iconScaleFactor sizes * tilePixelRatioArg tile in
        let primaryImageSerialized := serializeImage (namePrimary icon) scaleFactor in
        match imageMap tile primaryImageSerialized with
        | Some image =>
            let shapedIcon :=
              shapeIcon (imagePositions tile primaryImageSerialized)
                (match nameSecondary icon with
                 | Some n =>
                     if nonEmpty n then imagePositions tile (serializeImage n scaleFactor)
                     else None
                 | None => None
                 end)
                (icon_offset lay feature) (icon_anchor lay feature) in
            b ← get;
            match sdfIcons b with
            | None => modify (set_sdfIcons (Some (sdf image)))
            | Some s =>
                if negb (Bool.eqb s (sdf image)) then warnOnce sdfWarning else ret tt
            end;;
            (if negb (Qeq_bool (imagePixelRatio image) (bucketPixelRatio cfg))
             then modify (set_iconsNeedLinear true)
             else if negb (Qeq_bool (icon_rotate_constantOr1 lay) 0)
                  then modify (set_iconsNeedLinear true)
                  else ret tt);;
            ret (Some shapedIcon, sdf image, usvg image)
        | None => ret (None, false, false)
        end
      else ret (None, false, false)
  | None => ret (None, false, false)
  end.

(** The body of the loop of [performSymbolLayout] over the features. *)
Definition layoutFeature (sizes : Sizes) (hasAnySecondaryIcon : bool)
    (feature : SymbolFeature) : M unit :=
  let layoutTextSizeThisZoom := text_size lay feature * textScaleFactor sizes in
  let layoutTextSize := number (layoutTextSize sizes feature) * textScaleFactor sizes in
  let layoutIconSize := number (layoutIconSize sizes feature) * iconScaleFactor sizes in
  let '(h, v, textOffset, imageTextAnchor) :=
    match ftext feature with
    | Some text => shapeFeatureText feature text layoutTextSize layoutTextSizeThisZoom
    | None => ([], None, (0, 0), None)
    end in
  i ← shapeFeatureIcon sizes feature;
  let '(shapedIcon, isSDFIcon, isUSVGIcon) := i in
  let shapedText := defaultShaping (mkShapes h v None None) in
  b ← get;
  (if negb (iconsInText b)
   then modify (set_iconsInText
                  match shapedText with Some s => siconsInText s | None => false end)
   else ret tt);;
  let shapedTextOrientations :=
    match imageTextAnchor, shapedText with
    | Some a, Some _ =>
        updateDefaultShaping
          (fun s => shapedIconText ONE_EM s shapedIcon a layoutTextSize layoutIconSize) (h, v)
    | _, _ => (h, v)
    end in
  match shapedText, shapedIcon with
  | None, None => ret tt
  | _, _ =>
      addFeature cfg tile feature shapedTextOrientations shapedIcon sizes layoutTextSize
        layoutIconSize textOffset isSDFIcon isUSVGIcon hasAnySecondaryIcon;;
      ret tt
  end.

(** [performSymbolLayout]. *)
Definition performSymbolLayout : M unit :=
  createArrays;;
  let tileSize := 512 * inject_Z (overscaling cfg) in
  modify (set_tilePixelRatio (EXTENT / tileSize));;
  modify (set_compareText ∅);;
  modify (set_iconsNeedLinear false);;
  let sizes := layoutSizes in
  let hasAnySecondaryIcon := existsb hasSecondaryIcon (features cfg) in
  forEach (features cfg) (fun feature _ => layoutFeature sizes hasAnySecondaryIcon feature) tt;;
  if showCollisionBoxes tile then generateCollisionDebugBuffers else ret tt.

End PerformSymbolLayout.

End Layout.

(** ** Vocabulary of the properties *)

(** The global rule of [addSymbolAtAnchor]: both coordinates lie in
    [[0, EXTENT)]. *)
Definition inTile `{Collaborators} (x y : Q) : bool :=
  Num.geb x 0 && Num.ltb x EXTENT && Num.geb y 0 && Num.ltb y EXTENT.

(** The tile position of a symbol instance. *)
Definition instanceAnchor (i : SymbolInstance) : Q * Q := (anchorX i, anchorY i).

Definition pointCoordinates (p : Point) : Q * Q := (px p, py p).

(** The positions of the symbol instances of a bucket. *)
Definition instanceAnchors (b : Bucket) : list (Q * Q) :=
  map instanceAnchor (symbolInstances b).

(** The coordinates of a list that lie inside the tile. *)
Definition insideTile `{Collaborators} (l : list (Q * Q)) : list (Q * Q) :=
  List.filter (fun c => inTile (fst c) (snd c)) l.

(** Walking the keys in their order, no key reads [undefined] before a
    shaping of a single line is met. *)
Fixpoint walkableKeys (h : HorizontalShapings) (keys : list string) : Prop :=
  match keys with
  | [] => True
  | k :: rest =>
      match horizontal_get k h with
      | None => False
      | Some shaping =>
          length (positionedLines shaping) = 1%nat \/ walkableKeys h rest
      end
  end.

(** The horizontal shapings that the loop of [addSymbol] can walk. *)
Definition walkable (h : HorizontalShapings) : Prop := walkableKeys h (obj_keys h).

(** The sizes hold the composite sizes that a composite size kind reads. *)
Definition sizesComplete (cfg : BucketConfig) (sizes : Sizes) : Prop :=
  (forall lo hi, textSizeData cfg = SizeComposite lo hi -> compositeTextSizes sizes <> None) /\
  (forall lo hi, iconSizeData cfg = SizeComposite lo hi -> compositeIconSizes sizes <> None).

(** A bucket whose stores are all empty, with the message history that
    [warnOnce] has accumulated so far. *)
Definition emptyBucket (history : list string) : Bucket :=
  mkBucket 0 ∅ false None false false [] 0 0 [] [] [] [] false history.


(** [textRepeatDistance] of [addFeature]: half of [symbolMinDistance]. *)
Definition textRepeatDistance `{Collaborators} (cfg : BucketConfig) : Q :=
  tilePixelRatioForSymbolSpacing (overscaling cfg) (zoom cfg)
    * symbol_spacing (layout cfg) / 2.

(** The region extends beyond the tile rectangle [[0, EXTENT] x [0, EXTENT]]
    on every side. *)
Definition expandsTile `{Collaborators} (r : ClipRegion) : Prop :=
  clipX1 r < 0 /\ clipY1 r < 0 /\ EXTENT < clipX2 r /\ EXTENT < clipY2 r.

(** The packed sizes of a feature as the expressions give them, before
    any clamping: one value for a source size, two for a composite size,
    none for the other kinds. *)
Definition packedSizes `{Collaborators} (sizeData : SizeData)
    (layoutSize : SymbolFeature -> Q)
    (compositeSizes : option ((SymbolFeature -> option Q) * (SymbolFeature -> option Q)))
    (scale : Q) (feature : SymbolFeature) : option (list Q) :=
  match sizeData with
  | SizeSource => Some [SIZE_PACK_FACTOR * layoutSize feature * scale]
  | SizeComposite _ _ =>
      match compositeSizes with
      | Some (size0, size1) =>
          Some [SIZE_PACK_FACTOR * number (size0 feature) * scale;
                SIZE_PACK_FACTOR * number (size1 feature) * scale]
      | None => None
      end
  | _ => None
  end.

(** The second bucket is the first one but for the message history. *)
Definition sameButHistory (b b' : Bucket) : Prop :=
  b' = set_warnOnceHistory (warnOnceHistory b') b.

(** The second bucket has the symbol instances and the text registry of
    the first and its collision boxes followed by [n] new ones. *)
Definition grows (n : nat) (b b' : Bucket) : Prop :=
  symbolInstances b' = symbolInstances b
  /\ compareText b' = compareText b
  /\ exists boxes,
       length boxes = n /\ collisionBoxArray b' = collisionBoxArray b ++ boxes.

(** The categories of collision primitives that a call of [addSymbol]
    inserts a box for: the vertical text and the vertical icon when
    vertical placement is allowed, a vertical shaping exists and the text
    does not run along the line; the icon when there is a shaped icon; the
    text when a horizontal shaping exists and the text does not run along
    the line. *)
Definition verticalTextPresent (cfg : BucketConfig) (args : SymbolArgs) (sh : Shapes) : bool :=
  allowVerticalPlacement cfg && bool_decide (is_Some (vertical sh))
  && negb (saTextAlongLine args).

Definition verticalIconPresent (cfg : BucketConfig) (args : SymbolArgs) (sh : Shapes) : bool :=
  verticalTextPresent cfg args sh && bool_decide (is_Some (verticallyShapedIcon sh)).

Definition iconPresent (sh : Shapes) : bool := bool_decide (is_Some (shapedIcon sh)).

Definition textPresent (args : SymbolArgs) (sh : Shapes) : bool :=
  negb (saTextAlongLine args) && negb (bool_decide (horizontal sh = [])).

(** The text's box index, when there is one, is the last box of the
    store. *)
Definition lastBox (st : TextLoop) (b : Bucket) : Prop :=
  tlTextBoxIndex st = None
  \/ tlTextBoxIndex st = Some (len (collisionBoxArray b) - 1)%Z.

(** How many boxes a category contributes. *)
Definition boxCount (present : bool) : nat := if present then 1%nat else 0%nat.

(** The range that a symbol instance records for a category: the index of
    the category's box and that index plus one when the category is
    present, and twice the length of the store otherwise. *)
Definition recordsRange (present : bool) (index length start stop : Z) : Prop :=
  if present then start = index /\ stop = (index + 1)%Z
  else start = length /\ stop = length.


(** A computation that completes keeps a property of the bucket. *)
Definition preserves {A} (P : Bucket -> Prop) (m : M A) : Prop :=
  forall b a b', P b -> m b = Normal (a, b') -> P b'.





(** ** Sample collaborators and inputs

    Small stand-ins for the collaborators, used to run the layout on
    concrete inputs. *)

Module Sample.

(** A shaping of [text] with the given number of lines. *)
Definition shaping (text : string) (lines : nat) : Shaping :=
  mkShaping (mkShaped (-12) 12 (-30) 30 None) text
    (repeat [mkGlyph 0 0 65] lines) false.

(** Modelled from the spec: the text shaper is missing from the sources;
    given the rendered text and the layout parameters it returns a
    Shaping or a failure signal.  This one fails on the empty text and
    sets any other text on one line. *)
Definition sample_shapeText (text fontstack : string) (maxWidth : ExtNum) (lineHeight : Q)
    (textAnchor : TextAnchor) (textJustify : TextJustify) (spacing : Q)
    (textOffset : Q * Q) (writingMode : WritingMode) (allowVertical : bool)
    (layoutTextSize layoutTextSizeThisZoom : Q) : option Shaping :=
  if nonEmpty text then Some (shaping text 1) else None.

(** Modelled from the spec: the icon shaper is missing from the sources;
    it returns a PositionedIcon shape. *)
Definition sample_shapeIcon (position secondary : option Z) (iconOffset : Q * Q)
    (iconAnchor : TextAnchor) : PositionedIcon :=
  mkPositionedIcon (mkShaped (-8) 8 (-8) 8 None) (default 0%Z position).

(** Modelled from the spec: the icon fitter is missing from the sources;
    it resizes and repads the icon's shape to the text's bounding box. *)
Definition sample_fitIconToText (icon : PositionedIcon) (text : Shaping) (fit : IconTextFit)
    (padding : Q * Q * Q * Q) (iconOffset : Q * Q) (fontScale : Q) : PositionedIcon :=
  let '(p0, p1, p2, p3) := padding in
  mkPositionedIcon
    (mkShaped (top (sbox text)) (bottom (sbox text)) (left (sbox text))
       (right (sbox text)) (Some (p3, p0, p1, p2)))
    (iimage icon).

(** Whether a point lies in a rectangle, the far edges excluded. *)
Definition inside (r : ClipRegion) (p : Point) : bool :=
  Num.geb (px p) (clipX1 r) && Num.ltb (px p) (clipX2 r)
  && Num.geb (py p) (clipY1 r) && Num.ltb (py p) (clipY2 r).

(** Modelled from the spec: the line clipper is missing from the sources;
    given polylines and a rectangular clip region it returns zero or
    more clipped polylines and does not reorder points.  This one keeps
    the polylines that lie inside the region and drops the others; the
    samples have no polyline that crosses the region's boundary. *)
Definition sample_clipLine (lines : list (list Point)) (r : ClipRegion) : list (list Point) :=
  filter (fun line => forallb (inside r) line = true) lines.

(** Modelled from the spec: the anchor generators are missing from the
    sources; they walk a line and return its candidate anchors.  These
    put one anchor on every vertex, and the centre anchor on the first
    vertex. *)
Definition sample_getAnchors (line : list Point) (spacing maxAngle : Q)
    (shapedText : option Shaping) (shapedIcon : option PositionedIcon)
    (glyphSize boxScale : Q) (overscaling : Z) (tileExtent : Q) : list Anchor :=
  imap (fun i p => mkAnchor (px p) (py p) 0 0 (Some i)) line.

Definition sample_getCenterAnchor (line : list Point) (maxAngle : Q)
    (shapedText : option Shaping) (shapedIcon : option PositionedIcon)
    (glyphSize boxScale : Q) : option Anchor :=
  match line with
  | p :: _ => Some (mkAnchor (px p) (py p) 0 0 (Some 0%nat))
  | [] => None
  end.

(** Modelled from the spec: ring classification is missing from the
    sources; it groups the rings of a polygon feature into polygons, an
    outer ring with its holes.  This one takes the rings to be a single
    polygon, which is what they are in the samples. *)
Definition sample_classifyRings (rings : list (list Point)) (maxRings : Z)
    : list (list (list Point)) :=
  [rings].

(** Modelled from the spec: the pole of inaccessibility is missing from
    the sources; it is the point inside a polygon farthest from any
    edge.  This one returns the centre of the bounding box of the outer
    ring, which is the pole of the axis-aligned rectangles of the
    samples. *)
Definition sample_findPoleOfInaccessibility (polygon : list (list Point)) (precision : Q)
    : Point :=
  match polygon with
  | (p :: ring) :: _ =>
      let minX := fold_right (fun q m => Num.min (px q) m) (px p) ring in
      let maxX := fold_right (fun q m => Num.max (px q) m) (px p) ring in
      let minY := fold_right (fun q m => Num.min (py q) m) (py p) ring in
      let maxY := fold_right (fun q m => Num.max (py q) m) (py p) ring in
      mkPoint ((minX + maxX) / 2) ((minY + maxY) / 2)
  | _ => mkPoint 0 0
  end.

(** A stand-in for the hash of the rendered text. *)
Definition sample_murmur3 (text : string) : Z := Z.of_nat (String.length text).

(** A quarter turn for every angle but zero: a stand-in for the rotation
    of a point about a centre. *)
Definition sample_rotateAround (angle : Q) (center p : Point) : Point :=
  if Num.truthy angle
  then mkPoint (px center - (py p - py center)) (py center + (px p - px center))
  else p.

#[global] Instance collaborators : Collaborators := {|
  EXTENT := 8192;
  SIZE_PACK_FACTOR := 128;
  ONE_EM := 24;
  shapeText := sample_shapeText;
  shapeIcon := sample_shapeIcon;
  fitIconToText := sample_fitIconToText;
  getGlyphQuads := fun _ s _ _ _ _ => String.length (stext s);
  getIconQuads := fun _ _ _ _ _ => 1%nat;
  clipLine := sample_clipLine;
  getAnchors := sample_getAnchors;
  getCenterAnchor := sample_getCenterAnchor;
  classifyRings := sample_classifyRings;
  findPoleOfInaccessibility := sample_findPoleOfInaccessibility;
  murmur3 := sample_murmur3;
  allowsVerticalWritingMode := fun _ => false;
  allowsLetterSpacing := fun _ => true;
  getRasterizedIconSize := fun _ _ => 1;
  serializeImage := fun name _ => name;
  degToRad := fun d => d * (355 # 113) / 180;
  rotateAround := sample_rotateAround;
  projectTilePoint := fun x y => (x, y, 0);
  lineVertexCount := fun _ line => len line
|}.

(** A symbol layer with the given placement and size kinds; the text is
    rendered at [size] and nothing is rotated or offset. *)
Definition sampleLayout (placement : SymbolPlacement) (alignment : Alignment)
    (variableAnchor : option (list TextAnchor)) (size : Q) : Layout :=
  {| text_size_scale_range := (4 # 5, 2);
     icon_size_scale_range := (4 # 5, 2);
     text_rotation_alignment := alignment;
     icon_rotation_alignment := alignment;
     symbol_placement := placement;
     symbol_spacing := 250;
     text_padding := 2;
     icon_padding := 2;
     text_max_angle := 45;
     text_variable_anchor := variableAnchor;
     text_writing_mode := [];
     text_size := fun _ => size;
     icon_size := fun _ => 1;
     text_font := fun _ => ["Open Sans Regular"; "Arial Unicode MS Regular"];
     text_letter_spacing := fun _ => 0;
     text_line_height := fun _ => 6 # 5;
     text_anchor := fun _ => PlainAnchor AnchorCenter;
     text_radial_offset := fun _ => 0;
     text_offset := fun _ => (0, 0);
     text_justify := fun _ => JustifyAuto;
     text_max_width := fun _ => 10;
     text_rotate := fun _ => 0;
     icon_offset := fun _ => (0, 0);
     icon_anchor := fun _ => AnchorCenter;
     icon_rotate := fun _ => 0;
     icon_rotate_constantOr1 := 0;
     icon_text_fit := fun _ => FitNone;
     icon_text_fit_padding := fun _ => (0, 0, 0, 0);
     text_radial_offset_unset := true;
     unevaluated_text_size := fun _ _ => Some size;
     unevaluated_icon_size := fun _ _ => Some 1 |}.

Definition sampleConfig (lay : Layout) (sizeKind : SizeData)
    (features : list SymbolFeature) : BucketConfig :=
  {| overscaling := 1;
     zoom := 14;
     bucketIndex := 0;
     bucketPixelRatio := 1;
     allowVerticalPlacement := false;
     layerId := "poi-label";
     textSizeData := sizeKind;
     iconSizeData := SizeConstant;
     features := features;
     layout := lay |}.

Definition sampleTile : Tile :=
  {| imageMap := fun _ => None;
     imagePositions := fun _ => None;
     showCollisionBoxes := false;
     tileZoom := 14;
     projectionIsGlobe := false;
     tileScaleFactor := 1;
     tilePixelRatioArg := 1 |}.

Definition textFeature (type : FeatureType) (geometry : list (list Point))
    (text : string) : SymbolFeature :=
  mkFeature type geometry (Some text) None 0 0 None.

End Sample.

(** * Further properties: vocabulary *)

(** The anchor on the other side of the vertical axis: left and right
    change places. *)
Definition mirrorLeftRight (a : TextAnchor) : TextAnchor :=
  match a with
  | AnchorLeft => AnchorRight
  | AnchorRight => AnchorLeft
  | AnchorTopLeft => AnchorTopRight
  | AnchorTopRight => AnchorTopLeft
  | AnchorBottomLeft => AnchorBottomRight
  | AnchorBottomRight => AnchorBottomLeft
  | AnchorCenter => AnchorCenter
  | AnchorTop => AnchorTop
  | AnchorBottom => AnchorBottom
  end.

(** The anchor on the other side of the horizontal axis: top and bottom
    change places. *)
Definition mirrorTopBottom (a : TextAnchor) : TextAnchor :=
  match a with
  | AnchorTop => AnchorBottom
  | AnchorBottom => AnchorTop
  | AnchorTopLeft => AnchorBottomLeft
  | AnchorBottomLeft => AnchorTopLeft
  | AnchorTopRight => AnchorBottomRight
  | AnchorBottomRight => AnchorTopRight
  | AnchorCenter => AnchorCenter
  | AnchorLeft => AnchorLeft
  | AnchorRight => AnchorRight
  end.








(** The vertices of a line that a placement by vertex puts a symbol on,
    as segments of the line.  A placement that asks for more vertices
    than the line has falls back on the first vertex, and so does every
    value that is not a placement by vertex. *)
Definition placedVertices (placement : SymbolPlacement) (line : list Point) : list Point :=
  let l := length line in
  match placement with
  | PlaceVertex => line
  | PlaceLastVertex => if (1 <? l)%nat then drop (l - 1) line else take 1 line
  | PlaceFirstLastVertex =>
      take 1 line ++ (if (1 <? l)%nat then drop (l - 1) line else [])
  | PlaceExceptFirstVertex => if (1 <? l)%nat then drop 1 line else take 1 line
  | PlaceExceptLastVertex => if (1 <? l)%nat then take (l - 1) line else take 1 line
  | PlaceMiddleVertex => if (2 <? l)%nat then take (l - 2) (drop 1 line) else take 1 line
  | _ => take 1 line
  end.

(** The placement asks for a vertex that a line of [l] vertices does not
    have: a last vertex besides the first one, or a vertex between the
    first and the last. *)
Definition asksForMoreVertices (placement : SymbolPlacement) (l : nat) : bool :=
  match placement with
  | PlaceLastVertex | PlaceFirstLastVertex | PlaceExceptFirstVertex
  | PlaceExceptLastVertex => (l <=? 1)%nat
  | PlaceMiddleVertex => (l <=? 2)%nat
  | _ => false
  end.

Definition anchorCoordinates (a : Anchor) : Q * Q := (ax a, ay a).

(** The centre anchors of the lines of a geometry that have more than one
    point, for one choice of the arguments that [getCenterAnchor] takes
    besides the line. *)
Definition centerAnchors `{Collaborators} (maxAngle : Q) (shapedText : option Shaping)
    (shapedIcon : option PositionedIcon) (glyphSize boxScale : Q)
    (lines : list (list Point)) : list Anchor :=
  omap (fun line =>
          if (1 <? length line)%nat
          then getCenterAnchor line maxAngle shapedText shapedIcon glyphSize boxScale
          else None)
       lines.

(** ** Further sample inputs *)

Module SampleInputs.

(** The arguments that [addFeature] hands to [addSymbol] for a feature
    whose text is neither padded nor offset and that has no icon. *)
Definition sampleArgs (cfg : BucketConfig) (feature : SymbolFeature) : SymbolArgs :=
  {| saTextPadding := 2;
     saTextAlongLine := false;
     saTextOffset := (0, 0);
     saIconBoxScale := 1;
     saIconPadding := 2;
     saIconAlongLine := false;
     saIconOffset := (0, 0);
     saFeature := feature;
     saSizes := layoutSizes cfg Sample.sampleTile;
     saIsSDFIcon := false;
     saIsUSVGIcon := false;
     saHasAnySecondaryIcon := false |}.

(** A street of three vertices, the last one beyond the tile's edge. *)
Definition street : list Point := [mkPoint 10 10; mkPoint 4000 10; mkPoint 9000 10].

(** The shapings of a text set on one line and centred. *)
Definition centred (text : string) : HorizontalShapings * option Shaping :=
  ([("center", Some (Sample.shaping text 1))], None).

End SampleInputs.

(** ** Indices that a symbol instance records *)

(** The four ranges of collision boxes of a symbol instance are ranges of
    a store of [L] boxes: each starts at a row or at the end of the store,
    and ends where it starts or one row further. *)
Definition rangeWithin (L start stop : Z) : Prop :=
  (0 <= start)%Z /\ (start <= stop)%Z /\ (stop <= start + 1)%Z /\ (stop <= L)%Z.

Definition boxRangesWithin (L : Z) (inst : SymbolInstance) : Prop :=
  rangeWithin L (textBoxStartIndex inst) (textBoxEndIndex inst)
  /\ rangeWithin L (verticalTextBoxStartIndex inst) (verticalTextBoxEndIndex inst)
  /\ rangeWithin L (iconBoxStartIndex inst) (iconBoxEndIndex inst)
  /\ rangeWithin L (verticalIconBoxStartIndex inst) (verticalIconBoxEndIndex inst).

(** An index into an array of [L] placed symbols, or [-1] for none. *)
Definition placedWithin (L index : Z) : Prop := (-1 <= index < L)%Z.

(** The placed symbols that a symbol instance refers to are rows of the
    bucket's arrays of [texts] placed text symbols and of [icons] placed
    icon symbols. *)
Definition placedSymbolsWithin (texts icons : Z) (inst : SymbolInstance) : Prop :=
  placedWithin texts (rightJustifiedTextSymbolIndex inst)
  /\ placedWithin texts (centerJustifiedTextSymbolIndex inst)
  /\ placedWithin texts (leftJustifiedTextSymbolIndex inst)
  /\ placedWithin texts (verticalPlacedTextSymbolIndex inst)
  /\ placedWithin icons (placedIconSymbolIndex inst)
  /\ placedWithin icons (verticalPlacedIconSymbolIndex inst).

(** Every index that the symbol instances of the bucket record is an
    index into the bucket's stores as they are. *)
Definition indicesInBounds (b : Bucket) : Prop :=
  Forall (fun inst =>
            boxRangesWithin (len (collisionBoxArray b)) inst
            /\ placedSymbolsWithin (len (textPlacedSymbolArray b))
                 (len (iconPlacedSymbolArray b)) inst)
         (symbolInstances b).

(** The second bucket has the symbol instances of the first, and its
    collision boxes and placed symbols followed by new ones. *)
Definition extends (b b' : Bucket) : Prop :=
  symbolInstances b' = symbolInstances b
  /\ (exists boxes, collisionBoxArray b' = collisionBoxArray b ++ boxes)
  /\ (exists rows, textPlacedSymbolArray b' = textPlacedSymbolArray b ++ rows)
  /\ (exists rows, iconPlacedSymbolArray b' = iconPlacedSymbolArray b ++ rows).

(** A box index, when there is one, is a row of the bucket's store. *)
Definition boxIndexWithin (b : Bucket) (index : option Z) : Prop :=
  match index with
  | Some i => (0 <= i < len (collisionBoxArray b))%Z
  | None => True
  end.

(** The placed text symbols of an object of indices are rows of the
    bucket's array. *)
Definition placedTextsWithin (b : Bucket) (indices : gmap string Z) : Prop :=
  map_Forall (fun _ i => (0 <= i < len (textPlacedSymbolArray b))%Z) indices.

(** * Interpolate expressions

    The class [Interpolate] and the function [exponentialInterpolation]
    that the file holds after the symbol layout.  Numbers are rationals;
    JSON values, as the style hands them to [parse] and as [serialize]
    returns them, are a data type of their own.  What the class imports
    (the sub-expressions with their parser, evaluator and serializer, the
    stop search, the interpolation of two values, the colour spaces, the
    unit Bezier curve) and [Math.pow] are the fields of two interfaces. *)

Module Interpolate.

(** A JSON value; an object is not looked into. *)
#[warnings="-register-all"]
Inductive JsValue :=
| JNull
| JBoolean (b : bool)
| JNumber (n : Q)
| JString (s : string)
| JArray (items : list JsValue)
| JObject.

(** The types of the expression language, by their [kind]. *)
Inductive ExprType :=
| NullType | NumberType | StringType | BooleanType | ColorType | ObjectType | ValueType
| ErrorType | CollatorType | FormattedType | ResolvedImageType
| ArrayType (itemType : ExprType) (N : option nat).

(** [InterpolationType]. *)
Inductive InterpolationType :=
| Linear
| Exponential (base : Q)
| CubicBezier (c0 c1 c2 c3 : Q).

(** A completed evaluation, a [RuntimeError] with its message, or a
    [TypeError]. *)
Inductive Evaluated (A : Type) :=
| Returns (a : A)
| RuntimeError (message : string)
| TypeError.
Arguments Returns {A} a.
Arguments RuntimeError {A} message.
Arguments TypeError {A}.

Definition andThen {A B} (m : Evaluated A) (k : A -> Evaluated B) : Evaluated B :=
  match m with
  | Returns a => k a
  | RuntimeError message => RuntimeError message
  | TypeError => TypeError
  end.

(** What the class takes from the expression language and from its
    libraries. *)
Class ExpressionLibrary := {
  Expression : Type;
  EvaluationContext : Type;
  Value : Type;
  (** [Math.pow(base, exponent)] *)
  pow : Q -> Q -> Q;
  (** [new UnitBezier(c0, c1, c2, c3).solve(x)] *)
  unitBezierSolve : Q -> Q -> Q -> Q -> Q -> Q;
  (** [findStopLessThanOrEqualTo(labels, value)] of stops *)
  findStopLessThanOrEqualTo : list Q -> Q -> nat;
  (** [expression.type] *)
  typeOf : Expression -> ExprType;
  (** [expression.evaluate(ctx)] *)
  evaluateExpression : Expression -> EvaluationContext -> Evaluated Value;
  (** [expression.serialize()] *)
  serializeExpression : Expression -> JsValue;
  (** [input.evaluate(ctx) as number]: the number that the value of an
      expression of type number is *)
  numberOf : Value -> Q;
  (** [dynamicStops.evaluate(ctx) as [number]]: the array that the value
      of the stops expression is *)
  arrayOf : Value -> list JsValue;
  (** [new Literal(NumberType, value).evaluate(ctx)] *)
  literal : JsValue -> Value;
  (** [interpolate[type.kind.toLowerCase()]] of util/interpolate, which
      has no member for most kinds *)
  interpolateKind : ExprType -> option (Value -> Value -> Q -> Value);
  (** [hcl.reverse(hcl.interpolate(hcl.forward(a), hcl.forward(b), t))] *)
  interpolateHcl : Value -> Value -> Q -> Value;
  (** the same in the colour space lab *)
  interpolateLab : Value -> Value -> Q -> Value
}.

(** The [ParsingContext] that [parse] is given. *)
Class ParsingContext `{ExpressionLibrary} := {
  (** [context.expectedType] *)
  expectedType : option ExprType;
  (** [context.parse(expr, index, expectedType)]: [null] when the
      sub-expression does not parse; [expr] may be [undefined] *)
  contextParse : option JsValue -> Z -> option ExprType -> option Expression
}.

Section Class.

Context `{L : ExpressionLibrary}.

(** [exponentialInterpolation(input, base, lowerValue, upperValue)]: a
    ratio that can be used to interpolate between exponential function
    stops. *)
Definition exponentialInterpolation (input base lowerValue upperValue : Q) : Q :=
  let difference := upperValue - lowerValue in
  let progress := input - lowerValue in
  if Qeq_bool difference 0 then 0
  else if Qeq_bool base 1 then progress / difference
  else (pow base progress - 1) / (pow base difference - 1).

(** [Interpolate.interpolationFactor(interpolation, input, lower, upper)]. *)
Definition interpolationFactor (interpolation : InterpolationType) (input lower upper : Q)
    : Q :=
  match interpolation with
  | Exponential base => exponentialInterpolation input base lower upper
  | Linear => exponentialInterpolation input 1 lower upper
  | CubicBezier c0 c1 c2 c3 =>
      unitBezierSolve c0 c1 c2 c3 (exponentialInterpolation input 1 lower upper)
  end.

(** An instance of the class.  The constructor splits its [stops] into
    [labels] and [outputs], which nothing writes afterwards; the instance
    keeps the stops here.  [type] is [null] where [parse] found no
    output type, and [operator] is the first element of the arguments as
    it came. *)
Record t := make {
  type : option ExprType;
  operator : option JsValue;
  interpolation : InterpolationType;
  input : Expression;
  dynamicStops : option Expression;
  stops : list (Q * Expression)
}.

Definition labels (self : t) : list Q := map fst (stops self).
Definition outputs (self : t) : list Expression := map snd (stops self).

(** The errors that [parse] reports through [context.error], by their
    messages:
    - [ExpectedInterpolationType]: Expected an interpolation type
      expression.
    - [NumericBaseRequired]: Exponential interpolation requires a numeric
      base.
    - [BezierArgumentsRequired]: Cubic bezier interpolation requires four
      numeric arguments with values between 0 and 1.
    - [UnknownInterpolationType name]: Unknown interpolation type [name]
    - [TooFewArguments n]: Expected at least 3 arguments, but found only
      [n].
    - [OddArguments]: Expected an even number of arguments.
    - [LabelNotNumeric]: Input/output pairs for "interpolate" expressions
      must be defined using literal numeric values (not computed
      expressions) for the input values.
    - [LabelsNotAscending]: Input/output pairs for "interpolate"
      expressions must be arranged with input values in strictly
      ascending order.
    - [NotInterpolatable type]: Type [type] is not interpolatable. *)
Inductive ParseError :=
| ExpectedInterpolationType
| NumericBaseRequired
| BezierArgumentsRequired
| UnknownInterpolationType (name : JsValue)
| TooFewArguments (found : Z)
| OddArguments
| LabelNotNumeric
| LabelsNotAscending
| NotInterpolatable (type : ExprType).

(** What [parse] returns: an instance, [undefined] after
    [context.error(message, ...keys)], or [null] when a sub-expression
    did not parse; reading [outputType.kind] of a [null] type throws. *)
Inductive ParseResult :=
| Parsed (self : t)
| Undefined (error : ParseError) (keys : list Z)
| Null
| ParseTypeError.

(** [value === name] for a string [name]. *)
Definition isString (value : JsValue) (name : string) : bool :=
  match value with
  | JString s => String.eqb s name
  | _ => false
  end.

(** [typeof t !== 'number' || t < 0 || t > 1]. *)
Definition notInUnitInterval (t : JsValue) : bool :=
  match t with
  | JNumber n => Num.ltb n 0 || Num.gtb n 1
  | _ => true
  end.

(** The first block of [parse]: the interpolation type of the second
    argument. *)
Definition parseInterpolationType (interpolation : option JsValue)
    : ParseResult + InterpolationType :=
  match interpolation with
  | Some (JArray (name :: rest)) =>
      if isString name "linear" then inr Linear
      else if isString name "exponential" then
        match rest with
        | JNumber base :: _ => inr (Exponential base)
        | _ => inl (Undefined NumericBaseRequired [1; 1]%Z)
        end
      else if isString name "cubic-bezier" then
        let controlPoints := rest in
        if negb (length controlPoints =? 4)%nat || existsb notInUnitInterval controlPoints
        then inl (Undefined BezierArgumentsRequired [1]%Z)
        else
          match controlPoints with
          | [JNumber c0; JNumber c1; JNumber c2; JNumber c3] => inr (CubicBezier c0 c1 c2 c3)
          | _ => inl (Undefined BezierArgumentsRequired [1]%Z)
          end
      else inl (Undefined (UnknownInterpolationType name) [1; 0]%Z)
  | _ => inl (Undefined ExpectedInterpolationType [1]%Z)
  end.

(** [outputType.kind !== 'number' && outputType.kind !== 'color' &&
    !(outputType.kind === 'array' && outputType.itemType.kind ===
    'number' && typeof outputType.N === 'number')], negated. *)
Definition interpolatable (outputType : ExprType) : bool :=
  match outputType with
  | NumberType | ColorType => true
  | ArrayType NumberType (Some _) => true
  | _ => false
  end.

(** [stops[stops.length - 1][0] >= label] for stops that are not empty. *)
Definition lastLabelReaches {A} (stops : list (Q * A)) (label : Q) : bool :=
  match last (map fst stops) with
  | Some l => Num.geb l label
  | None => false
  end.

Section Parse.

Context `{P : !ParsingContext}.

(** The loop of [parse] over the input/output pairs: [rest] from its
    element [i] on, with the stops and the output type found so far.
    [rest[i + 1]] is [undefined] where [rest] ends after a label. *)
Fixpoint parseStops (rest : list JsValue) (i : Z) (outputType : option ExprType)
    (stops : list (Q * Expression)) : ParseResult + (option ExprType * list (Q * Expression)) :=
  match rest with
  | [] => inr (outputType, stops)
  | label :: rest1 =>
      let value := head rest1 in
      let rest2 :=
        match rest1 with
        | _ :: rest2 => rest2
        | [] => rest1
        end in
      let labelKey := (i + 3)%Z in
      let valueKey := (i + 4)%Z in
      match label with
      | JNumber label =>
          if lastLabelReaches stops label then inl (Undefined LabelsNotAscending [labelKey])
          else
            match contextParse value valueKey outputType with
            | None => inl Null
            | Some parsed =>
                let outputType :=
                  match outputType with
                  | Some ty => Some ty
                  | None => Some (typeOf parsed)
                  end in
                parseStops rest2 (i + 2) outputType (stops ++ [(label, parsed)])
            end
      | _ => inl (Undefined LabelNotNumeric [labelKey])
      end
  end.

(** [operator === 'interpolate-hcl' || operator === 'interpolate-lab']. *)
Definition isColorOperator (operator : option JsValue) : bool :=
  match operator with
  | Some op => isString op "interpolate-hcl" || isString op "interpolate-lab"
  | None => false
  end.

(** [context.expectedType && context.expectedType.kind !== 'value']. *)
Definition expectedOutputType : option ExprType :=
  match expectedType with
  | Some ValueType => None
  | other => other
  end.

(** [Interpolate.parse(args, context)]. *)
Definition parse (args : list JsValue) : ParseResult :=
  let operator := args !! 0%nat in
  let interpolation := args !! 1%nat in
  let input := args !! 2%nat in
  let rest := drop 3 args in
  match parseInterpolationType interpolation with
  | inl failure => failure
  | inr interpolation =>
      if (len args - 1 <? 3)%Z then Undefined (TooFewArguments (len args - 1)) []
      else if (3 <? len args - 1)%Z && negb (Z.rem (len args - 1) 2 =? 0)%Z
      then Undefined OddArguments []
      else
        match contextParse input 2 (Some NumberType) with
        | None => Null
        | Some input =>
            let outputType :=
              if isColorOperator operator then Some ColorType else expectedOutputType in
            (* Exactly 3 arguments means that the steps are created by an
               expression *)
            if (len args - 1 =? 3)%Z then
              match contextParse (rest !! 0%nat) 3 (Some ValueType) with
              | None => Null
              | Some dynamicStops =>
                  Parsed (make outputType operator interpolation input (Some dynamicStops) [])
              end
            else
              match parseStops rest 0 outputType [] with
              | inl failure => failure
              | inr (outputType, stops) =>
                  match outputType with
                  | None => ParseTypeError
                  | Some ty =>
                      if interpolatable ty
                      then Parsed (make outputType operator interpolation input None stops)
                      else Undefined (NotInterpolatable ty) []
                  end
              end
        end
  end.

End Parse.

(** An output of the stops that [evaluate] works with: an expression of
    the instance, or the literal of a dynamic stop. *)
Inductive Output :=
| OutputExpression (e : Expression)
| OutputLiteral (value : JsValue).

Definition evaluateOutput (output : Output) (ctx : EvaluationContext) : Evaluated Value :=
  match output with
  | OutputExpression e => evaluateExpression e ctx
  | OutputLiteral value => Returns (literal value)
  end.

Definition notEvenMessage : string := "Expected an even number of arguments.".
Definition notNumericMessage : string :=
  "Input/output pairs for " ++ dq ++ "interpolate" ++ dq
  ++ " expressions must be defined using literal numeric values (not computed expressions) for the input values.".
Definition notAscendingMessage : string :=
  "Input/output pairs for " ++ dq ++ "interpolate" ++ dq
  ++ " expressions must be arranged with input values in strictly ascending order.".
Definition noPairMessage : string := "Expected at least one input/output pair.".

(** The loop of [evaluate] over the value of the stops expression, two
    elements at a time. *)
Fixpoint dynamicStopsLoop (value : list JsValue) (stops : list (Q * Output))
    : Evaluated (list (Q * Output)) :=
  match value with
  | label :: output :: rest =>
      match label with
      | JNumber label =>
          if lastLabelReaches stops label then RuntimeError notAscendingMessage
          else dynamicStopsLoop rest (stops ++ [(label, OutputLiteral output)])
      | _ => RuntimeError notNumericMessage
      end
  | _ => Returns stops
  end.

(** The block [if (this.dynamicStops) { ... }] of [evaluate] on the value
    of the stops expression. *)
Definition dynamicStopsOf (value : list JsValue) : Evaluated (list (Q * Output)) :=
  if negb (Nat.even (length value)) then RuntimeError notEvenMessage
  else
    andThen (dynamicStopsLoop value [])
      (fun stops =>
         match stops with
         | [] => RuntimeError noPairMessage
         | _ => Returns stops
         end).

(** [this.operator === name]. *)
Definition operatorIs (self : t) (name : string) : bool :=
  match operator self with
  | Some op => isString op name
  | None => false
  end.

(** [evaluate(ctx)] from [if (labels.length === 1)] on, with the labels
    and outputs that it works with.  Without a stop, [outputs[index]] is
    [undefined]. *)
Definition evaluateStops (self : t) (ctx : EvaluationContext) (stops : list (Q * Output))
    : Evaluated Value :=
  if (length stops =? 1)%nat then
    match stops !! 0%nat with
    | Some (_, output) => evaluateOutput output ctx
    | None => TypeError
    end
  else
    andThen (evaluateExpression (input self) ctx)
      (fun value =>
         let value := numberOf value in
         match stops !! 0%nat, last stops with
         | Some (firstLabel, firstOutput), Some (lastLabel, lastOutput) =>
             if Num.geb firstLabel value then evaluateOutput firstOutput ctx
             else if Num.geb value lastLabel then evaluateOutput lastOutput ctx
             else
               let index := findStopLessThanOrEqualTo (map fst stops) value in
               match stops !! index with
               | None => TypeError
               | Some (lower, lowerOutput) =>
                   match stops !! S index with
                   | None => andThen (evaluateOutput lowerOutput ctx) (fun _ => TypeError)
                   | Some (upper, upperOutput) =>
                       let t := interpolationFactor (interpolation self) value lower upper in
                       andThen (evaluateOutput lowerOutput ctx)
                         (fun outputLower =>
                            andThen (evaluateOutput upperOutput ctx)
                              (fun outputUpper =>
                                 if operatorIs self "interpolate" then
                                   match type self with
                                   | None => TypeError
                                   | Some ty =>
                                       match interpolateKind ty with
                                       | None => TypeError
                                       | Some interpolate =>
                                           Returns (interpolate outputLower outputUpper t)
                                       end
                                   end
                                 else if operatorIs self "interpolate-hcl" then
                                   Returns (interpolateHcl outputLower outputUpper t)
                                 else Returns (interpolateLab outputLower outputUpper t)))
                   end
               end
         | _, _ => TypeError
         end).

(** [evaluate(ctx)]. *)
Definition evaluate (self : t) (ctx : EvaluationContext) : Evaluated Value :=
  andThen
    match dynamicStops self with
    | Some stopsExpression =>
        andThen (evaluateExpression stopsExpression ctx)
          (fun dynamicStopsValue => dynamicStopsOf (arrayOf dynamicStopsValue))
    | None => Returns (map (fun stop => (fst stop, OutputExpression (snd stop))) (stops self))
    end
    (evaluateStops self ctx).

(** [eachChild(fn)]: the expressions that [fn] is called with, in order. *)
Definition eachChild (self : t) : list Expression := input self :: outputs self.

(** The first block of [serialize]: the interpolation type. *)
Definition serializeInterpolationType (interpolation : InterpolationType) : JsValue :=
  match interpolation with
  | Linear => JArray [JString "linear"]
  | Exponential base =>
      if Qeq_bool base 1 then JArray [JString "linear"]
      else JArray [JString "exponential"; JNumber base]
  | CubicBezier c0 c1 c2 c3 =>
      JArray [JString "cubic-bezier"; JNumber c0; JNumber c1; JNumber c2; JNumber c3]
  end.

(** [serialize()]; the array starts with [this.operator], which is
    [undefined] for an instance made without one. *)
Definition serialize (self : t) : list (option JsValue) :=
  [operator self;
   Some (serializeInterpolationType (interpolation self));
   Some (serializeExpression (input self))]
  ++ match dynamicStops self with
     | Some stopsExpression => [Some (serializeExpression stopsExpression)]
     | None =>
         flat_map (fun stop => [Some (JNumber (fst stop));
                                Some (serializeExpression (snd stop))])
           (stops self)
     end.

End Class.

End Interpolate.

(** ** Sample expressions

    A small expression language to run the class on concrete inputs:
    literals and the zoom of the evaluation context.  The library
    functions are stand-ins that agree with the real ones where the
    samples use them: [pow] on whole exponents, a Bezier curve along the
    diagonal, the stop search by a scan from the left, the interpolation
    of two numbers. *)

Module SampleExpressions.

Import Interpolate.

Inductive Expr :=
| Literal (value : JsValue)
| Zoom.

Definition sample_typeOf (e : Expr) : ExprType :=
  match e with
  | Literal (JNumber _) => NumberType
  | Literal (JString _) => StringType
  | Literal (JBoolean _) => BooleanType
  | Literal JNull => NullType
  | Literal (JArray _) => ArrayType ValueType None
  | Literal JObject => ObjectType
  | Zoom => NumberType
  end.

Definition sample_serialize (e : Expr) : JsValue :=
  match e with
  | Literal (JArray items) => JArray [JString "literal"; JArray items]
  | Literal JObject => JArray [JString "literal"; JObject]
  | Literal value => value
  | Zoom => JArray [JString "zoom"]
  end.

Definition sample_parse (expr : option JsValue) (index : Z) (expected : option ExprType)
    : option Expr :=
  match expr with
  | Some (JArray [JString "zoom"]) => Some Zoom
  | Some (JArray [JString "literal"; value]) => Some (Literal value)
  | Some (JArray _) | Some JObject | None => None
  | Some value => Some (Literal value)
  end.

Definition sample_number (value : JsValue) : Q :=
  match value with
  | JNumber n => n
  | _ => 0
  end.

Definition sample_array (value : JsValue) : list JsValue :=
  match value with
  | JArray items => items
  | _ => []
  end.

(** The index of the last label that is not above [value], [0] when
    there is none. *)
Fixpoint sample_findStop (labels : list Q) (value : Q) : nat :=
  match labels with
  | _ :: ((next :: _) as rest) =>
      if Num.geb value next then S (sample_findStop rest value) else 0%nat
  | _ => 0%nat
  end.

(** [interpolate.number(a, b, t)]: [a * (1 - t) + b * t]. *)
Definition sample_interpolateNumber (a b : JsValue) (t : Q) : JsValue :=
  JNumber (sample_number a * (1 - t) + sample_number b * t).

#[global] Instance library : ExpressionLibrary := {
  Expression := Expr;
  EvaluationContext := Q;
  Value := JsValue;
  pow := fun base exponent => Qpower base (Qnum exponent / Z.pos (Qden exponent))%Z;
  unitBezierSolve := fun _ _ _ _ x => x;
  findStopLessThanOrEqualTo := sample_findStop;
  typeOf := sample_typeOf;
  evaluateExpression := fun e zoom =>
    match e with
    | Literal value => Returns value
    | Zoom => Returns (JNumber zoom)
    end;
  serializeExpression := sample_serialize;
  numberOf := sample_number;
  arrayOf := sample_array;
  literal := fun value => value;
  interpolateKind := fun type =>
    match type with
    | NumberType => Some sample_interpolateNumber
    | _ => None
    end;
  interpolateHcl := sample_interpolateNumber;
  interpolateLab := sample_interpolateNumber
}.

(** A parsing context that expects [expected]. *)
Definition context (expected : option ExprType) : ParsingContext := {|
  expectedType := expected;
  contextParse := sample_parse
|}.

End SampleExpressions.

(** ** Vocabulary for the stops of a stops expression *)

Section DynamicStops.

Import Interpolate.
Context `{L : ExpressionLibrary}.

(** The array that holds the given pairs of a label and an output, one
    after the other. *)
Definition flatPairs (pairs : list (Q * JsValue)) : list JsValue :=
  flat_map (fun pair => [JNumber (fst pair); snd pair]) pairs.

(** The stops with the given labels whose outputs are the literals of
    the given values. *)
Definition literalStops (pairs : list (Q * JsValue)) : list (Q * Output) :=
  map (fun pair => (fst pair, OutputLiteral (snd pair))) pairs.

End DynamicStops.

(** * Raster tile worker source

    The class [RasterTileWorkerSource], of which the file holds two copies
    one after the other.  The copies differ in [getCoverTiles] and in
    [limitedStorage] and agree on [abortTile] and [removeTile].  Tile
    coordinates, zoom levels and the components of a direction are whole
    numbers; pixels are rationals. *)

(** [delete o[k]]. *)
Definition obj_delete {V} (k : string) (o : JsObject V) : JsObject V :=
  List.filter (fun binding => negb (String.eqb k (fst binding))) o.

(** [keys.forEach(k => delete o[k])], also as the loop [for (...) delete
    o[keys[i]]]. *)
Definition obj_delete_all {V} (keys : list string) (o : JsObject V) : JsObject V :=
  fold_left (fun o k => obj_delete k o) keys o.

Module RasterTileWorkerSource.

(** [CanonicalTileID]: what the class reads of it. *)
Record CanonicalTileID := mkTileID {
  tileZ : Z;
  tileX : Z;
  tileY : Z;
  key : string
}.

(** An element of [coverTiles]: [{x, y, z, dx, dy}]. *)
Record CoverTile := mkCoverTile {
  coverX : Z;
  coverY : Z;
  coverZ : Z;
  dx : Z;
  dy : Z
}.

(** The geometry that [getCoverTiles] imports. *)
Class TileProjection := {
  LngLat : Type;
  LngLatBounds : Type;
  (** [getTileBounds(x, y, z)] *)
  getTileBounds : Z -> Z -> Z -> LngLatBounds;
  (** [tile.toLngLatBounds()] *)
  toLngLatBounds : CanonicalTileID -> LngLatBounds;
  (** [bound.getNorthWest()], [bound.getSouthEast()] *)
  getNorthWest : LngLatBounds -> LngLat;
  getSouthEast : LngLatBounds -> LngLat;
  (** [transformLngLat(coords, from, to)] *)
  transformLngLat : LngLat -> string -> string -> LngLat;
  (** [getTileSystem(projection).direction], as [(x, y)] *)
  direction : string -> Z * Z;
  (** [lngLatToPixel(coords, z)] and [lngLatToPixel(coords, z, projection)],
      as [(x, y)] *)
  lngLatToPixel : LngLat -> Z -> option string -> Q * Q;
  (** [lngLatToTileFromZ(coords, z, projection)], as [(x, y)] *)
  lngLatToTileFromZ : LngLat -> Z -> string -> Z * Z
}.

(** A [Cancelable], by a number that tells it from the others. *)
Definition Cancelable := nat.

(** [LoadingTile]; [subTiles] and [request] can be missing. *)
Record LoadingTile := mkLoadingTile {
  status : string;
  subTiles : option (list string);
  request : option Cancelable
}.

Definition set_status (v : string) (l : LoadingTile) : LoadingTile :=
  mkLoadingTile v (subTiles l) (request l).

Section State.

Context {Image : Type}.

(** An instance of the class.  The loading tiles are objects that the
    code also holds outside of [this.loading], so they live in [objects]
    and [this.loading] holds their places there.  [this.subLoading] has
    its bindings in the order of [Object.keys].  [cancelled] records the
    calls of [cancel()] in order. *)
Record t := make {
  objects : list LoadingTile;
  loading : JsObject nat;
  subLoading : JsObject Image;
  cancelled : list Cancelable
}.

Definition set_objects (v : list LoadingTile) (self : t) : t :=
  make v (loading self) (subLoading self) (cancelled self).
Definition set_loading (v : JsObject nat) (self : t) : t :=
  make (objects self) v (subLoading self) (cancelled self).
Definition set_subLoading (v : JsObject Image) (self : t) : t :=
  make (objects self) (loading self) v (cancelled self).
Definition set_cancelled (v : list Cancelable) (self : t) : t :=
  make (objects self) (loading self) (subLoading self) v.

(** [this.loading[key]] as the object that it refers to; a place always
    holds an object. *)
Definition loadingTile (key : string) (self : t) : option (nat * LoadingTile) :=
  match obj_get key (loading self) with
  | Some place =>
      match objects self !! place with
      | Some tile => Some (place, tile)
      | None => None
      end
  | None => None
  end.

(** [abortTile(params)] with [params.tileID.key]. *)
Definition abortTile (key : string) (self : t) : t :=
  match loadingTile key self with
  | Some (place, tile) =>
      let self := set_objects (<[place := set_status "unloaded" tile]> (objects self)) self in
      let self :=
        match request tile with
        | Some request => set_cancelled (cancelled self ++ [request]) self
        | None => self
        end in
      set_loading (obj_delete key (loading self)) self
  | None => self
  end.

(** [removeTile(params)] with [params.tileID.key]. *)
Definition removeTile (key : string) (self : t) : t :=
  let loading := loadingTile key self in
  let self := abortTile key self in
  match loading with
  | Some (_, tile) =>
      match subTiles tile with
      | Some tiles => set_subLoading (obj_delete_all tiles (subLoading self)) self
      | None => self
      end
  | None => self
  end.

(** The keys with the indices [first <= i < last] of [keys]. *)
Definition keysBetween (first last : nat) (keys : list string) : list string :=
  drop first (take last keys).

End State.

(** The grid of cover tiles that the two nested loops push: for each [x]
    of [xs] in order, for each [y] of [ys] in order. *)
Definition coverGrid (xs ys : list Z) (tile : Z -> Z -> CoverTile) : list CoverTile :=
  flat_map (fun x => map (fun y => tile x y) ys) xs.

(** The first copy of the class. *)
Module Copy1.

Section Copy.

Context `{G : TileProjection} {Image : Type}.

(** What [getCoverTiles] passes to its callback beside the error [null]. *)
Record Cover := mkCover {
  coverTiles : list CoverTile;
  offset : Q * Q
}.

(** [getCoverTiles(params, callback)]: the second argument of the one
    call of [callback], [None] for [null]. *)
Definition getCoverTiles (projection : string) (tile : CanonicalTileID) : option Cover :=
  let bound := getTileBounds (tileX tile) (tileY tile) (tileZ tile) in
  let trNorthwestCoords := transformLngLat (getNorthWest bound) "WGS84" projection in
  let direction := direction projection in
  let trPixel := lngLatToPixel trNorthwestCoords (tileZ tile) None in
  let offset := (fst trPixel, snd trPixel * inject_Z (snd direction)) in
  if Num.truthy (fst offset) && Num.truthy (snd offset) then
    let trSoutheastCoords := transformLngLat (getSouthEast bound) "WGS84" projection in
    let northwestTile := lngLatToTileFromZ trNorthwestCoords (tileZ tile) projection in
    let southeastTile := lngLatToTileFromZ trSoutheastCoords (tileZ tile) projection in
    let xMin := Z.min (fst northwestTile) (fst southeastTile) in
    let xMax := Z.max (fst northwestTile) (fst southeastTile) in
    let yMin := Z.min (snd northwestTile) (snd southeastTile) in
    let yMax := Z.max (snd northwestTile) (snd southeastTile) in
    Some (mkCover
            (coverGrid (seqZ xMin (xMax - xMin + 1)) (seqZ yMin (yMax - yMin + 1))
               (fun x y =>
                  mkCoverTile x y (tileZ tile) (x - xMin) ((y - yMin) * snd direction)))
            offset)
  else None.

(** [limitedStorage()]. *)
Definition limitedStorage (self : t (Image := Image)) : t :=
  let keys := obj_keys (subLoading self) in
  if (200 <? len keys)%Z then
    set_subLoading
      (obj_delete_all (keysBetween 8 (length keys - 8) keys) (subLoading self)) self
  else self.

End Copy.

End Copy1.

(** The second copy of the class. *)
Module Copy2.

Section Copy.

Context `{G : TileProjection} {Image : Type}.

(** What [getCoverTiles] passes to its callback beside the error [null]. *)
Record Cover := mkCover {
  coverTiles : list CoverTile;
  ltPixel : Q * Q;
  rbPixel : Q * Q
}.

(** [1 << z]. *)
Definition worldSizeOf (z : Z) : Z := toInt32 (Z.shiftl 1 (Z.land z 31)).

(** The width of the tile range in [getCoverTiles]: [xMax - xMin], and
    across the meridian [worldSize - xMin + xMax]. *)
Definition xRangeOf (worldSize xMin xMax : Z) : Z :=
  if (xMax <? xMin)%Z then (worldSize - xMin + xMax)%Z else (xMax - xMin)%Z.

(** The two loops of [getCoverTiles]. *)
Definition coverTilesOf (z worldSize xMin yMin xRange yRange : Z) (direction : Z * Z)
    : list CoverTile :=
  coverGrid (seqZ 0 (xRange + 1)) (seqZ 0 (yRange + 1))
    (fun x y =>
       let tileX := Z.rem (xMin + x) worldSize in
       let tileY := (yMin + y)%Z in
       let dx := (x * fst direction + (if (fst direction <? 0)%Z then xRange else 0))%Z in
       let dy := (y * snd direction + (if (snd direction <? 0)%Z then yRange else 0))%Z in
       mkCoverTile tileX tileY z dx dy).

(** [getCoverTiles(params, callback)]: the second argument of the one
    call of [callback]. *)
Definition getCoverTiles (projection : string) (tile : CanonicalTileID) : Cover :=
  let worldSize := worldSizeOf (tileZ tile) in
  let bound := toLngLatBounds tile in
  let trNorthwestCoords := transformLngLat (getNorthWest bound) "WGS84" projection in
  let direction := direction projection in
  let ltPixel := lngLatToPixel trNorthwestCoords (tileZ tile) (Some projection) in
  let trSoutheastCoords := transformLngLat (getSouthEast bound) "WGS84" projection in
  let rbPoint := lngLatToPixel trSoutheastCoords (tileZ tile) (Some projection) in
  let northwestTile := lngLatToTileFromZ trNorthwestCoords (tileZ tile) projection in
  let southeastTile := lngLatToTileFromZ trSoutheastCoords (tileZ tile) projection in
  let xMin := if (0 <? fst direction)%Z then fst northwestTile else fst southeastTile in
  let xMax := if (0 <? fst direction)%Z then fst southeastTile else fst northwestTile in
  let yMin := if (0 <? snd direction)%Z then snd northwestTile else snd southeastTile in
  let yMax := if (0 <? snd direction)%Z then snd southeastTile else snd northwestTile in
  let xRange := xRangeOf worldSize xMin xMax in
  let yRange := (yMax - yMin)%Z in
  mkCover
    (coverTilesOf (tileZ tile) worldSize xMin yMin xRange yRange direction)
    ltPixel
    (fst rbPoint + 256 * inject_Z xRange, snd rbPoint + 256 * inject_Z yRange).

(** [limitedStorage()]. *)
Definition limitedStorage (self : t (Image := Image)) : t :=
  let keys := obj_keys (subLoading self) in
  if (300 <? len keys)%Z then
    set_subLoading
      (obj_delete_all (keysBetween 0 (length keys - 80) keys) (subLoading self)) self
  else self.

End Copy.

End Copy2.

End RasterTileWorkerSource.

(** ** Sample stores and projections *)

Module SampleRaster.

Import RasterTileWorkerSource.

(** A store of [n] images under the keys ["0"], ["1"], ... *)
Definition store (n : nat) : JsObject nat :=
  map (fun i => (stdpp.pretty.pretty i, i)) (seq 0 n).

(** An instance that is loading nothing and holds [n] images. *)
Definition holding (n : nat) : t := make [] [] (store n) [].

(** A stand-in for the geometry: coordinates are counted in tiles of the
    zoom level, the source's tiles are shifted by half a tile against
    the map's, so that a map tile touches four of them, and the columns
    wrap around the world.  The projection ["flipped"] counts rows
    upwards. *)
#[global] Instance projection : TileProjection := {
  LngLat := Z * Z;
  LngLatBounds := (Z * Z) * (Z * Z);
  getTileBounds := fun x y z => ((x, y), (x + 1, y + 1)%Z);
  toLngLatBounds := fun tile => ((tileX tile, tileY tile), (tileX tile + 1, tileY tile + 1)%Z);
  getNorthWest := fst;
  getSouthEast := snd;
  transformLngLat := fun coords _ _ => coords;
  direction := fun projection => if String.eqb projection "flipped" then (1, -1)%Z else (1, 1)%Z;
  lngLatToPixel := fun coords z _ =>
    (inject_Z (256 * fst coords) + 128, inject_Z (256 * snd coords) + 128);
  lngLatToTileFromZ := fun coords z projection =>
    ((fst coords) mod 2 ^ z,
     if String.eqb projection "flipped" then 2 ^ z - 1 - snd coords else snd coords)%Z
}.

End SampleRaster.

(** * Properties *)

(** ** Numbers *)

Module NumFacts.

Lemma ltb_lt a b : Num.ltb a b = true <-> a < b.
Proof.
  unfold Num.ltb. rewrite negb_true_iff, <- not_true_iff_false, Qle_bool_iff.
  split; [apply Qnot_le_lt | apply Qlt_not_le].
Qed.

Lemma ltb_ge a b : Num.ltb a b = false <-> b <= a.
Proof. unfold Num.ltb. rewrite negb_false_iff. apply Qle_bool_iff. Qed.

Lemma gtb_gt a b : Num.gtb a b = true <-> b < a.
Proof. apply ltb_lt. Qed.

Lemma gtb_le a b : Num.gtb a b = false <-> a <= b.
Proof. apply ltb_ge. Qed.

Lemma geb_le a b : Num.geb a b = true <-> b <= a.
Proof. apply Qle_bool_iff. Qed.

Lemma geb_lt a b : Num.geb a b = false <-> a < b.
Proof.
  unfold Num.geb. rewrite <- not_true_iff_false, Qle_bool_iff.
  split; [apply Qnot_le_lt | apply Qlt_not_le].
Qed.

Lemma max_lower a b : a <= Num.max a b.
Proof.
  unfold Num.max. destruct (Num.ltb a b) eqn:E.
  - apply Qlt_le_weak. now apply ltb_lt.
  - apply Qle_refl.
Qed.

Lemma max_upper a b : b <= Num.max a b.
Proof.
  unfold Num.max. destruct (Num.ltb a b) eqn:E.
  - apply Qle_refl.
  - now apply ltb_ge.
Qed.

End NumFacts.

(** ** The circle collision feature *)

Lemma evaluateCircleCollisionFeature_height shaped :
  bottom (snd (evaluateCircleCollisionFeature shaped))
    - top (snd (evaluateCircleCollisionFeature shaped)) = paddedHeight shaped.
Proof.
  unfold evaluateCircleCollisionFeature, paddedHeight.
  destruct (collisionPadding shaped) as [[[[p0 p1] p2] p3]|]; reflexivity.
Qed.

Lemma evaluateCircleCollisionFeature_result shaped :
  fst (evaluateCircleCollisionFeature shaped)
  = if Num.gtb (paddedHeight shaped) 0
    then Some (Num.max 10 (paddedHeight shaped)) else None.
Proof.
  unfold evaluateCircleCollisionFeature, paddedHeight.
  destruct (collisionPadding shaped) as [[[[p0 p1] p2] p3]|]; reflexivity.
Qed.

(** C5.  For every shaping, [evaluateCircleCollisionFeature] returns
    [max(10, padded height)] when the height after the collision padding
    is strictly positive, a diameter that is never below 10, and returns
    the absent value when the padded height is less than or equal to 0. *)
Theorem evaluateCircleCollisionFeature_diameter (shaped : Shaped) :
  (0 < paddedHeight shaped ->
     fst (evaluateCircleCollisionFeature shaped) = Some (Num.max 10 (paddedHeight shaped))
     /\ 10 <= Num.max 10 (paddedHeight shaped))
  /\ (paddedHeight shaped <= 0 ->
     fst (evaluateCircleCollisionFeature shaped) = None).
Proof.
  rewrite evaluateCircleCollisionFeature_result. split.
  - intros Hpos. apply NumFacts.gtb_gt in Hpos. rewrite Hpos.
    split; [reflexivity | apply NumFacts.max_lower].
  - intros Hneg. apply NumFacts.gtb_le in Hneg. now rewrite Hneg.
Qed.

Lemma evaluateCircleCollisionFeature_diameter_witness :
  let tall := mkShaped (-12) 12 (-30) 30 (Some (1, 2, 3, 4)) in
  let flat := mkShaped 5 5 (-30) 30 None in
  (0 < paddedHeight tall /\ paddedHeight flat <= 0)
  /\ fst (evaluateCircleCollisionFeature tall) = Some (Num.max 10 (paddedHeight tall))
  /\ 10 <= Num.max 10 (paddedHeight tall)
  /\ fst (evaluateCircleCollisionFeature flat) = None.
Proof.
  intros tall flat.
  assert (Ht : 0 < paddedHeight tall) by reflexivity.
  assert (Hf : paddedHeight flat <= 0) by (vm_compute; discriminate).
  split; [split; assumption |].
  destruct (evaluateCircleCollisionFeature_diameter tall) as [H1 _].
  destruct (evaluateCircleCollisionFeature_diameter flat) as [_ H2].
  destruct (H1 Ht) as [H1a H1b].
  split; [exact H1a | split; [exact H1b | exact (H2 Hf)]].
Defined.

(** C10.  [evaluateCircleCollisionFeature] writes to its argument: with a
    collision padding the call lowers [top] by the padding's second entry
    and raises [bottom] by its fourth and leaves the other members as
    they are, so a second call on the same object applies the padding
    again, and it can return a larger diameter than the first call. *)
Theorem evaluateCircleCollisionFeature_mutates
    (shaped : Shaped) (p0 p1 p2 p3 : Q) :
  collisionPadding shaped = Some (p0, p1, p2, p3) ->
  let once := snd (evaluateCircleCollisionFeature shaped) in
  let twice := snd (evaluateCircleCollisionFeature once) in
  (top once = top shaped - p1 /\ bottom once = bottom shaped + p3
   /\ left once = left shaped /\ right once = right shaped
   /\ collisionPadding once = collisionPadding shaped)
  /\ (top twice = top shaped - p1 - p1 /\ bottom twice = bottom shaped + p3 + p3
      /\ left twice = left shaped /\ right twice = right shaped
      /\ collisionPadding twice = collisionPadding shaped)
  /\ (0 < p1 + p3 -> 10 <= paddedHeight shaped ->
      exists d1 d2,
        fst (evaluateCircleCollisionFeature shaped) = Some d1
        /\ fst (evaluateCircleCollisionFeature once) = Some d2
        /\ d1 < d2).
Proof.
  intros Hpad once twice.
  assert (Honce : once = mkShaped (top shaped - p1) (bottom shaped + p3)
                           (left shaped) (right shaped) (collisionPadding shaped)).
  { unfold once, evaluateCircleCollisionFeature. rewrite Hpad. simpl.
    unfold set_bottom, set_top. simpl. now rewrite Hpad. }
  assert (Htwice : twice = mkShaped (top shaped - p1 - p1) (bottom shaped + p3 + p3)
                             (left shaped) (right shaped) (collisionPadding shaped)).
  { unfold twice. rewrite Honce. unfold evaluateCircleCollisionFeature. simpl.
    rewrite Hpad. reflexivity. }
  split; [rewrite Honce; simpl; tauto |].
  split; [rewrite Htwice; simpl; tauto |].
  intros Hp Hh.
  assert (H1 : paddedHeight shaped == bottom shaped + p3 - (top shaped - p1)).
  { unfold paddedHeight. rewrite Hpad. reflexivity. }
  assert (H2 : paddedHeight once == paddedHeight shaped + (p1 + p3)).
  { rewrite H1, Honce. unfold paddedHeight. simpl. rewrite Hpad. ring. }
  assert (Hlt : paddedHeight shaped < paddedHeight once).
  { rewrite H2. rewrite <- (Qplus_0_r (paddedHeight shaped)) at 1.
    apply Qplus_lt_r. exact Hp. }
  exists (Num.max 10 (paddedHeight shaped)), (Num.max 10 (paddedHeight once)).
  rewrite !evaluateCircleCollisionFeature_result.
  assert (Hpos1 : 0 < paddedHeight shaped).
  { eapply Qlt_le_trans; [| exact Hh]. reflexivity. }
  assert (Hpos2 : 0 < paddedHeight once) by (eapply Qlt_trans; eassumption).
  apply NumFacts.gtb_gt in Hpos1 as ->. apply NumFacts.gtb_gt in Hpos2 as ->.
  split; [reflexivity | split; [reflexivity |]].
  unfold Num.max.
  assert (E1 : Num.ltb 10 (paddedHeight shaped) = false \/ Num.ltb 10 (paddedHeight shaped) = true)
    by (destruct (Num.ltb 10 (paddedHeight shaped)); auto).
  assert (E2 : Num.ltb 10 (paddedHeight once) = true).
  { apply NumFacts.ltb_lt. eapply Qle_lt_trans; eassumption. }
  rewrite E2. destruct E1 as [-> | ->]; [| exact Hlt].
  eapply Qle_lt_trans; eassumption.
Qed.

Lemma evaluateCircleCollisionFeature_mutates_witness :
  let shaped := mkShaped (-12) 12 (-30) 30 (Some (1, 2, 3, 4)) in
  let once := snd (evaluateCircleCollisionFeature shaped) in
  let twice := snd (evaluateCircleCollisionFeature once) in
  collisionPadding shaped = Some (1, 2, 3, 4)
  /\ top once = -12 - 2 /\ bottom once = 12 + 4
  /\ top twice = -12 - 2 - 2 /\ bottom twice = 12 + 4 + 4
  /\ exists d1 d2,
       fst (evaluateCircleCollisionFeature shaped) = Some d1
       /\ fst (evaluateCircleCollisionFeature once) = Some d2
       /\ d1 < d2.
Proof.
  intros shaped once twice.
  destruct (evaluateCircleCollisionFeature_mutates shaped 1 2 3 4 eq_refl)
    as [[Ht [Hb _]] [[Ht2 [Hb2 _]] Hgrow]].
  split; [reflexivity |].
  split; [exact Ht | split; [exact Hb | split; [exact Ht2 | split; [exact Hb2 |]]]].
  apply Hgrow; [reflexivity | vm_compute; discriminate].
Defined.

(** ** Objects *)

Lemma obj_get_set_eq {V} (k : string) (v : V) (o : JsObject V) :
  obj_get k (obj_set k v o) = Some v.
Proof.
  induction o as [| [k' v'] o IH]; simpl.
  - now rewrite String.eqb_refl.
  - destruct (String.eqb k k') eqn:E; simpl; rewrite E; [reflexivity | exact IH].
Qed.

Lemma obj_get_set_ne {V} (k k' : string) (v : V) (o : JsObject V) :
  k <> k' -> obj_get k' (obj_set k v o) = obj_get k' o.
Proof.
  intros Hne. induction o as [| [k0 v0] o IH]; simpl.
  - apply String.eqb_neq in Hne. rewrite String.eqb_sym in Hne. now rewrite Hne.
  - destruct (String.eqb k k0) eqn:E; simpl.
    + apply String.eqb_eq in E. subst k0.
      assert (E' : String.eqb k' k = false)
        by (apply String.eqb_neq; congruence).
      now rewrite E'.
    + destruct (String.eqb k' k0); [reflexivity | exact IH].
Qed.

Lemma obj_keys_set {V} (k : string) (v : V) (o : JsObject V) :
  obj_keys (obj_set k v o)
  = match obj_get k o with
    | Some _ => obj_keys o
    | None => obj_keys o ++ [k]
    end.
Proof.
  unfold obj_keys.
  induction o as [| [k' v'] o IH]; simpl; [reflexivity |].
  destruct (String.eqb k k') eqn:E; simpl; [reflexivity |].
  rewrite IH. now destruct (obj_get k o).
Qed.

Lemma justifyKey_inj j1 j2 : justifyKey j1 = justifyKey j2 -> j1 = j2.
Proof. destruct j1, j2; simpl; intros H; try reflexivity; discriminate H. Qed.

Lemma justifyKey_not_0 j : justifyKey j <> "0".
Proof. destruct j; discriminate. Qed.

(** ** The justifications of a variable anchor *)

(** Once a single line has been shaped, the loop binds every justification
    that has no shaping yet to the value of the property [0], and changes
    no binding that exists. *)
Lemma shapeJustifications_single_line shape rest h :
  obj_get "0" h = None ->
  forall k,
    obj_get k (shapeJustifications shape rest true h)
    = match obj_get k h with
      | Some v => Some v
      | None => if existsb (fun j => String.eqb k (justifyKey j)) rest
                then Some None else None
      end.
Proof.
  revert h. induction rest as [| j rest IH]; intros h H0 k; simpl.
  - now destruct (obj_get k h).
  - unfold horizontal_get at 1.
    destruct (obj_get (justifyKey j) h) as [[s |] |] eqn:Ej.
    + rewrite IH by exact H0. destruct (obj_get k h) eqn:Ek; [reflexivity |].
      destruct (String.eqb k (justifyKey j)) eqn:E; [| reflexivity].
      apply String.eqb_eq in E. congruence.
    + unfold horizontal_get. rewrite H0. rewrite IH.
      * destruct (String.eqb k (justifyKey j)) eqn:E.
        -- apply String.eqb_eq in E. subst k. now rewrite obj_get_set_eq, Ej.
        -- apply String.eqb_neq in E. rewrite obj_get_set_ne by congruence.
           reflexivity.
      * rewrite obj_get_set_ne; [exact H0 | apply justifyKey_not_0].
    + unfold horizontal_get. rewrite H0. rewrite IH.
      * destruct (String.eqb k (justifyKey j)) eqn:E.
        -- apply String.eqb_eq in E. subst k. now rewrite obj_get_set_eq, Ej.
        -- apply String.eqb_neq in E. rewrite obj_get_set_ne by congruence.
           reflexivity.
      * rewrite obj_get_set_ne; [exact H0 | apply justifyKey_not_0].
Qed.

(** C1, as the code has it.  When the first justification of a layer with
    variable anchors is shaped on a single line, the loop keeps that
    shaping under the first justification and binds every other requested
    justification to [horizontal[0]], which is [undefined]: the other
    justifications do not get the first one's Shaping. *)
Theorem variable_anchor_single_line_binds_undefined
    (shape : TextJustify -> option Shaping) (first : TextJustify)
    (rest : list TextJustify) (shaping : Shaping) (other : TextJustify) :
  shape first = Some shaping ->
  length (positionedLines shaping) = 1%nat ->
  In other rest ->
  other <> first ->
  let h := shapeJustifications shape (first :: rest) false [] in
  obj_get (justifyKey first) h = Some (Some shaping)
  /\ obj_get (justifyKey other) h = Some None
  /\ horizontal_get (justifyKey other) h = None.
Proof.
  intros Hshape Hline Hin Hne h.
  assert (Hh : h = shapeJustifications shape rest true [(justifyKey first, Some shaping)]).
  { unfold h. cbn [shapeJustifications horizontal_get obj_get].
    rewrite Hshape, Hline. reflexivity. }
  assert (H0 : obj_get "0" [(justifyKey first, Some shaping)] = None).
  { cbn [obj_get]. destruct (String.eqb "0" (justifyKey first)) eqn:E; [| reflexivity].
    apply String.eqb_eq in E. symmetry in E. now apply justifyKey_not_0 in E. }
  assert (Hother : obj_get (justifyKey other) h = Some None).
  { rewrite Hh, shapeJustifications_single_line by exact H0. cbn [obj_get].
    destruct (String.eqb (justifyKey other) (justifyKey first)) eqn:E.
    - apply String.eqb_eq, justifyKey_inj in E. contradiction.
    - assert (Hex : existsb (fun j => String.eqb (justifyKey other) (justifyKey j)) rest = true).
      { apply existsb_exists. exists other. split; [exact Hin | apply String.eqb_refl]. }
      now rewrite Hex. }
  split; [| split; [exact Hother | unfold horizontal_get; now rewrite Hother]].
  rewrite Hh, shapeJustifications_single_line by exact H0. cbn [obj_get].
  now rewrite String.eqb_refl.
Qed.

Lemma variable_anchor_single_line_binds_undefined_witness :
  let shape := fun _ : TextJustify => Some (Sample.shaping "Cafe" 1) in
  let h := shapeJustifications shape [JustifyLeft; JustifyRight] false [] in
  h = [("left", Some (Sample.shaping "Cafe" 1)); ("right", None)]
  /\ obj_get "left" h = Some (Some (Sample.shaping "Cafe" 1))
  /\ obj_get "right" h = Some None
  /\ horizontal_get "right" h = None.
Proof.
  intros shape h. split; [reflexivity |].
  apply (variable_anchor_single_line_binds_undefined shape JustifyLeft [JustifyRight]
           (Sample.shaping "Cafe" 1) JustifyRight).
  - reflexivity.
  - reflexivity.
  - simpl. left. reflexivity.
  - discriminate.
Defined.

(** ** Computations *)

Lemma bind_normal {A B} (m : M A) (k : A -> M B) b a b' :
  m b = Normal (a, b') -> bind m k b = k a b'.
Proof. unfold bind. now intros ->. Qed.

Lemma bind_throws {A B} (m : M A) (k : A -> M B) b :
  m b = TypeError -> bind m k b = TypeError.
Proof. unfold bind. now intros ->. Qed.

Lemma mbind_unfold {A B} (m : M A) (k : A -> M B) : mbind k m = bind m k.
Proof. reflexivity. Qed.

(** Unfolds the notation of the computations. *)
Ltac monad := unfold mbind, M_bind, mret, M_ret in *.

(** ** Warnings *)

Lemma existsb_eqb_In (s : string) (l : list string) :
  existsb (String.eqb s) l = true <-> In s l.
Proof.
  rewrite existsb_exists. split.
  - intros [x [Hin E]]. apply String.eqb_eq in E. now subst.
  - intros Hin. exists s. split; [exact Hin | apply String.eqb_refl].
Qed.

Lemma warnOnce_spec (message : string) (b : Bucket) :
  exists b',
    warnOnce message b = Normal (tt, b')
    /\ In message (warnOnceHistory b')
    /\ (List.NoDup (warnOnceHistory b) -> List.NoDup (warnOnceHistory b'))
    /\ sameButHistory b b'.
Proof.
  unfold warnOnce, modify.
  destruct (existsb (String.eqb message) (warnOnceHistory b)) eqn:E.
  - exists b. apply existsb_eqb_In in E.
    split; [reflexivity |]. split; [exact E |]. split; [tauto |].
    unfold sameButHistory. now destruct b.
  - eexists. split; [reflexivity |]. simpl.
    split; [apply in_or_app; right; now left |].
    split; [| reflexivity].
    intros Hnd. apply NoDup_ListNoDup, NoDup_app. apply NoDup_ListNoDup in Hnd.
    split; [exact Hnd |]. split; [| apply NoDup_singleton].
    intros x Hx Hx'. apply list_elem_of_In in Hx. apply list_elem_of_In in Hx'.
    destruct Hx' as [-> | []].
    apply existsb_eqb_In in Hx. congruence.
Qed.

(** ** Packed sizes *)

Section PackedSizes.

Context `{C : Collaborators}.


End PackedSizes.



(** ** Growth of the stores *)

Lemma grows_refl b : grows 0 b b.
Proof. split; [reflexivity |]. split; [reflexivity |]. exists []. now rewrite app_nil_r. Qed.

Lemma grows_trans n m b1 b2 b3 :
  grows n b1 b2 -> grows m b2 b3 -> grows (n + m) b1 b3.
Proof.
  intros [Hi1 [Ht1 [l1 [Hl1 Hc1]]]] [Hi2 [Ht2 [l2 [Hl2 Hc2]]]].
  split; [congruence |]. split; [congruence |].
  exists (l1 ++ l2). split; [rewrite length_app; congruence |].
  rewrite Hc2, Hc1. now rewrite app_assoc.
Qed.

Lemma grows_len n b b' :
  grows n b b' -> len (collisionBoxArray b') = (len (collisionBoxArray b) + Z.of_nat n)%Z.
Proof.
  intros [_ [_ [l [Hl Hc]]]]. unfold len. rewrite Hc, length_app, Hl. lia.
Qed.

Lemma grows_same b b' :
  symbolInstances b' = symbolInstances b ->
  compareText b' = compareText b ->
  collisionBoxArray b' = collisionBoxArray b ->
  grows 0 b b'.
Proof.
  intros Hi Ht Hc. split; [exact Hi |]. split; [exact Ht |].
  exists []. now rewrite app_nil_r.
Qed.

Lemma sameButHistory_grows b b' : sameButHistory b b' -> grows 0 b b'.
Proof. unfold sameButHistory. intros ->. now apply grows_same. Qed.

Lemma len_app_one {A} (l : list A) (x : A) : (len (l ++ [x]) - 1)%Z = len l.
Proof. unfold len. rewrite length_app. simpl. lia. Qed.

Section AddSymbolFacts.

Context `{C : Collaborators}.

Lemma addToLineVertexArray_run anchor line b :
  addToLineVertexArray anchor line b
  = Normal ((lineVertexArray b, lineVertexCount anchor line),
            set_lineVertexArray (lineVertexArray b + lineVertexCount anchor line)%Z b).
Proof. reflexivity. Qed.

Lemma evaluateBoxCollisionFeature_run projectedAnchor tileAnchor fi sli bi shaped padding
    rotate textOffset iconScaledSize b :
  exists box,
    evaluateBoxCollisionFeature projectedAnchor tileAnchor fi sli bi shaped padding rotate
      textOffset iconScaledSize b
    = Normal (len (collisionBoxArray b),
              set_collisionBoxArray (collisionBoxArray b ++ [box]) b)
    /\ cbFeatureIndex box = fi.
Proof.
  unfold evaluateBoxCollisionFeature.
  destruct (collisionPadding shaped) as [[[[p0 p1] p2] p3] |];
    destruct (Num.truthy rotate);
    (eexists; split;
     [monad; unfold bind, modify, get, ret; cbn [collisionBoxArray set_collisionBoxArray];
      rewrite len_app_one; reflexivity
     | reflexivity]).
Qed.

Lemma packSizes_completes cfg property sizeData layoutSize compositeSizes scale feature b :
  (forall lo hi, sizeData = SizeComposite lo hi -> compositeSizes <> None) ->
  exists data b',
    packSizes cfg property sizeData layoutSize compositeSizes scale feature b
    = Normal (data, b')
    /\ data = packedSizes sizeData layoutSize compositeSizes scale feature
    /\ sameButHistory b b'.
Proof.
  intros Hcomplete.
  assert (Hrefl : sameButHistory b b) by (unfold sameButHistory; now destruct b).
  unfold packSizes, packedSizes. monad. destruct sizeData.
  - eexists _, _. now split.
  - match goal with |- context [if ?c then _ else _] => destruct c end.
    + destruct (warnOnce_spec (sizeWarning (layerId cfg) property) b)
        as [b' [Hw [_ [_ Hs]]]].
      exists (Some [SIZE_PACK_FACTOR * layoutSize feature * scale]), b'.
      erewrite bind_normal by exact Hw. now split.
    + eexists _, _. now split.
  - eexists _, _. now split.
  - destruct compositeSizes as [[size0 size1] |];
      [| now destruct (Hcomplete minZoom maxZoom eq_refl)].
    match goal with |- context [if ?c then _ else _] => destruct c end.
    + destruct (warnOnce_spec (sizeWarning (layerId cfg) property) b)
        as [b' [Hw [_ [_ Hs]]]].
      eexists _, b'. erewrite bind_normal by exact Hw. now split.
    + eexists _, _. now split.
Qed.

Lemma addTextVertices_completes cfg tileAnchor shapedText textAlongLine feature textOffset
    lineArray writingMode placementTypes indices placedIconIndex sizes b :
  sizesComplete cfg sizes ->
  exists r b',
    addTextVertices cfg tileAnchor shapedText textAlongLine feature textOffset lineArray
      writingMode placementTypes indices placedIconIndex sizes b
    = Normal (r, b')
    /\ grows 0 b b'.
Proof.
  intros [Htext _]. unfold addTextVertices. monad.
  destruct (packSizes_completes cfg "text-size" (textSizeData cfg) (text_size (layout cfg))
              (compositeTextSizes sizes) (textScaleFactor sizes) feature b Htext)
    as [data [b1 [Hrun [_ Hsame]]]].
  erewrite bind_normal by exact Hrun.
  eexists _, _. split; [reflexivity |].
  apply sameButHistory_grows in Hsame. destruct Hsame as [Hi [Ht [l [Hl Hc]]]].
  split; [exact Hi |]. split; [exact Ht |]. exists l. split; [exact Hl | exact Hc].
Qed.

End AddSymbolFacts.

Section AddSymbolPhases.

Context `{C : Collaborators}.

Variable cfg : BucketConfig.
Variable args : SymbolArgs.
Variable anchor : Anchor.
Variable globe : option Anchor.
Variable line : list Point.

Hypothesis sizes_complete : sizesComplete cfg (saSizes args).

Lemma grows_box b box : grows 1 b (set_collisionBoxArray (collisionBoxArray b ++ [box]) b).
Proof. split; [reflexivity |]. split; [reflexivity |]. now exists [box]. Qed.

(** The vertical block inserts the vertical text's box first and the
    vertical icon's box right after it. *)
Lemma verticalCollision_spec sh b :
  exists sh1 verticalTextBoxIndex verticalIconBoxIndex verticalTextCircle
         verticalIconCircle b1,
    verticalCollision cfg args anchor globe sh b
    = Normal ((sh1, verticalTextBoxIndex, verticalIconBoxIndex, verticalTextCircle,
               verticalIconCircle), b1)
    /\ verticalTextBoxIndex
       = (if verticalTextPresent cfg args sh then Some (len (collisionBoxArray b))
          else None)
    /\ verticalIconBoxIndex
       = (if verticalIconPresent cfg args sh then Some (len (collisionBoxArray b) + 1)%Z
          else None)
    /\ grows (boxCount (verticalTextPresent cfg args sh)
              + boxCount (verticalIconPresent cfg args sh)) b b1
    /\ horizontal sh1 = horizontal sh
    /\ shapedIcon sh1 = shapedIcon sh
    /\ (saTextAlongLine args = false -> sh1 = sh).
Proof.
  assert (Hnone : forall (x : Shapes * option Z * option Z * option Q * option Q)
                     (sh1 := x.1.1.1.1),
            horizontal sh1 = horizontal sh -> shapedIcon sh1 = shapedIcon sh ->
            (saTextAlongLine args = false -> sh1 = sh) ->
            x.1.1.1.2 = None -> x.1.1.2 = None ->
            exists sh1 verticalTextBoxIndex verticalIconBoxIndex verticalTextCircle
                   verticalIconCircle b1,
              Normal (x, b)
              = Normal ((sh1, verticalTextBoxIndex, verticalIconBoxIndex,
                         verticalTextCircle, verticalIconCircle), b1)
              /\ verticalTextBoxIndex = None /\ verticalIconBoxIndex = None
              /\ grows 0 b b1 /\ horizontal sh1 = horizontal sh
              /\ shapedIcon sh1 = shapedIcon sh
              /\ (saTextAlongLine args = false -> sh1 = sh)).
  { intros [[[[sh1 vtb] vib] vtc] vic] sh1'. cbn. intros Hh Hi Hs -> ->.
    do 6 eexists. split; [reflexivity |].
    repeat split; try assumption. apply grows_refl. }
  unfold verticalCollision, verticalIconPresent, verticalTextPresent.
  destruct (allowVerticalPlacement cfg); cbn [andb boxCount Nat.add];
    [| now apply (Hnone (sh, None, None, None, None))].
  destruct (vertical sh) as [verticalShaping |] eqn:Ev; cbn [bool_decide andb boxCount Nat.add];
    [| now apply (Hnone (sh, None, None, None, None))].
  rewrite bool_decide_eq_true_2 by eauto.
  destruct (saTextAlongLine args) eqn:Ea; cbn [negb andb boxCount Nat.add].
  - destruct (evaluateCircleCollisionFeature (sbox verticalShaping)) as [circle box].
    cbn [verticallyShapedIcon set_vertical].
    destruct (verticallyShapedIcon sh) as [icon |].
    + destruct (evaluateCircleCollisionFeature (ibox icon)) as [icircle ibox'].
      refine (Hnone (_, None, None, _, _) _ _ _ _ _); try reflexivity. discriminate.
    + refine (Hnone (_, None, None, _, _) _ _ _ _ _); try reflexivity. discriminate.
  - monad.
    match goal with |- context [bind (evaluateBoxCollisionFeature ?a ?b0 ?c ?d ?e ?f ?g ?h ?i ?j) _] =>
      destruct (evaluateBoxCollisionFeature_run a b0 c d e f g h i j b) as [box [Hrun _]]
    end.
    erewrite bind_normal by exact Hrun.
    destruct (verticallyShapedIcon sh) as [icon |];
      [rewrite bool_decide_eq_true_2 by eauto
      | rewrite bool_decide_eq_false_2 by (intros [? ?]; discriminate)];
      cbn [boxCount Nat.add].
    + match goal with |- context [bind (evaluateBoxCollisionFeature ?a ?b0 ?c ?d ?e ?f ?g ?h ?i ?j) _ ?s] =>
        destruct (evaluateBoxCollisionFeature_run a b0 c d e f g h i j s) as [box2 [Hrun2 _]]
      end.
      erewrite bind_normal by exact Hrun2.
      do 6 eexists. split; [reflexivity |].
      cbn [collisionBoxArray set_collisionBoxArray].
      split; [reflexivity |]. split; [f_equal; unfold len; rewrite length_app; simpl; lia |].
      split; [| now repeat split].
      apply (grows_trans 1 1 _ _ _ (grows_box b box)), grows_box.
    + do 6 eexists. split; [reflexivity |].
      split; [reflexivity |]. split; [reflexivity |].
      split; [apply grows_box | now repeat split].
Qed.

(** The icon block inserts one box when there is a shaped icon. *)
Lemma placeIcon_spec lineArray sh b :
  exists ip b1,
    placeIcon cfg args anchor globe lineArray sh b = Normal (ip, b1)
    /\ ipIconBoxIndex ip
       = (if iconPresent sh then Some (len (collisionBoxArray b)) else None)
    /\ grows (boxCount (iconPresent sh)) b b1.
Proof.
  unfold placeIcon, iconPresent.
  destruct (shapedIcon sh) as [icon |];
    [rewrite bool_decide_eq_true_2 by eauto
    | rewrite bool_decide_eq_false_2 by (intros [? ?]; discriminate)];
    cbn [boxCount];
    [| do 2 eexists; split; [reflexivity |]; split; [reflexivity | apply grows_refl]].
  monad.
  match goal with |- context [bind (evaluateBoxCollisionFeature ?a ?b0 ?c ?d ?e ?f ?g ?h ?i ?j) _] =>
    destruct (evaluateBoxCollisionFeature_run a b0 c d e f g h i j b) as [box [Hrun _]]
  end.
  erewrite bind_normal by exact Hrun.
  destruct sizes_complete as [_ Hicon].
  match goal with |- context [bind (packSizes ?a ?p ?k ?l ?c ?s ?f) _ ?st] =>
    destruct (packSizes_completes a p k l c s f st Hicon) as [data [b2 [Hpack [_ Hsame]]]]
  end.
  erewrite bind_normal by exact Hpack.
  assert (Hg : grows 1 b b2).
  { apply (grows_trans 1 0 _ _ _ (grows_box b box)), sameButHistory_grows, Hsame. }
  destruct Hg as [Hi [Ht [l [Hl Hc]]]].
  destruct (verticallyShapedIcon sh) as [vicon |];
    (do 2 eexists; split; [reflexivity |]; split; [reflexivity |];
     split; [exact Hi | split; [exact Ht | exists l; split; [exact Hl | exact Hc]]]).
Qed.

End AddSymbolPhases.

Lemma horizontal_get_set_eq k v (h : HorizontalShapings) :
  horizontal_get k (obj_set k v h) = v.
Proof. unfold horizontal_get. now rewrite obj_get_set_eq. Qed.

Lemma horizontal_get_set_ne k k' v (h : HorizontalShapings) :
  k <> k' -> horizontal_get k' (obj_set k v h) = horizontal_get k' h.
Proof. intros Hne. unfold horizontal_get. now rewrite obj_get_set_ne. Qed.

(** A write that keeps the lines of a shaping keeps the object walkable. *)
Lemma walkableKeys_set k s s' (h : HorizontalShapings) keys :
  horizontal_get k h = Some s ->
  length (positionedLines s') = length (positionedLines s) ->
  walkableKeys h keys ->
  walkableKeys (obj_set k (Some s') h) keys.
Proof.
  intros Hget Hlines. induction keys as [| k' rest IH]; simpl; [trivial |].
  destruct (String.string_dec k k') as [<- | Hne].
  - rewrite horizontal_get_set_eq, Hget, Hlines. tauto.
  - rewrite horizontal_get_set_ne by exact Hne.
    destruct (horizontal_get k' h); tauto.
Qed.

Section TextLoopFacts.

Context `{C : Collaborators}.

Variable cfg : BucketConfig.
Variable args : SymbolArgs.
Variable anchor : Anchor.
Variable globe : option Anchor.

Hypothesis sizes_complete : sizesComplete cfg (saSizes args).

Lemma textCollision_spec justification shaping st b :
  horizontal_get justification (horizontal (tlShapes st)) = Some shaping ->
  lastBox st b ->
  exists st1 b1 n shaping1,
    textCollision cfg args anchor globe justification shaping st b = Normal (st1, b1)
    /\ grows n b b1
    /\ lastBox st1 b1
    /\ horizontal_get justification (horizontal (tlShapes st1)) = Some shaping1
    /\ positionedLines shaping1 = positionedLines shaping
    /\ (forall keys, walkableKeys (horizontal (tlShapes st)) keys ->
                     walkableKeys (horizontal (tlShapes st1)) keys)
    /\ (saTextAlongLine args = true -> tlTextBoxIndex st1 = tlTextBoxIndex st /\ n = 0%nat)
    /\ (saTextAlongLine args = false ->
        tlShapes st1 = tlShapes st
        /\ tlTextBoxIndex st1 = Some (len (collisionBoxArray b1) - 1)%Z
        /\ (tlTextBoxIndex st = None -> n = 1%nat)).
Proof.
  intros Hget Hlast. unfold textCollision.
  destruct (indexTruthy (tlTextBoxIndex st)) eqn:Et; cbn [negb].
  - (* a box is there already *)
    exists st, b, 0%nat, shaping. split; [reflexivity |].
    split; [apply grows_refl |]. split; [exact Hlast |].
    split; [exact Hget |]. split; [reflexivity |]. split; [tauto |].
    split; [tauto |]. intros _. split; [reflexivity |].
    destruct Hlast as [Hn | Hs]; [rewrite Hn in Et; discriminate |].
    split; [exact Hs |]. intros Hn. rewrite Hn in Et. discriminate.
  - destruct (saTextAlongLine args) eqn:Ea.
    + destruct (evaluateCircleCollisionFeature (sbox shaping)) as [circle box].
      eexists _, b, 0%nat, (set_sbox box shaping). split; [reflexivity |].
      cbn [tlShapes tlTextBoxIndex horizontal set_horizontal].
      split; [apply grows_refl |]. split; [exact Hlast |].
      split; [apply horizontal_get_set_eq |]. split; [reflexivity |].
      split; [intros keys; now apply walkableKeys_set with (s := shaping) |].
      split; [tauto | discriminate].
    + monad.
      match goal with |- context [bind (evaluateBoxCollisionFeature ?a ?b0 ?c ?d ?e ?f ?g ?h ?i ?j) _] =>
        destruct (evaluateBoxCollisionFeature_run a b0 c d e f g h i j b) as [box [Hrun _]]
      end.
      erewrite bind_normal by exact Hrun.
      eexists _, _, 1%nat, shaping. split; [reflexivity |].
      unfold lastBox.
      cbn [tlShapes tlTextBoxIndex collisionBoxArray set_collisionBoxArray].
      rewrite len_app_one.
      split; [apply grows_box |]. split; [now right |].
      split; [exact Hget |]. split; [reflexivity |]. split; [tauto |].
      split; [discriminate |]. intros _. now repeat split.
Qed.

Lemma horizontalLoop_spec lineArray placedIconSymbolIndex keys :
  forall st b,
    walkableKeys (horizontal (tlShapes st)) keys ->
    lastBox st b ->
    exists st' b' n,
      horizontalLoop cfg args anchor globe lineArray placedIconSymbolIndex keys st b
      = Normal (st', b')
      /\ grows n b b'
      /\ lastBox st' b'
      /\ (saTextAlongLine args = true ->
          tlTextBoxIndex st' = tlTextBoxIndex st /\ n = 0%nat)
      /\ (saTextAlongLine args = false ->
          tlShapes st' = tlShapes st
          /\ (keys = [] -> tlTextBoxIndex st' = tlTextBoxIndex st /\ n = 0%nat)
          /\ (keys <> [] ->
              tlTextBoxIndex st' = Some (len (collisionBoxArray b') - 1)%Z
              /\ (tlTextBoxIndex st = None -> (1 <= n)%nat))).
Proof.
  induction keys as [| justification rest IH]; intros st b Hwalk Hlast.
  - exists st, b, 0%nat. split; [reflexivity |]. split; [apply grows_refl |].
    split; [exact Hlast |]. split; [tauto |]. intros _.
    split; [reflexivity |]. split; [tauto | congruence].
  - cbn [horizontalLoop walkableKeys] in *.
    destruct (horizontal_get justification (horizontal (tlShapes st))) as [shaping |] eqn:Hget;
      [| contradiction].
    destruct (textCollision_spec justification shaping st b Hget Hlast)
      as [st1 [b1 [n1 [shaping1 [Hrun1 [Hg1 [Hlast1 [Hget1 [Hlines [Hkeep [Halong Hbox]]]]]]]]]]].
    monad. erewrite bind_normal by exact Hrun1. rewrite Hget1.
    match goal with |- context [bind (addTextVertices ?a ?b0 ?c ?d ?e ?f ?g ?h ?i ?j ?k ?l) _ ?s] =>
      destruct (addTextVertices_completes a b0 c d e f g h i j k l s sizes_complete)
        as [r [b2 [Hrun2 Hg2]]]
    end.
    erewrite bind_normal by exact Hrun2.
    pose proof (grows_trans _ _ _ _ _ Hg1 Hg2) as Hg12. rewrite Nat.add_0_r in Hg12.
    pose proof (grows_len _ _ _ Hg2) as Hlen2. rewrite Z.add_0_r in Hlen2.
    set (st2 := mkTextLoop (tlShapes st1) (tlTextBoxIndex st1) (tlKey st1) (tlTextCircle st1)
                  (tlNumHorizontalGlyphVertices st1 + r.1)%Z r.2).
    assert (Hlast2 : lastBox st2 b2).
    { unfold lastBox in *. subst st2. cbn [tlTextBoxIndex]. rewrite Hlen2. exact Hlast1. }
    rewrite Hlines.
    destruct (length (positionedLines shaping) =? 1)%nat eqn:Esingle.
    + (* a single line ends the loop *)
      exists st2, b2, n1. split; [reflexivity |]. split; [exact Hg12 |].
      split; [exact Hlast2 |]. subst st2. cbn [tlTextBoxIndex tlShapes].
      split; [exact Halong |]. intros Ea. destruct (Hbox Ea) as [Hs [Hi Hn]].
      split; [exact Hs |]. split; [discriminate |]. intros _.
      rewrite Hlen2. split; [exact Hi |]. intros Hnone. rewrite (Hn Hnone). lia.
    + apply Nat.eqb_neq in Esingle.
      destruct Hwalk as [Hwalk | Hwalk]; [contradiction |].
      destruct (IH st2 b2 (Hkeep rest Hwalk) Hlast2)
        as [st' [b' [n2 [Hrun' [Hg' [Hlast' [Halong' Hbox']]]]]]].
      exists st', b', (n1 + n2)%nat. split; [exact Hrun' |].
      split; [exact (grows_trans _ _ _ _ _ Hg12 Hg') |].
      split; [exact Hlast' |]. subst st2. cbn [tlTextBoxIndex tlShapes] in *.
      split.
      * intros Ea. destruct (Halong Ea) as [E1 ->]. destruct (Halong' Ea) as [E2 ->].
        split; [congruence | reflexivity].
      * intros Ea. destruct (Hbox Ea) as [Hs [Hi Hn]].
        destruct (Hbox' Ea) as [Hs' [Hnil Hcons]].
        split; [congruence |]. split; [discriminate |]. intros _.
        split.
        -- destruct rest as [| k rest'].
           ++ destruct (Hnil eq_refl) as [Hi' Hn2]. subst n2.
              pose proof (grows_len _ _ _ Hg') as Hl. rewrite Z.add_0_r in Hl.
              rewrite Hi', Hi, Hl, Hlen2. reflexivity.
           ++ apply Hcons. discriminate.
        -- intros Hnone. rewrite (Hn Hnone). lia.
Qed.

End TextLoopFacts.

Section AddSymbolSpec.

Context `{C : Collaborators}.

Variable cfg : BucketConfig.
Variable args : SymbolArgs.
Variable anchor : Anchor.
Variable globe : option Anchor.
Variable line : list Point.

Hypothesis sizes_complete : sizesComplete cfg (saSizes args).

Lemma bind_get {B} (k : Bucket -> M B) b : bind get k b = k b b.
Proof. reflexivity. Qed.

Lemma bind_modify {B} (f : Bucket -> Bucket) (k : unit -> M B) b :
  bind (modify f) k b = k tt (f b).
Proof. reflexivity. Qed.

Lemma bind_ret {A B} (a : A) (k : A -> M B) b : bind (ret a) k b = k a b.
Proof. reflexivity. Qed.

Lemma obj_keys_nil {V} (o : JsObject V) : obj_keys o = [] <-> o = [].
Proof. destruct o; simpl; split; congruence. Qed.

(** What one call of [addSymbol] does to the bucket: it appends one symbol
    instance, at the anchor, and the collision boxes of the categories
    that are present, vertical text first, then vertical icon, icon and
    text; the instance records the index of each present category's box
    and the length of the store for each absent one. *)
Lemma addSymbol_spec sh b :
  walkable (horizontal sh) ->
  exists sh' b' inst boxes,
    addSymbol cfg args anchor globe line sh b = Normal (sh', b')
    /\ symbolInstances b' = symbolInstances b ++ [inst]
    /\ collisionBoxArray b' = collisionBoxArray b ++ boxes
    /\ compareText b' = compareText b
    /\ instanceAnchor inst = (ax anchor, ay anchor)
    /\ (saTextAlongLine args = false -> sh' = sh)
    /\ let L0 := len (collisionBoxArray b) in
       let L := len (collisionBoxArray b') in
       let nv := (boxCount (verticalTextPresent cfg args sh)
                  + boxCount (verticalIconPresent cfg args sh))%nat in
       recordsRange (verticalTextPresent cfg args sh) L0 L
         (verticalTextBoxStartIndex inst) (verticalTextBoxEndIndex inst)
       /\ recordsRange (verticalIconPresent cfg args sh) (L0 + 1) L
            (verticalIconBoxStartIndex inst) (verticalIconBoxEndIndex inst)
       /\ recordsRange (iconPresent sh) (L0 + Z.of_nat nv) L
            (iconBoxStartIndex inst) (iconBoxEndIndex inst)
       /\ recordsRange (textPresent args sh) (L - 1) L
            (textBoxStartIndex inst) (textBoxEndIndex inst)
       /\ (nv + boxCount (iconPresent sh) + boxCount (textPresent args sh)
           <= length boxes)%nat
       /\ (textPresent args sh = false ->
           length boxes = (nv + boxCount (iconPresent sh))%nat).
Proof.
  intros Hwalk. unfold addSymbol. monad.
  rewrite (bind_normal _ _ _ _ _ (addToLineVertexArray_run anchor line b)).
  set (b0 := set_lineVertexArray _ b).
  assert (Hg0 : grows 0 b b0) by now apply grows_same.
  assert (Hc0 : compareText b0 = compareText b) by reflexivity.
  clearbody b0.
  set (offsets := if text_radial_offset_unset (layout cfg) then _ else _).
  destruct offsets as [textOffset0 textOffset1].
  destruct (verticalCollision_spec cfg args anchor globe sh b0)
    as [sh1 [vtb [vib [vtc [vic [b1 [Hrun1 [Hvtb [Hvib [Hg1 [Hh1 [Hi1 Hs1]]]]]]]]]]]].
  erewrite bind_normal by exact Hrun1. cbv beta iota.
  destruct (placeIcon_spec cfg args anchor globe sizes_complete
              (lineVertexArray b, lineVertexCount anchor line) sh1 b1)
    as [ip [b2 [Hrun2 [Hip Hg2]]]].
  erewrite bind_normal by exact Hrun2.
  assert (Hwalk1 : walkableKeys
                     (horizontal (tlShapes (mkTextLoop sh1 None (murmur3 "") None 0 ∅)))
                     (obj_keys (horizontal sh1))).
  { cbn [tlShapes]. rewrite Hh1. exact Hwalk. }
  destruct (horizontalLoop_spec cfg args anchor globe sizes_complete
              (lineVertexArray b, lineVertexCount anchor line) (ipPlacedIconSymbolIndex ip)
              (obj_keys (horizontal sh1)) _ b2 Hwalk1 (or_introl eq_refl))
    as [st [b3 [nt [Hrun3 [Hg3 [_ [Halong Hbox]]]]]]].
  erewrite bind_normal by exact Hrun3. cbn [tlShapes tlTextBoxIndex] in Halong, Hbox.
  assert (Hvt : exists r b4,
             match vertical (tlShapes st) with
             | Some verticalShaping =>
                 addTextVertices cfg anchor verticalShaping (saTextAlongLine args)
                   (saFeature args) (saTextOffset args)
                   (lineVertexArray b, lineVertexCount anchor line) Vertical ["vertical"]
                   (tlPlacedTextSymbolIndices st) (ipVerticalPlacedIconSymbolIndex ip)
                   (saSizes args)
             | None => ret (0%Z, tlPlacedTextSymbolIndices st)
             end b3 = Normal (r, b4) /\ grows 0 b3 b4).
  { destruct (vertical (tlShapes st)).
    - now apply addTextVertices_completes.
    - eexists _, _. split; [reflexivity | apply grows_refl]. }
  destruct Hvt as [[numVerticalGlyphVertices placedTextSymbolIndices] [b4 [Hrun4 Hg4]]].
  erewrite bind_normal by exact Hrun4. cbv beta iota. rewrite bind_get.
  assert (Hgw : exists b5,
             (if (MAX_GLYPHS <=? glyphOffsetArray b4)%Z then warnOnce glyphWarning
              else ret tt) b4 = Normal (tt, b5) /\ grows 0 b4 b5).
  { destruct (MAX_GLYPHS <=? glyphOffsetArray b4)%Z.
    - destruct (warnOnce_spec glyphWarning b4) as [b5 [Hw [_ [_ Hs]]]].
      exists b5. split; [exact Hw | now apply sameButHistory_grows].
    - exists b4. split; [reflexivity | apply grows_refl]. }
  destruct Hgw as [b5 [Hrun5 Hg5]].
  erewrite bind_normal by exact Hrun5. rewrite bind_get.
  assert (Hsk : exists b6,
             match sortKey (saFeature args) with
             | Some k => addToSortKeyRanges (len (symbolInstances b5)) k
             | None => ret tt
             end b5 = Normal (tt, b6) /\ grows 0 b5 b6).
  { destruct (sortKey (saFeature args)).
    - eexists. split; [reflexivity | now apply grows_same].
    - exists b5. split; [reflexivity | apply grows_refl]. }
  destruct Hsk as [b6 [Hrun6 Hg6]].
  erewrite bind_normal by exact Hrun6. rewrite bind_modify.
  (* the bucket as the instance is written *)
  pose proof (grows_trans _ _ _ _ _ Hg0
               (grows_trans _ _ _ _ _ Hg1
                 (grows_trans _ _ _ _ _ Hg2
                   (grows_trans _ _ _ _ _ Hg3
                     (grows_trans _ _ _ _ _ Hg4
                       (grows_trans _ _ _ _ _ Hg5 Hg6)))))) as Hg.
  destruct Hg as [Hinst [Hct [boxes [Hlen Hcba]]]].
  pose proof (grows_len _ _ _ Hg0) as Hl0. rewrite Z.add_0_r in Hl0.
  pose proof (grows_len _ _ _ Hg1) as Hl1. rewrite Hl0 in Hl1.
  pose proof (grows_len _ _ _ Hg4) as Hl4. rewrite Z.add_0_r in Hl4.
  pose proof (grows_len _ _ _ Hg5) as Hl5. rewrite Z.add_0_r in Hl5.
  pose proof (grows_len _ _ _ Hg6) as Hl6. rewrite Z.add_0_r in Hl6.
  assert (Hicon : iconPresent sh1 = iconPresent sh) by (unfold iconPresent; now rewrite Hi1).
  rewrite Hicon in *. rewrite Hl0 in Hvtb, Hvib. rewrite Hl1 in Hip.
  assert (Hkeys : obj_keys (horizontal sh1) = [] <-> horizontal sh = [])
    by (rewrite Hh1; apply obj_keys_nil).
  (* the text's box *)
  assert (Htext : tlTextBoxIndex st
                  = (if textPresent args sh then Some (len (collisionBoxArray b6) - 1)%Z
                     else None)
                  /\ (boxCount (textPresent args sh) <= nt)%nat
                  /\ (textPresent args sh = false -> nt = 0%nat)).
  { unfold textPresent. destruct (saTextAlongLine args) eqn:Ea; cbn [negb andb boxCount].
    - destruct (Halong eq_refl) as [-> ->]. repeat split; lia.
    - destruct (Hbox eq_refl) as [_ [Hnil Hcons]].
      destruct (decide (horizontal sh = [])) as [Hempty | Hfull].
      + rewrite bool_decide_eq_true_2 by exact Hempty. cbn [negb boxCount].
        destruct (Hnil (proj2 Hkeys Hempty)) as [-> ->]. repeat split; lia.
      + rewrite bool_decide_eq_false_2 by exact Hfull. cbn [negb boxCount].
        destruct (Hcons (fun H => Hfull (proj1 Hkeys H))) as [-> Hnt].
        rewrite Hl6, Hl5, Hl4. repeat split; [exact (Hnt eq_refl) | discriminate]. }
  destruct Htext as [Htb [Hnt Hnt0]].
  eexists (tlShapes st), _, _, boxes. split; [reflexivity |].
  cbn [symbolInstances collisionBoxArray compareText set_symbolInstances].
  split; [now rewrite Hinst |]. split; [exact Hcba |]. split; [exact Hct |].
  split; [reflexivity |].
  split; [intros Ea; destruct (Hbox Ea) as [-> _]; now apply Hs1 |].
  cbv zeta.
  cbn [verticalTextBoxStartIndex verticalTextBoxEndIndex verticalIconBoxStartIndex
       verticalIconBoxEndIndex iconBoxStartIndex iconBoxEndIndex textBoxStartIndex
       textBoxEndIndex].
  rewrite Hvtb, Hvib, Hip, Htb.
  assert (HL0 : (0 <= len (collisionBoxArray b))%Z) by (unfold len; lia).
  repeat split.
  - destruct (verticalTextPresent cfg args sh); cbn [recordsRange definedOr]; split; lia.
  - destruct (verticalIconPresent cfg args sh); cbn [recordsRange truthyOr];
      [| split; reflexivity].
    destruct (len (collisionBoxArray b) + 1 =? 0)%Z eqn:E; [lia |]. split; lia.
  - destruct (iconPresent sh); cbn [recordsRange definedOr]; split; lia.
  - destruct (textPresent args sh); cbn [recordsRange definedOr]; split; lia.
  - lia.
  - intros Hno. specialize (Hnt0 Hno). lia.
Qed.

End AddSymbolSpec.

(** C4.  Every symbol instance that [addSymbol] writes records, for each
    absent category of collision primitive (text, vertical text, icon,
    vertical icon), the length of the collision-box store at the moment
    the instance is written, as start and as end, and for each present
    category the index of the box inserted for it and that index plus
    one.  The boxes of one call are inserted in the order vertical text,
    vertical icon, icon, text, after the [L0] boxes that the store held
    before the call. *)
Theorem symbol_instance_records_box_ranges `{C : Collaborators}
    (cfg : BucketConfig) (args : SymbolArgs) (anchor : Anchor) (globe : option Anchor)
    (line : list Point) (sh : Shapes) (b : Bucket) :
  sizesComplete cfg (saSizes args) ->
  walkable (horizontal sh) ->
  exists sh' b' inst,
    addSymbol cfg args anchor globe line sh b = Normal (sh', b')
    /\ symbolInstances b' = symbolInstances b ++ [inst]
    /\ let L0 := len (collisionBoxArray b) in
       let L := len (collisionBoxArray b') in
       let nv := Z.of_nat (boxCount (verticalTextPresent cfg args sh)
                           + boxCount (verticalIconPresent cfg args sh)) in
       let ni := Z.of_nat (boxCount (iconPresent sh)) in
       recordsRange (verticalTextPresent cfg args sh) L0 L
         (verticalTextBoxStartIndex inst) (verticalTextBoxEndIndex inst)
       /\ recordsRange (verticalIconPresent cfg args sh) (L0 + 1) L
            (verticalIconBoxStartIndex inst) (verticalIconBoxEndIndex inst)
       /\ recordsRange (iconPresent sh) (L0 + nv) L
            (iconBoxStartIndex inst) (iconBoxEndIndex inst)
       /\ recordsRange (textPresent args sh) (L - 1) L
            (textBoxStartIndex inst) (textBoxEndIndex inst)
       /\ (L0 + nv + ni + Z.of_nat (boxCount (textPresent args sh)) <= L)%Z
       /\ (textPresent args sh = false -> L = L0 + nv + ni)%Z.
Proof.
  intros Hsizes Hwalk.
  destruct (addSymbol_spec cfg args anchor globe line Hsizes sh b Hwalk)
    as [sh' [b' [inst [boxes [Hrun [Hinst [Hcba [_ [_ [_ Hranges]]]]]]]]]].
  exists sh', b', inst. split; [exact Hrun |]. split; [exact Hinst |].
  cbv zeta in *. destruct Hranges as [Hvt [Hvi [Hi [Ht [Hle Heq]]]]].
  assert (HL : len (collisionBoxArray b')
               = (len (collisionBoxArray b) + Z.of_nat (length boxes))%Z).
  { unfold len. rewrite Hcba, length_app. lia. }
  repeat split; try assumption.
  - rewrite HL. lia.
  - intros Hno. rewrite HL, (Heq Hno). lia.
Qed.

Lemma symbol_instance_records_box_ranges_witness :
  let cfg := Sample.sampleConfig (Sample.sampleLayout PlacePoint AlignAuto None 16)
               SizeSource [] in
  let feature := Sample.textFeature TypePoint [] "Cafe" in
  let args := mkSymbolArgs 2 false (0, 0) 16 2 false (0, 0) feature
                (layoutSizes cfg Sample.sampleTile) false false false in
  let sh := mkShapes [("center", Some (Sample.shaping "Cafe" 1))] None
              (Some (Sample.sample_shapeIcon None None (0, 0) AnchorCenter)) None in
  let b := emptyBucket [] in
  exists sh' b' inst,
    addSymbol cfg args (mkAnchor 10 10 0 0 None) None [] sh b = Normal (sh', b')
    /\ symbolInstances b' = [inst]
    /\ len (collisionBoxArray b') = 2%Z
    /\ (verticalTextBoxStartIndex inst, verticalTextBoxEndIndex inst) = (2, 2)%Z
    /\ (verticalIconBoxStartIndex inst, verticalIconBoxEndIndex inst) = (2, 2)%Z
    /\ (iconBoxStartIndex inst, iconBoxEndIndex inst) = (0, 1)%Z
    /\ (textBoxStartIndex inst, textBoxEndIndex inst) = (1, 2)%Z.
Proof.
  intros cfg feature args sh b.
  destruct (symbol_instance_records_box_ranges cfg args (mkAnchor 10 10 0 0 None) None []
              sh b) as [sh' [b' [inst [Hrun [Hinst _]]]]].
  - split; intros lo hi H; discriminate H.
  - right. exact I.
  - exists sh', b', inst. split; [exact Hrun |].
    vm_compute in Hrun. injection Hrun as <- <-.
    vm_compute in Hinst. injection Hinst as <-.
    repeat split.
Defined.

(** ** Anchors inside the tile *)

Section AnchorFacts.

Context `{C : Collaborators}.

Lemma inTile_guard (x y : Q) :
  Num.ltb x 0 || Num.geb x EXTENT || Num.ltb y 0 || Num.geb y EXTENT = negb (inTile x y).
Proof.
  unfold inTile, Num.ltb, Num.geb.
  destruct (Qle_bool 0 x), (Qle_bool EXTENT x), (Qle_bool 0 y), (Qle_bool EXTENT y);
    reflexivity.
Qed.

Lemma inTile_bounds (x y : Q) :
  inTile x y = true <-> (0 <= x /\ x < EXTENT) /\ (0 <= y /\ y < EXTENT).
Proof.
  unfold inTile. rewrite !andb_true_iff, !NumFacts.geb_le, !NumFacts.ltb_lt. tauto.
Qed.

(** A loop whose every iteration completes, keeps an invariant of the
    threaded value and appends to a projection of the bucket. *)
Lemma forEach_appends {A S X} (proj : Bucket -> list X) (P : S -> Prop) (g : A -> list X)
    (body : A -> S -> M S) (l : list A) :
  (forall x s b, In x l -> P s ->
     exists s' b', body x s b = Normal (s', b') /\ P s' /\ proj b' = proj b ++ g x) ->
  forall s b, P s ->
    exists s' b',
      forEach l body s b = Normal (s', b') /\ P s'
      /\ proj b' = proj b ++ concat (map g l).
Proof.
  induction l as [| x l IH]; intros Hbody s b Hs.
  - exists s, b. split; [reflexivity |]. split; [exact Hs |]. simpl. now rewrite app_nil_r.
  - destruct (Hbody x s b (or_introl eq_refl) Hs) as [s1 [b1 [Hrun1 [Hs1 Hp1]]]].
    destruct (IH (fun y s b Hy => Hbody y s b (or_intror Hy)) s1 b1 Hs1)
      as [s' [b' [Hrun [Hs' Hp]]]].
    exists s', b'. split; [| split; [exact Hs' |]].
    + cbn [forEach]. monad. now erewrite bind_normal by exact Hrun1.
    + rewrite Hp, Hp1. simpl. now rewrite app_assoc.
Qed.

Variable cfg : BucketConfig.
Variable tile : Tile.
Variable args : SymbolArgs.

Hypothesis sizes_complete : sizesComplete cfg (saSizes args).

(** [addSymbolAtAnchor] writes one symbol instance at an anchor inside
    the tile and nothing at an anchor outside of it. *)
Lemma addSymbolAtAnchor_spec line anchor sh b :
  walkable (horizontal sh) ->
  saTextAlongLine args = false ->
  exists b',
    addSymbolAtAnchor cfg tile args line anchor sh b = Normal (sh, b')
    /\ instanceAnchors b'
       = instanceAnchors b ++ (if inTile (ax anchor) (ay anchor)
                               then [(ax anchor, ay anchor)] else []).
Proof.
  intros Hwalk Halong. unfold addSymbolAtAnchor. rewrite inTile_guard.
  destruct (inTile (ax anchor) (ay anchor)); cbn [negb].
  - match goal with |- context [addSymbol _ _ _ ?g _ _ _] =>
      destruct (addSymbol_spec cfg args anchor g line sizes_complete sh b Hwalk)
        as [sh' [b' [inst [boxes [Hrun [Hinst [_ [_ [Hanchor [Hsame _]]]]]]]]]]
    end.
    exists b'. rewrite (Hsame Halong) in Hrun. split; [exact Hrun |].
    unfold instanceAnchors. rewrite Hinst, map_app. simpl. now rewrite Hanchor.
  - exists b. split; [reflexivity |]. now rewrite app_nil_r.
Qed.

End AnchorFacts.

Section PointPlacement.

Context `{C : Collaborators}.

Lemma insideTile_concat {A} (coordinates : A -> Q * Q) (l : list A) :
  concat (map (fun x => if inTile (fst (coordinates x)) (snd (coordinates x))
                        then [coordinates x] else []) l)
  = insideTile (map coordinates l).
Proof.
  unfold insideTile. induction l as [| x l IH]; simpl; [reflexivity |].
  rewrite IH. now destruct (inTile (fst (coordinates x)) (snd (coordinates x))).
Qed.

Lemma insideTile_app (l1 l2 : list (Q * Q)) :
  insideTile (l1 ++ l2) = insideTile l1 ++ insideTile l2.
Proof. unfold insideTile. apply List.filter_app. Qed.

Variable cfg : BucketConfig.
Variable tile : Tile.
Variable args : SymbolArgs.

Hypothesis sizes_complete : sizesComplete cfg (saSizes args).
Hypothesis not_along_line : saTextAlongLine args = false.

(** A loop that places one anchor per item, anchors that do not run along
    a line: the instances are written for the anchors inside the tile, in
    the items' order. *)
Lemma forEach_anchor {A} (lineOf : A -> list Point) (anchorOf : A -> Anchor)
    (l : list A) sh b :
  walkable (horizontal sh) ->
  exists b',
    forEach l (fun x sh => addSymbolAtAnchor cfg tile args (lineOf x) (anchorOf x) sh) sh b
    = Normal (sh, b')
    /\ instanceAnchors b'
       = instanceAnchors b
         ++ insideTile (map (fun x => (ax (anchorOf x), ay (anchorOf x))) l).
Proof.
  intros Hwalk.
  destruct (forEach_appends instanceAnchors (fun s => s = sh)
              (fun x => if inTile (ax (anchorOf x)) (ay (anchorOf x))
                        then [(ax (anchorOf x), ay (anchorOf x))] else [])
              (fun x sh => addSymbolAtAnchor cfg tile args (lineOf x) (anchorOf x) sh)
              l) with (s := sh) (b := b) as [s' [b' [Hrun [-> Hp]]]].
  - intros x s b0 _ ->.
    destruct (addSymbolAtAnchor_spec cfg tile args sizes_complete (lineOf x) (anchorOf x)
                sh b0 Hwalk not_along_line) as [b1 [Hrun1 Hp1]].
    exists sh, b1. now repeat split.
  - reflexivity.
  - exists b'. split; [exact Hrun |]. rewrite Hp.
    now rewrite (insideTile_concat (fun x => (ax (anchorOf x), ay (anchorOf x)))).
Qed.

(** Point placement of a feature with Point geometry. *)
Lemma placeFeature_points textMaxBoxScale symbolMinDistance textMaxAngle sh b :
  symbol_placement (layout cfg) = PlacePoint ->
  ftype (saFeature args) = TypePoint ->
  walkable (horizontal sh) ->
  exists b',
    placeFeature cfg tile args textMaxBoxScale symbolMinDistance textMaxAngle sh b
    = Normal (sh, b')
    /\ instanceAnchors b'
       = instanceAnchors b
         ++ insideTile (map pointCoordinates (concat (geometry (saFeature args)))).
Proof.
  intros Hplace Htype Hwalk. unfold placeFeature. rewrite Hplace, Htype.
  generalize (geometry (saFeature args)) as rings. intros rings. revert b.
  induction rings as [| points rings IH]; intros b.
  - exists b. split; [reflexivity |]. simpl. now rewrite app_nil_r.
  - destruct (forEach_anchor (fun point => [point])
                (fun point => mkAnchor (px point) (py point) 0 0 None) points sh b Hwalk)
      as [b1 [Hrun1 Hp1]].
    destruct (IH b1) as [b' [Hrun Hp]].
    exists b'. split.
    + cbn [forEach]. monad. now erewrite bind_normal by exact Hrun1.
    + rewrite Hp, Hp1. cbn [concat]. rewrite map_app, insideTile_app.
      now rewrite app_assoc.
Qed.

(** Point placement of a feature with Polygon geometry. *)
Lemma placeFeature_polygons textMaxBoxScale symbolMinDistance textMaxAngle sh b :
  symbol_placement (layout cfg) = PlacePoint ->
  ftype (saFeature args) = TypePolygon ->
  walkable (horizontal sh) ->
  exists b',
    placeFeature cfg tile args textMaxBoxScale symbolMinDistance textMaxAngle sh b
    = Normal (sh, b')
    /\ instanceAnchors b'
       = instanceAnchors b
         ++ insideTile
              (map (fun polygon => pointCoordinates (findPoleOfInaccessibility polygon 16))
                 (classifyRings (geometry (saFeature args)) 0)).
Proof.
  intros Hplace Htype Hwalk. unfold placeFeature. rewrite Hplace, Htype.
  apply (forEach_anchor (fun polygon => hd [] polygon)
           (fun polygon =>
              mkAnchor (px (findPoleOfInaccessibility polygon 16))
                (py (findPoleOfInaccessibility polygon 16)) 0 0 None)).
  exact Hwalk.
Qed.

End PointPlacement.

Section AddFeatureFacts.

Context `{C : Collaborators}.

(** [addFeature] is [placeFeature] on the feature's shapings, the icon
    fitted to the text, with the arguments that it computes from the
    layout; before that it may set [bucket.hasAnyIconTextFit]. *)
Lemma addFeature_run cfg tile feature orientations shapedIcon sizes layoutTextSize
    layoutIconSize textOffset isSDFIcon isUSVGIcon hasAnySecondaryIcon b :
  exists args textMaxBoxScale symbolMinDistance textMaxAngle sh b1,
    addFeature cfg tile feature orientations shapedIcon sizes layoutTextSize layoutIconSize
      textOffset isSDFIcon isUSVGIcon hasAnySecondaryIcon b
    = placeFeature cfg tile args textMaxBoxScale symbolMinDistance textMaxAngle sh b1
    /\ saFeature args = feature
    /\ saSizes args = sizes
    /\ saTextAlongLine args
       = is_map (text_rotation_alignment (layout cfg))
         && placement_includes_line (symbol_placement (layout cfg))
    /\ symbolMinDistance / 2 = textRepeatDistance cfg
    /\ horizontal sh = fst orientations
    /\ symbolInstances b1 = symbolInstances b
    /\ compareText b1 = compareText b
    /\ collisionBoxArray b1 = collisionBoxArray b.
Proof.
  unfold addFeature. monad. rewrite bind_get.
  match goal with |- context [bind (if ?c then _ else _) _ _] => destruct c end.
  - rewrite bind_modify. do 6 eexists. split; [reflexivity |].
    repeat split. destruct shapedIcon as [icon |]; [| reflexivity].
    now destruct (icon_text_fit (layout cfg) feature).
  - rewrite bind_ret. do 6 eexists. split; [reflexivity |].
    repeat split. destruct shapedIcon as [icon |]; [| reflexivity].
    now destruct (icon_text_fit (layout cfg) feature).
Qed.

End AddFeatureFacts.

(** ** Placement by geometry *)

(** C2.  For a feature with Point geometry on a layer with
    [symbol-placement] [point], [addFeature] writes one symbol instance
    for each point coordinate whose x and y both lie in [[0, EXTENT)], at
    that coordinate and in the points' order, and none for a coordinate
    outside: the number of instances written is the number of the
    coordinates inside the tile, and no coordinate is moved into range. *)
Theorem point_placement_instances_are_points_in_tile `{C : Collaborators}
    (cfg : BucketConfig) (tile : Tile) (feature : SymbolFeature)
    (orientations : HorizontalShapings * option Shaping)
    (shapedIcon : option PositionedIcon) (sizes : Sizes)
    (layoutTextSize layoutIconSize : Q) (textOffset : Q * Q)
    (isSDFIcon isUSVGIcon hasAnySecondaryIcon : bool) (b : Bucket) :
  symbol_placement (layout cfg) = PlacePoint ->
  ftype feature = TypePoint ->
  sizesComplete cfg sizes ->
  walkable (fst orientations) ->
  let inside := insideTile (map pointCoordinates (concat (geometry feature))) in
  exists sh' b',
    addFeature cfg tile feature orientations shapedIcon sizes layoutTextSize layoutIconSize
      textOffset isSDFIcon isUSVGIcon hasAnySecondaryIcon b
    = Normal (sh', b')
    /\ instanceAnchors b' = instanceAnchors b ++ inside
    /\ length (symbolInstances b') = (length (symbolInstances b) + length inside)%nat.
Proof.
  intros Hplace Htype Hsizes Hwalk inside.
  destruct (addFeature_run cfg tile feature orientations shapedIcon sizes layoutTextSize
              layoutIconSize textOffset isSDFIcon isUSVGIcon hasAnySecondaryIcon b)
    as [args [mbs [smd [tma [sh [b1 [Hrun [Hf [Hs [Ha [_ [Hh [Hi _]]]]]]]]]]]]].
  rewrite Hplace, andb_false_r in Ha. rewrite <- Hs in Hsizes. rewrite <- Hh in Hwalk.
  rewrite <- Hf in Htype.
  destruct (placeFeature_points cfg tile args Hsizes Ha mbs smd tma sh b1 Hplace Htype Hwalk)
    as [b' [Hrun' Hp]].
  exists sh, b'. rewrite Hrun. split; [exact Hrun' |].
  assert (Hanchors : instanceAnchors b' = instanceAnchors b ++ inside).
  { rewrite Hp. unfold instanceAnchors. now rewrite Hi, Hf. }
  split; [exact Hanchors |].
  apply (f_equal (@length _)) in Hanchors.
  unfold instanceAnchors in Hanchors. now rewrite length_app, !length_map in Hanchors.
Qed.

Lemma point_placement_instances_are_points_in_tile_witness :
  let points := [[mkPoint 10 10; mkPoint 9000 10; mkPoint (-5) 3; mkPoint 100 8191]] in
  let feature := Sample.textFeature TypePoint points "Cafe" in
  let cfg := Sample.sampleConfig (Sample.sampleLayout PlacePoint AlignAuto None 16)
               SizeSource [feature] in
  exists sh' b',
    addFeature cfg Sample.sampleTile feature
      ([("center", Some (Sample.shaping "Cafe" 1))], None) None
      (layoutSizes cfg Sample.sampleTile) 16 1 (0, 0) false false false (emptyBucket [])
    = Normal (sh', b')
    /\ instanceAnchors b' = [(10, 10); (100, 8191)]
    /\ length (symbolInstances b') = 2%nat.
Proof.
  intros points feature cfg.
  destruct (point_placement_instances_are_points_in_tile cfg Sample.sampleTile feature
              ([("center", Some (Sample.shaping "Cafe" 1))], None) None
              (layoutSizes cfg Sample.sampleTile) 16 1 (0, 0) false false false
              (emptyBucket [])) as [sh' [b' [Hrun [Hanchors Hlength]]]].
  - reflexivity.
  - reflexivity.
  - split; intros lo hi H; discriminate H.
  - left. reflexivity.
  - exists sh', b'. split; [exact Hrun |]. split; [exact Hanchors | exact Hlength].
Defined.

(** C6, as the code has it.  For a feature with Polygon geometry on a
    layer with [symbol-placement] [point], [addFeature] writes one symbol
    instance for each polygon that [classifyRings] returns whose pole of
    inaccessibility, computed with the precision argument 16, lies in
    [[0, EXTENT)] on both axes, at that pole and in the polygons' order,
    and none for a polygon whose pole is outside the tile. *)
Theorem polygon_point_placement_instances_are_poles_in_tile `{C : Collaborators}
    (cfg : BucketConfig) (tile : Tile) (feature : SymbolFeature)
    (orientations : HorizontalShapings * option Shaping)
    (shapedIcon : option PositionedIcon) (sizes : Sizes)
    (layoutTextSize layoutIconSize : Q) (textOffset : Q * Q)
    (isSDFIcon isUSVGIcon hasAnySecondaryIcon : bool) (b : Bucket) :
  symbol_placement (layout cfg) = PlacePoint ->
  ftype feature = TypePolygon ->
  sizesComplete cfg sizes ->
  walkable (fst orientations) ->
  let poles :=
    map (fun polygon => pointCoordinates (findPoleOfInaccessibility polygon 16))
      (classifyRings (geometry feature) 0) in
  exists sh' b',
    addFeature cfg tile feature orientations shapedIcon sizes layoutTextSize layoutIconSize
      textOffset isSDFIcon isUSVGIcon hasAnySecondaryIcon b
    = Normal (sh', b')
    /\ instanceAnchors b' = instanceAnchors b ++ insideTile poles
    /\ length (symbolInstances b')
       = (length (symbolInstances b) + length (insideTile poles))%nat.
Proof.
  intros Hplace Htype Hsizes Hwalk poles.
  destruct (addFeature_run cfg tile feature orientations shapedIcon sizes layoutTextSize
              layoutIconSize textOffset isSDFIcon isUSVGIcon hasAnySecondaryIcon b)
    as [args [mbs [smd [tma [sh [b1 [Hrun [Hf [Hs [Ha [_ [Hh [Hi _]]]]]]]]]]]]].
  rewrite Hplace, andb_false_r in Ha. rewrite <- Hs in Hsizes. rewrite <- Hh in Hwalk.
  rewrite <- Hf in Htype.
  destruct (placeFeature_polygons cfg tile args Hsizes Ha mbs smd tma sh b1 Hplace Htype
              Hwalk) as [b' [Hrun' Hp]].
  exists sh, b'. rewrite Hrun. split; [exact Hrun' |].
  assert (Hanchors : instanceAnchors b' = instanceAnchors b ++ insideTile poles).
  { rewrite Hp. unfold instanceAnchors. now rewrite Hi, Hf. }
  split; [exact Hanchors |].
  apply (f_equal (@length _)) in Hanchors.
  unfold instanceAnchors in Hanchors. now rewrite length_app, !length_map in Hanchors.
Qed.

Lemma polygon_point_placement_instances_are_poles_in_tile_witness :
  let square := [mkPoint 100 100; mkPoint 300 100; mkPoint 300 300; mkPoint 100 300;
                 mkPoint 100 100] in
  let feature := Sample.textFeature TypePolygon [square] "Park" in
  let cfg := Sample.sampleConfig (Sample.sampleLayout PlacePoint AlignAuto None 16)
               SizeConstant [feature] in
  exists sh' b',
    addFeature cfg Sample.sampleTile feature
      ([("center", Some (Sample.shaping "Park" 1))], None) None
      (layoutSizes cfg Sample.sampleTile) 16 1 (0, 0) false false false (emptyBucket [])
    = Normal (sh', b')
    /\ instanceAnchors b' = [(400 # 2, 400 # 2)]
    /\ length (symbolInstances b') = 1%nat.
Proof.
  intros square feature cfg.
  destruct (polygon_point_placement_instances_are_poles_in_tile cfg Sample.sampleTile
              feature ([("center", Some (Sample.shaping "Park" 1))], None) None
              (layoutSizes cfg Sample.sampleTile) 16 1 (0, 0) false false false
              (emptyBucket [])) as [sh' [b' [Hrun [Hanchors Hlength]]]].
  - reflexivity.
  - reflexivity.
  - split; intros lo hi H; discriminate H.
  - left. reflexivity.
  - exists sh', b'. split; [exact Hrun |]. split; [exact Hanchors | exact Hlength].
Defined.

(** C6, the claim as it is written, fails: a polygon feature that lies in
    the tile's overlap, left of the tile, has its pole of inaccessibility
    outside [[0, EXTENT)], and the layout writes no symbol instance for
    it. *)
Lemma polygon_outside_the_tile_has_no_instance :
  let square := [mkPoint (-300) 100; mkPoint (-100) 100; mkPoint (-100) 300;
                 mkPoint (-300) 300; mkPoint (-300) 100] in
  let feature := Sample.textFeature TypePolygon [square] "Park" in
  let cfg := Sample.sampleConfig (Sample.sampleLayout PlacePoint AlignAuto None 16)
               SizeConstant [feature] in
  pointCoordinates (findPoleOfInaccessibility [square] 16) = (-400 # 2, 400 # 2)
  /\ option_map (fun b => length (symbolInstances b))
       (bucketOf (performSymbolLayout cfg Sample.sampleTile (emptyBucket [])))
     = Some 0%nat
  /\ 0%nat <> 1%nat.
Proof. split; [reflexivity |]. split; [reflexivity | discriminate]. Qed.

(** C7, as the code has it.  For [symbol-placement] [line] the feature's
    geometry is clipped against the rectangle from [(0, 0)] to
    [(EXTENT, EXTENT)], the tile itself, which extends beyond the tile on
    no side, and the anchors are enumerated on the clipped lines, line by
    line. *)
Theorem line_placement_clips_to_the_tile_rectangle `{C : Collaborators}
    (cfg : BucketConfig) (tile : Tile) (args : SymbolArgs)
    (textMaxBoxScale symbolMinDistance textMaxAngle : Q) (sh : Shapes) :
  symbol_placement (layout cfg) = PlaceLine ->
  placeFeature cfg tile args textMaxBoxScale symbolMinDistance textMaxAngle sh
  = forEach (clipLine (geometry (saFeature args)) (mkClipRegion 0 0 EXTENT EXTENT))
      (placeAlongLine cfg tile args textMaxBoxScale symbolMinDistance textMaxAngle) sh
  /\ ~ expandsTile (mkClipRegion 0 0 EXTENT EXTENT).
Proof.
  intros Hplace. split.
  - unfold placeFeature. now rewrite Hplace.
  - intros [H _]. exact (Qlt_irrefl 0 H).
Qed.

Lemma line_placement_clips_to_the_tile_rectangle_witness :
  let street := [mkPoint 10 10; mkPoint 20 10; mkPoint 500 10] in
  let feature := Sample.textFeature TypeLineString [street] "Main St" in
  let cfg := Sample.sampleConfig (Sample.sampleLayout PlaceLine AlignMap None 16)
               SizeConstant [feature] in
  let args := mkSymbolArgs 2 true (0, 0) 16 2 true (0, 0) feature
                (layoutSizes cfg Sample.sampleTile) false false false in
  let sh := mkShapes [("center", Some (Sample.shaping "Main St" 1))] None None None in
  placeFeature cfg Sample.sampleTile args 16 250 1 sh
  = forEach (clipLine [street] (mkClipRegion 0 0 8192 8192))
      (placeAlongLine cfg Sample.sampleTile args 16 250 1) sh
  /\ ~ expandsTile (mkClipRegion 0 0 8192 8192).
Proof.
  intros street feature cfg args sh.
  exact (line_placement_clips_to_the_tile_rectangle cfg Sample.sampleTile args 16 250 1 sh
           eq_refl).
Defined.

(** C7, the claim as it is written, fails: the rectangle that [addFeature]
    hands to the line clipper is the tile's, with no buffer on any side,
    and a line that lies in the tile's overlap just right of the tile is
    clipped away before any anchor is enumerated. *)
Lemma line_clip_region_is_not_expanded :
  let street := [mkPoint 8200 10; mkPoint 8300 10] in
  let feature := Sample.textFeature TypeLineString [street] "Main St" in
  let cfg := Sample.sampleConfig (Sample.sampleLayout PlaceLine AlignMap None 16)
               SizeConstant [feature] in
  lineClipRegion = mkClipRegion 0 0 8192 8192
  /\ ~ expandsTile lineClipRegion
  /\ clipLine (geometry feature) lineClipRegion = []
  /\ option_map (fun b => map_to_list (compareText b))
       (bucketOf (performSymbolLayout cfg Sample.sampleTile (emptyBucket [])))
     = Some [].
Proof.
  split; [reflexivity |]. split; [| split; reflexivity].
  intros [H _]. exact (Qlt_irrefl 0 H).
Qed.

(** ** Properties that the layout keeps *)

Section Preserves.

Variable P : Bucket -> Prop.

Lemma preserves_ret {A} (a : A) : preserves P (ret a).
Proof. intros b a' b' Hb H. injection H as _ <-. exact Hb. Qed.

Lemma preserves_throw {A} : preserves P (@throw A).
Proof. intros b a b' _ H. discriminate H. Qed.

Lemma preserves_get : preserves P get.
Proof. intros b a b' Hb H. injection H as _ <-. exact Hb. Qed.

Lemma preserves_modify (f : Bucket -> Bucket) :
  (forall b, P b -> P (f b)) -> preserves P (modify f).
Proof. intros Hf b a b' Hb H. injection H as _ <-. now apply Hf. Qed.

Lemma preserves_bind {A B} (m : M A) (k : A -> M B) :
  preserves P m -> (forall a, preserves P (k a)) -> preserves P (bind m k).
Proof.
  intros Hm Hk b r b' Hb H. unfold bind in H.
  destruct (m b) as [[a b1] |] eqn:E; [| discriminate H].
  exact (Hk a b1 r b' (Hm b a b1 Hb E) H).
Qed.

Lemma preserves_forEach {A S} (l : list A) (body : A -> S -> M S) :
  (forall x s, preserves P (body x s)) -> forall s, preserves P (forEach l body s).
Proof.
  intros Hbody. induction l as [| x l IH]; intros s; cbn [forEach].
  - apply preserves_ret.
  - apply preserves_bind; [apply Hbody | exact IH].
Qed.

End Preserves.

(** One step of a proof that a computation keeps a property: the rule of
    the computation's head. *)
Ltac preserves_step :=
  lazymatch goal with
  | |- preserves _ (ret _) => apply preserves_ret
  | |- preserves _ throw => apply preserves_throw
  | |- preserves _ get => apply preserves_get
  | |- preserves _ (bind _ _) => apply preserves_bind; [| intros ?]
  | |- preserves _ (forEach _ _ _) => apply preserves_forEach; intros ? ?
  | |- preserves _ (match ?x with _ => _ end) => destruct x
  end.

(** The rule of the head of a computation, or one of the frame rules in
    the context for a write to the bucket: a write that leaves the text
    registry and the symbol instances as they are, or one that appends a
    symbol instance. *)
Ltac frame_step :=
  first
    [ preserves_step
    | match goal with
      | H : forall f, _ -> preserves ?P (modify f) |- preserves ?P (modify _) =>
          apply H; intros; cbv zeta;
          first [ split; reflexivity
                | split; [reflexivity | eexists; reflexivity] ]
      end ].

Section Frame.

Context `{C : Collaborators}.

(** A property of the bucket that the writes of the layout keep. *)
Variable P : Bucket -> Prop.

Hypothesis P_frame :
  forall f,
    (forall b, compareText (f b) = compareText b
               /\ symbolInstances (f b) = symbolInstances b) ->
    preserves P (modify f).

Hypothesis P_instance :
  forall f,
    (forall b, compareText (f b) = compareText b
               /\ exists inst, symbolInstances (f b) = symbolInstances b ++ [inst]) ->
    preserves P (modify f).

Lemma warnOnce_registry message : preserves P (warnOnce message).
Proof.
  unfold warnOnce. apply P_frame. intros b.
  now destruct (existsb (String.eqb message) (warnOnceHistory b)).
Qed.

Lemma packSizes_registry cfg property sizeData layoutSize compositeSizes scale feature :
  preserves P (packSizes cfg property sizeData layoutSize compositeSizes scale feature).
Proof.
  unfold packSizes. monad.
  repeat first [ apply warnOnce_registry | frame_step ].
Qed.

Lemma addSymbols_registry arrays p : preserves P (addSymbols arrays p).
Proof. unfold addSymbols. apply P_frame. intros b. now destruct arrays. Qed.

Lemma addTextVertices_registry cfg tileAnchor shapedText textAlongLine feature textOffset
    lineArray writingMode placementTypes indices placedIconIndex sizes :
  preserves P (addTextVertices cfg tileAnchor shapedText textAlongLine feature textOffset
                 lineArray writingMode placementTypes indices placedIconIndex sizes).
Proof.
  unfold addTextVertices. monad.
  repeat first [ apply packSizes_registry | apply addSymbols_registry | frame_step ].
Qed.

Lemma evaluateBoxCollisionFeature_registry projectedAnchor tileAnchor fi sli bi shaped
    padding rotate textOffset iconScaledSize :
  preserves P (evaluateBoxCollisionFeature projectedAnchor tileAnchor fi sli bi shaped
                 padding rotate textOffset iconScaledSize).
Proof. unfold evaluateBoxCollisionFeature. monad. repeat frame_step. Qed.

Section Symbol.

Variable cfg : BucketConfig.
Variable args : SymbolArgs.
Variable anchor : Anchor.
Variable globe : option Anchor.
Variable line : list Point.

Lemma textCollision_registry justification shaping st :
  preserves P (textCollision cfg args anchor globe justification shaping st).
Proof.
  unfold textCollision. monad.
  repeat first [ apply evaluateBoxCollisionFeature_registry | frame_step ].
Qed.

Lemma horizontalLoop_registry lineArray placedIconSymbolIndex keys :
  forall st,
    preserves P (horizontalLoop cfg args anchor globe lineArray placedIconSymbolIndex
                   keys st).
Proof.
  induction keys as [| justification rest IH]; intros st; cbn [horizontalLoop]; monad.
  - apply preserves_ret.
  - repeat first [ apply textCollision_registry | apply addTextVertices_registry
                 | apply IH | frame_step ].
Qed.

Lemma verticalCollision_registry sh :
  preserves P (verticalCollision cfg args anchor globe sh).
Proof.
  unfold verticalCollision. monad.
  repeat first [ apply evaluateBoxCollisionFeature_registry | frame_step ].
Qed.

Lemma placeIcon_registry lineArray sh :
  preserves P (placeIcon cfg args anchor globe lineArray sh).
Proof.
  unfold placeIcon. monad.
  repeat first [ apply evaluateBoxCollisionFeature_registry | apply packSizes_registry
               | apply addSymbols_registry | frame_step ].
Qed.


End Symbol.

Section Feature.

Variable cfg : BucketConfig.
Variable tile : Tile.

(** The registry's property is kept by [anchorIsTooClose] at the repeat
    distance of the bucket. *)
Hypothesis anchorIsTooClose_registry :
  forall text anchor, preserves P (anchorIsTooClose text (textRepeatDistance cfg) anchor).







Lemma shapeFeatureIcon_registry sizes feature :
  preserves P (shapeFeatureIcon cfg tile sizes feature).
Proof.
  unfold shapeFeatureIcon. monad.
  repeat first [ apply warnOnce_registry | frame_step ].
Qed.


End Feature.

End Frame.

(** ** The registry of rendered texts *)




Lemma withinRepeatDistance_false anchor r others :
  withinRepeatDistance anchor r others = false ->
  forall other, In other others -> distLess anchor other r = false.
Proof.
  induction others as [| o others IH]; simpl; [contradiction |].
  destruct (distLess anchor o r) eqn:E; [discriminate |].
  intros Hrest other [<- | Hin]; [exact E | now apply IH].
Qed.




Lemma withinRepeatDistance_true anchor r others :
  withinRepeatDistance anchor r others = true <->
  exists other, In other others /\ distLess anchor other r = true.
Proof.
  induction others as [| o others IH]; simpl.
  - split; [discriminate | intros [other [[] _]]].
  - destruct (distLess anchor o r) eqn:E.
    + split; [intros _; exists o; auto | reflexivity].
    + rewrite IH. split.
      * intros [other [Hin Hd]]. exists other. auto.
      * intros [other [[<- | Hin] Hd]]; [congruence | exists other; auto].
Qed.

(** A candidate anchor is rejected, and the bucket left as it is, exactly
    when an anchor registered under the same text is within the repeat
    distance; otherwise it is registered after the others. *)
Lemma anchorIsTooClose_decision `{C : Collaborators} text r anchor others b :
  compareText b !! text = Some others ->
  (exists other, In other others /\ distLess anchor other r = true)
    /\ anchorIsTooClose text r anchor b = Normal (true, b)
  \/ (forall other, In other others -> distLess anchor other r = false)
    /\ anchorIsTooClose text r anchor b
       = Normal (false, set_compareText (<[text := others ++ [anchor]]> (compareText b)) b).
Proof.
  intros Hlookup. unfold anchorIsTooClose. monad. rewrite bind_get, Hlookup.
  destruct (withinRepeatDistance anchor r (rev others)) eqn:Escan.
  - left. split; [| reflexivity].
    apply withinRepeatDistance_true in Escan as [other [Hin Hd]].
    exists other. split; [now apply in_rev | exact Hd].
  - right. split; [| reflexivity].
    intros other Hin. apply (withinRepeatDistance_false anchor r (rev others) Escan).
    now apply in_rev in Hin.
Qed.



(** ** Independence from the message history *)











Section Oblivious.

Context `{C : Collaborators}.






Section Symbol.

Variable cfg : BucketConfig.
Variable args : SymbolArgs.
Variable anchor : Anchor.
Variable globe : option Anchor.
Variable line : list Point.






End Symbol.

End Oblivious.

Section ObliviousLayout.

Context `{C : Collaborators}.

Variable cfg : BucketConfig.
Variable tile : Tile.











End ObliviousLayout.




(** ** What the feature loop hands to [addFeature] *)

Lemma obj_keys_In {V} (k : string) (o : JsObject V) :
  In k (obj_keys o) <-> is_Some (obj_get k o).
Proof.
  induction o as [| [k' v] o IH]; simpl.
  - split; [contradiction | intros [? H]; discriminate H].
  - destruct (String.eqb k k') eqn:E.
    + apply String.eqb_eq in E. subst. split; [eauto | auto].
    + apply String.eqb_neq in E. rewrite <- IH. split; [intros [? | ?] |]; auto.
      congruence.
Qed.

(** Sufficient for walking the keys: every key reads a shaping, or the
    keys up to some key do and that key reads a shaping of one line. *)
Lemma walkableKeys_defined (h : HorizontalShapings) keys :
  (forall k, In k keys -> is_Some (horizontal_get k h)) -> walkableKeys h keys.
Proof.
  induction keys as [| k keys IH]; intros Hall; simpl; [trivial |].
  destruct (Hall k (or_introl eq_refl)) as [s ->]. right.
  apply IH. intros k' Hk'. apply Hall. now right.
Qed.

Lemma walkableKeys_single_line (h : HorizontalShapings) before k after s :
  (forall k', In k' before -> is_Some (horizontal_get k' h)) ->
  horizontal_get k h = Some s ->
  length (positionedLines s) = 1%nat ->
  walkableKeys h (before ++ k :: after).
Proof.
  intros Hbefore Hk Hline. induction before as [| k0 before IH]; simpl.
  - rewrite Hk. now left.
  - destruct (Hbefore k0 (or_introl eq_refl)) as [s0 ->]. right.
    apply IH. intros k' Hk'. apply Hbefore. now right.
Qed.

(** What the loop over the justifications keeps: while no single line has
    been shaped every key holds a shaping, and afterwards the keys up to
    the single line's key do. *)
Lemma shapeJustifications_keeps_walkable shape justifications :
  forall (singleLine : bool) (h : HorizontalShapings),
    (if singleLine
     then exists before k after s,
            obj_keys h = before ++ k :: after
            /\ (forall k', In k' before -> is_Some (horizontal_get k' h))
            /\ horizontal_get k h = Some s
            /\ length (positionedLines s) = 1%nat
     else forall k, In k (obj_keys h) -> is_Some (horizontal_get k h)) ->
    walkable (shapeJustifications shape justifications singleLine h).
Proof.
  induction justifications as [| j rest IH]; intros singleLine h Hinv.
  - cbn [shapeJustifications]. unfold walkable. destruct singleLine.
    + destruct Hinv as [before [k [after [s [-> [Hb [Hk Hl]]]]]]].
      now apply walkableKeys_single_line with (s := s).
    + now apply walkableKeys_defined.
  - cbn [shapeJustifications].
    destruct (horizontal_get (justifyKey j) h) as [s0 |] eqn:Hj; [now apply IH |].
    destruct singleLine.
    + (* the other justifications are bound to the value of the key 0 *)
      apply IH. destruct Hinv as [before [k [after [s [Hkeys [Hb [Hk Hl]]]]]]].
      assert (Hne : forall k', is_Some (horizontal_get k' h) -> justifyKey j <> k').
      { intros k' [s' Hs'] <-. congruence. }
      exists before, k,
        (match obj_get (justifyKey j) h with
         | Some _ => after
         | None => after ++ [justifyKey j]
         end), s.
      split; [| split; [| split; [| exact Hl]]].
      * rewrite obj_keys_set, Hkeys. destruct (obj_get (justifyKey j) h); [reflexivity |].
        now rewrite <- app_assoc.
      * intros k' Hk'. rewrite horizontal_get_set_ne; [now apply Hb |].
        apply Hne. now apply Hb.
      * rewrite horizontal_get_set_ne; [exact Hk |]. apply Hne. eauto.
    + destruct (shape j) as [s |] eqn:Hshape; [| now apply IH].
      assert (Hfresh : obj_get (justifyKey j) h = None).
      { destruct (obj_get (justifyKey j) h) eqn:E; [| reflexivity].
        assert (Hin : In (justifyKey j) (obj_keys h)) by (apply obj_keys_In; eauto).
        destruct (Hinv _ Hin) as [s' Hs']. congruence. }
      assert (Hold : forall k, In k (obj_keys h) ->
                is_Some (horizontal_get k (obj_set (justifyKey j) (Some s) h))).
      { intros k Hk. rewrite horizontal_get_set_ne; [now apply Hinv |].
        intros <-. apply obj_keys_In in Hk as [? Hk]. congruence. }
      apply IH. destruct (length (positionedLines s) =? 1)%nat eqn:Hline.
      * exists (obj_keys h), (justifyKey j), [], s.
        split; [now rewrite obj_keys_set, Hfresh |].
        split; [exact Hold |].
        split; [apply horizontal_get_set_eq | now apply Nat.eqb_eq].
      * intros k Hk. rewrite obj_keys_set, Hfresh in Hk.
        apply in_app_or in Hk as [Hk | [<- | []]]; [now apply Hold |].
        rewrite horizontal_get_set_eq. eauto.
Qed.

Section FeatureLoopFacts.

Context `{C : Collaborators}.

Variable cfg : BucketConfig.
Variable tile : Tile.

(** The sizes that [performSymbolLayout] computes hold the composite
    sizes of a composite size kind. *)
Lemma layoutSizes_complete : sizesComplete cfg (layoutSizes cfg tile).
Proof.
  unfold sizesComplete, layoutSizes. cbn [compositeTextSizes compositeIconSizes].
  split; intros lo hi ->; discriminate.
Qed.

(** The horizontal shapings that the text block of the feature loop
    computes can be walked by the loop of [addSymbol], also when the
    justifications after a single line have been bound to [undefined]. *)
Lemma shapeFeatureText_walkable feature text layoutTextSize layoutTextSizeThisZoom :
  walkable
    (fst (fst (fst (shapeFeatureText cfg feature text layoutTextSize
                      layoutTextSizeThisZoom)))).
Proof.
  unfold shapeFeatureText.
  destruct (if layoutTextAlongLine cfg then None else text_variable_anchor (layout cfg))
    as [variableTextAnchor |]; cbn [fst].
  - apply shapeJustifications_keeps_walkable. intros k [].
  - match goal with |- walkable (if ?c then _ else _) => destruct c end;
      [| exact I].
    match goal with |- walkable (match ?s with _ => _ end) => destruct s end;
      [| exact I].
    unfold walkable. cbn [obj_keys map fst walkableKeys].
    unfold horizontal_get. cbn [obj_get]. rewrite String.eqb_refl. now right.
Qed.

(** Moving the default shaping next to the icon keeps the shapings
    walkable. *)
Lemma updateDefaultShaping_walkable f (o : HorizontalShapings * option Shaping) :
  (forall s, length (positionedLines (f s)) = length (positionedLines s)) ->
  walkable (fst o) -> walkable (fst (updateDefaultShaping f o)).
Proof.
  intros Hf. unfold updateDefaultShaping.
  destruct o as [[| [k [d |]] rest] v]; cbn [fst snd]; try tauto.
  unfold walkable. cbn [obj_keys map fst].
  intros Hwalk.
  assert (Hset : (k, Some (f d)) :: rest = obj_set k (Some (f d)) ((k, Some d) :: rest))
    by (cbn [obj_set]; now rewrite String.eqb_refl).
  rewrite Hset. apply walkableKeys_set with (s := d); [| apply Hf | exact Hwalk].
  unfold horizontal_get. cbn [obj_get]. now rewrite String.eqb_refl.
Qed.

Lemma shapedIconText_lines s icon a layoutTextSize layoutIconSize :
  length (positionedLines (shapedIconText ONE_EM s icon a layoutTextSize layoutIconSize))
  = length (positionedLines s).
Proof.
  unfold shapedIconText. destruct icon; [| reflexivity].
  cbn [positionedLines set_positionedLines]. apply length_map.
Qed.

(** The icon block completes and writes neither symbol instances nor
    collision boxes nor the text registry. *)
Lemma shapeFeatureIcon_run sizes feature b :
  exists r b1,
    shapeFeatureIcon cfg tile sizes feature b = Normal (r, b1) /\ grows 0 b b1.
Proof.
  unfold shapeFeatureIcon.
  destruct (ficon feature) as [icon |];
    [| eexists _, _; split; [reflexivity | apply grows_refl]].
  destruct (nonEmpty (namePrimary icon));
    [| eexists _, _; split; [reflexivity | apply grows_refl]].
  match goal with |- context [match imageMap tile ?k with _ => _ end] =>
    destruct (imageMap tile k) as [image |]
  end; [| eexists _, _; split; [reflexivity | apply grows_refl]].
  monad. rewrite bind_get.
  assert (Hsdf : exists b1,
            match sdfIcons b with
            | Some s => if negb (Bool.eqb s (sdf image)) then warnOnce sdfWarning else ret tt
            | None => modify (set_sdfIcons (Some (sdf image)))
            end b = Normal (tt, b1) /\ grows 0 b b1).
  { destruct (sdfIcons b) as [s |].
    - destruct (negb (Bool.eqb s (sdf image))).
      + destruct (warnOnce_spec sdfWarning b) as [b1 [Hw [_ [_ Hs]]]].
        exists b1. split; [exact Hw | now apply sameButHistory_grows].
      + exists b. split; [reflexivity | apply grows_refl].
    - eexists. split; [reflexivity | now apply grows_same]. }
  destruct Hsdf as [b1 [Hrun1 Hg1]]. erewrite bind_normal by exact Hrun1.
  match goal with |- context [bind (if ?c then _ else _) _ b1] => destruct c end.
  - rewrite bind_modify. eexists _, _. split; [reflexivity |].
    apply (grows_trans 0 0 _ _ _ Hg1). now apply grows_same.
  - match goal with |- context [bind (if ?c then _ else _) _ b1] => destruct c end.
    + rewrite bind_modify. eexists _, _. split; [reflexivity |].
      apply (grows_trans 0 0 _ _ _ Hg1). now apply grows_same.
    + rewrite bind_ret. eexists _, _. split; [reflexivity | exact Hg1].
Qed.

(** The layout of one feature: a feature without a shaped text and
    without a shaped icon is skipped, and every other feature goes to
    [addFeature], with horizontal shapings that the loop of [addSymbol]
    can walk. *)
Lemma layoutFeature_run sizes hasAnySecondaryIcon feature b :
  exists b1,
    grows 0 b b1
    /\ (layoutFeature cfg tile sizes hasAnySecondaryIcon feature b = Normal (tt, b1)
        \/ exists orientations shapedIcon layoutTextSize layoutIconSize textOffset
                  isSDFIcon isUSVGIcon,
             layoutFeature cfg tile sizes hasAnySecondaryIcon feature b
             = bind (addFeature cfg tile feature orientations shapedIcon sizes layoutTextSize
                       layoutIconSize textOffset isSDFIcon isUSVGIcon hasAnySecondaryIcon)
                 (fun _ => ret tt) b1
             /\ walkable (fst orientations)).
Proof.
  unfold layoutFeature.
  set (lts := number (layoutTextSize sizes feature) * textScaleFactor sizes).
  set (lis := number (layoutIconSize sizes feature) * iconScaleFactor sizes).
  set (ltz := text_size (layout cfg) feature * textScaleFactor sizes).
  assert (Hshaped : exists h v textOffset imageTextAnchor,
            match ftext feature with
            | Some text => shapeFeatureText cfg feature text lts ltz
            | None => ([], None, (0, 0), None)
            end = (h, v, textOffset, imageTextAnchor) /\ walkable h).
  { destruct (ftext feature) as [text |].
    - pose proof (shapeFeatureText_walkable feature text lts ltz) as Hw.
      destruct (shapeFeatureText cfg feature text lts ltz) as [[[h v] o] a].
      now exists h, v, o, a.
    - now exists [], None, (0, 0), None. }
  destruct Hshaped as [h [v [textOffset [imageTextAnchor [-> Hwalk]]]]].
  monad.
  destruct (shapeFeatureIcon_run sizes feature b) as [[[icon isSDF] isUSVG] [b1 [Hrun1 Hg1]]].
  erewrite bind_normal by exact Hrun1. cbv beta iota. rewrite bind_get.
  assert (Hflag : exists b2,
            (if negb (iconsInText b1)
             then modify (set_iconsInText
                            match defaultShaping (mkShapes h v None None) with
                            | Some s => siconsInText s
                            | None => false
                            end)
             else ret tt) b1 = Normal (tt, b2) /\ grows 0 b1 b2).
  { destruct (negb (iconsInText b1)).
    - eexists. split; [reflexivity | now apply grows_same].
    - exists b1. split; [reflexivity | apply grows_refl]. }
  destruct Hflag as [b2 [Hrun2 Hg2]]. erewrite bind_normal by exact Hrun2.
  exists b2. split; [exact (grows_trans 0 0 _ _ _ Hg1 Hg2) |].
  destruct (defaultShaping (mkShapes h v None None)) as [shapedText |] eqn:Hdefault.
  - right. do 7 eexists. split; [reflexivity |].
    destruct imageTextAnchor as [a |]; [| exact Hwalk].
    apply updateDefaultShaping_walkable; [| exact Hwalk].
    intros s. apply shapedIconText_lines.
  - destruct icon as [icon |].
    + right. do 7 eexists. split; [reflexivity |].
      destruct imageTextAnchor as [a |]; exact Hwalk.
    + left. now destruct imageTextAnchor.
Qed.

End FeatureLoopFacts.
From Stdlib Require Import Lqa Sorted.

(** * Further properties *)

(** ** Variable offsets *)

Lemma sqrt2_pos : 0 < sqrt2.
Proof. reflexivity. Qed.

Lemma Qabs_opp_eq (x : Q) : Qabs (- x) = Qabs x.
Proof. destruct x as [n d]. unfold Qabs, Qopp. cbn. now rewrite Z.abs_opp. Qed.

(** X1.  [evaluateVariableOffset] is symmetric: for the anchor mirrored
    left to right the offset has the opposite horizontal component and the
    same vertical one, and for the anchor mirrored top to bottom it has
    the same horizontal component and the opposite vertical one, for
    radial offsets and for two-dimensional text offsets alike. *)
Theorem evaluateVariableOffset_mirrors (anchor : TextAnchor) (offset : Q * ExtNum) :
  fst (evaluateVariableOffset (mirrorLeftRight anchor) offset)
    == - fst (evaluateVariableOffset anchor offset)
  /\ snd (evaluateVariableOffset (mirrorLeftRight anchor) offset)
     == snd (evaluateVariableOffset anchor offset)
  /\ fst (evaluateVariableOffset (mirrorTopBottom anchor) offset)
     == fst (evaluateVariableOffset anchor offset)
  /\ snd (evaluateVariableOffset (mirrorTopBottom anchor) offset)
     == - snd (evaluateVariableOffset anchor offset).
Proof.
  destruct offset as [offsetX [offsetY |]]; destruct anchor;
    cbn [evaluateVariableOffset mirrorLeftRight mirrorTopBottom fst snd];
    repeat split; ring.
Qed.

Lemma radial_offset_nonneg (offsetX : Q) : 0 <= (if Num.ltb offsetX 0 then 0 else offsetX).
Proof.
  destruct (Num.ltb offsetX 0) eqn:E; [apply Qle_refl |].
  now apply NumFacts.ltb_ge in E.
Qed.

Lemma hypotenuse_nonneg (r : Q) : 0 <= r -> 0 <= r / sqrt2.
Proof.
  intros Hr. apply Qle_shift_div_l; [apply sqrt2_pos |]. now rewrite Qmult_0_l.
Qed.

(** X2.  The horizontal component of a variable offset points the way the
    anchor's justification says: not to the left for an anchor that
    justifies the text to the left, not to the right for one that
    justifies it to the right, and nowhere for one that centres it. *)
Theorem variable_offset_follows_the_justification (anchor : TextAnchor)
    (offset : Q * ExtNum) :
  match getAnchorJustification anchor with
  | JustifyLeft => 0 <= fst (evaluateVariableOffset anchor offset)
  | JustifyRight => fst (evaluateVariableOffset anchor offset) <= 0
  | JustifyCenter => fst (evaluateVariableOffset anchor offset) == 0
  end.
Proof.
  destruct offset as [offsetX [offsetY |]].
  - pose proof (Qabs_nonneg offsetX) as Habs.
    destruct anchor; cbn [evaluateVariableOffset getAnchorJustification fst Num.abs];
      unfold Num.abs; lra.
  - pose proof (radial_offset_nonneg offsetX) as Hr.
    pose proof (hypotenuse_nonneg _ Hr) as Hh.
    destruct anchor; cbn [evaluateVariableOffset getAnchorJustification fst]; lra.
Qed.

(** X3.  A negative radial offset is ignored: it gives the offset of a
    radial offset of zero, for every anchor. *)
Theorem negative_radial_offset_is_ignored (anchor : TextAnchor) (radialOffset : Q) :
  radialOffset < 0 ->
  evaluateVariableOffset anchor (radialOffset, INVALID_TEXT_OFFSET)
  = evaluateVariableOffset anchor (0, INVALID_TEXT_OFFSET).
Proof.
  intros Hneg. apply NumFacts.ltb_lt in Hneg.
  unfold evaluateVariableOffset, INVALID_TEXT_OFFSET. now rewrite Hneg.
Qed.

Lemma negative_radial_offset_is_ignored_witness :
  evaluateVariableOffset AnchorTopLeft (-3, INVALID_TEXT_OFFSET)
  = evaluateVariableOffset AnchorTopLeft (0, INVALID_TEXT_OFFSET).
Proof. apply (negative_radial_offset_is_ignored AnchorTopLeft (-3)). reflexivity. Defined.

(** X4.  For a two-dimensional text offset only the magnitudes count: the
    sign of either component makes no difference to the result, the
    direction comes from the anchor alone. *)
Theorem text_offset_signs_are_ignored (anchor : TextAnchor) (x y : Q) :
  evaluateVariableOffset anchor (- x, Finite y) = evaluateVariableOffset anchor (x, Finite y)
  /\ evaluateVariableOffset anchor (x, Finite (- y))
     = evaluateVariableOffset anchor (x, Finite y).
Proof.
  unfold evaluateVariableOffset, Num.abs. now rewrite !Qabs_opp_eq.
Qed.

(** ** The tile pixel ratio for the symbol spacing *)

Lemma max_mono_l (a a' c : Q) : a <= a' -> Num.max a c <= Num.max a' c.
Proof.
  intros Hle. unfold Num.max.
  destruct (Num.ltb a c) eqn:E1; destruct (Num.ltb a' c) eqn:E2;
    try apply NumFacts.ltb_lt in E1; try apply NumFacts.ltb_ge in E1;
    try apply NumFacts.ltb_lt in E2; try apply NumFacts.ltb_ge in E2; lra.
Qed.

Lemma toInt32_small (z : Z) : (- 2147483648 <= z < 2147483648)%Z -> toInt32 z = z.
Proof.
  intros Hz. unfold toInt32. rewrite Z.mod_small by lia. lia.
Qed.

Section SymbolSpacing.

Context `{C : Collaborators}.

(** X5.  The tile pixel ratio used for the symbol spacing is never below
    one, and on a tile of a zoom above 18 it is not smaller than on a tile
    of the same overscale factor at a zoom up to 18: very overscaled tiles
    get their labels thinned out, never made denser. *)
Theorem symbol_spacing_ratio_thins_out_overscaled_tiles
    (overscaleFactor : Z) (z z' : Q) :
  0 < EXTENT ->
  (1 <= overscaleFactor < 2147483648)%Z ->
  z <= 18 -> 18 < z' ->
  1 <= tilePixelRatioForSymbolSpacing overscaleFactor z
  /\ tilePixelRatioForSymbolSpacing overscaleFactor z
     <= tilePixelRatioForSymbolSpacing overscaleFactor z'.
Proof.
  intros Hextent Hf Hz Hz'. unfold tilePixelRatioForSymbolSpacing.
  apply NumFacts.gtb_le in Hz. apply NumFacts.gtb_gt in Hz'. rewrite Hz, Hz'.
  cbn [andb]. split; [apply NumFacts.max_upper |].
  destruct (2 <? overscaleFactor)%Z eqn:E; [| apply Qle_refl].
  apply Z.ltb_lt in E. rewrite toInt32_small by lia.
  rewrite Z.shiftr_div_pow2 by lia. change (2 ^ 1)%Z with 2%Z.
  apply max_mono_l.
  assert (Hhalf : (1 <= overscaleFactor / 2 <= overscaleFactor)%Z).
  { split; [apply Z.div_le_lower_bound; lia | apply Z.div_le_upper_bound; lia]. }
  set (h := (overscaleFactor / 2)%Z) in *.
  assert (Hh : 0 < 512 * inject_Z h).
  { apply Qmult_lt_0_compat; [reflexivity |].
    change 0 with (inject_Z 0). rewrite <- Zlt_Qlt. lia. }
  assert (Hfq : 512 * inject_Z h <= 512 * inject_Z overscaleFactor).
  { apply Qmult_le_l; [reflexivity |]. rewrite <- Zle_Qle. lia. }
  assert (Hfpos : 0 < 512 * inject_Z overscaleFactor) by lra.
  apply Qle_shift_div_l; [exact Hh |].
  unfold Qdiv. rewrite <- Qmult_assoc, (Qmult_comm (/ _)), Qmult_assoc.
  apply Qle_shift_div_r; [exact Hfpos |].
  apply Qmult_le_l; [exact Hextent | exact Hfq].
Qed.

End SymbolSpacing.

Lemma symbol_spacing_ratio_thins_out_overscaled_tiles_witness :
  1 <= tilePixelRatioForSymbolSpacing 4 17
  /\ tilePixelRatioForSymbolSpacing 4 17 <= tilePixelRatioForSymbolSpacing 4 19.
Proof.
  apply (symbol_spacing_ratio_thins_out_overscaled_tiles 4 17 19);
    [reflexivity | lia | discriminate | reflexivity].
Defined.

(** ** Collision boxes *)



Section Envelope.

Context `{C : Collaborators}.





(** X9.  The index that [evaluateBoxCollisionFeature] returns reads back
    the box it has just appended: the row at that index carries the two
    anchors, the padding and the three indices that the call was given,
    the rows before it are the rows that the store held, and nothing else
    of the bucket is written. *)
Theorem evaluateBoxCollisionFeature_index_reads_back
    (projectedAnchor tileAnchor : Anchor) (featureIndex sourceLayerIndex bucketIndex : Z)
    (shaped : Shaped) (padding rotate : Q) (textOffset : option (Q * Q))
    (iconScaledSize : Q) (b : Bucket) :
  exists index box b',
    evaluateBoxCollisionFeature projectedAnchor tileAnchor featureIndex sourceLayerIndex
      bucketIndex shaped padding rotate textOffset iconScaledSize b
    = Normal (index, b')
    /\ collisionBoxArray b' !! Z.to_nat index = Some box
    /\ (cbProjectedAnchorX box, cbProjectedAnchorY box, cbProjectedAnchorZ box)
       = (ax projectedAnchor, ay projectedAnchor, az projectedAnchor)
    /\ (cbTileAnchorX box, cbTileAnchorY box) = (ax tileAnchor, ay tileAnchor)
    /\ cbPadding box = padding
    /\ (cbFeatureIndex box, cbSourceLayerIndex box, cbBucketIndex box)
       = (featureIndex, sourceLayerIndex, bucketIndex)
    /\ take (Z.to_nat index) (collisionBoxArray b') = collisionBoxArray b
    /\ len (collisionBoxArray b') = (index + 1)%Z
    /\ b' = set_collisionBoxArray (collisionBoxArray b') b.
Proof.
  unfold evaluateBoxCollisionFeature.
  set (corners := match collisionPadding shaped with Some _ => _ | None => _ end).
  destruct corners as [[[x1 y1] x2] y2].
  set (turnedCorners := if Num.truthy rotate then _ else _).
  destruct turnedCorners as [[[x1' y1'] x2'] y2'].
  eexists _, _, _. split.
  { monad. unfold bind, modify, get, ret. cbn [collisionBoxArray set_collisionBoxArray].
    rewrite len_app_one. reflexivity. }
  cbn [collisionBoxArray set_collisionBoxArray]. unfold len. rewrite Nat2Z.id.
  split; [now rewrite lookup_app_r, Nat.sub_diag by lia |].
  split; [reflexivity |]. split; [reflexivity |]. split; [reflexivity |].
  split; [reflexivity |].
  split; [now rewrite take_app_length |].
  split; [rewrite length_app; cbn [length]; lia | now destruct b].
Qed.

End Envelope.


(** ** Text beside an image *)






(** ** Placement by vertex *)

Section VertexPlacement.

Context `{C : Collaborators}.

Variable cfg : BucketConfig.
Variable tile : Tile.
Variable args : SymbolArgs.

Hypothesis sizes_complete : sizesComplete cfg (saSizes args).
Hypothesis not_along_line : saTextAlongLine args = false.

Lemma addSymbolAtVertex_spec line i p sh b :
  line !! i = Some p ->
  walkable (horizontal sh) ->
  exists b',
    addSymbolAtVertex cfg tile args line i sh b = Normal (sh, b')
    /\ instanceAnchors b' = instanceAnchors b ++ insideTile [pointCoordinates p].
Proof.
  intros Hp Hwalk. unfold addSymbolAtVertex. rewrite Hp.
  destruct (addSymbolAtAnchor_spec cfg tile args sizes_complete line
              (mkAnchor (px p) (py p) 0 0 None) sh b Hwalk not_along_line)
    as [b' [Hrun Hanchors]].
  exists b'. split; [exact Hrun |]. rewrite Hanchors.
  unfold insideTile, pointCoordinates. cbn [ax ay fst snd List.filter].
  now destruct (inTile (px p) (py p)).
Qed.

(** The loops over a range of vertices. *)
Lemma forEach_vertices line n :
  forall start sh b,
    walkable (horizontal sh) ->
    (start + n <= length line)%nat ->
    exists b',
      forEach (seq start n) (addSymbolAtVertex cfg tile args line) sh b = Normal (sh, b')
      /\ instanceAnchors b'
         = instanceAnchors b ++ insideTile (map pointCoordinates (take n (drop start line))).
Proof.
  induction n as [| n IH]; intros start sh b Hwalk Hlen.
  - exists b. split; [reflexivity |]. cbn. now rewrite app_nil_r.
  - destruct (lookup_lt_is_Some_2 line start) as [p Hp]; [lia |].
    destruct (addSymbolAtVertex_spec line start p sh b Hp Hwalk) as [b1 [Hrun1 Ha1]].
    destruct (IH (S start) sh b1 Hwalk) as [b' [Hrun Ha]]; [lia |].
    exists b'. split.
    + cbn [seq forEach]. monad. now erewrite bind_normal by exact Hrun1.
    + rewrite Ha, Ha1, (drop_S _ _ _ Hp). cbn [take map].
      change (pointCoordinates p :: map pointCoordinates ?l)
        with ([pointCoordinates p] ++ map pointCoordinates l).
      now rewrite insideTile_app, app_assoc.
Qed.

Lemma last_vertex (line : list Point) :
  line <> [] ->
  exists q, line !! (length line - 1)%nat = Some q /\ drop (length line - 1) line = [q].
Proof.
  intros Hne.
  assert (Hlen : (0 < length line)%nat) by (destruct line; [contradiction | cbn; lia]).
  destruct (lookup_lt_is_Some_2 line (length line - 1)) as [q Hq]; [lia |].
  exists q. split; [exact Hq |].
  rewrite (drop_S _ _ _ Hq). f_equal. apply drop_ge. lia.
Qed.

(** [addSymbolAtAnchorFromLine] on a line that has a vertex: the symbols
    go on the vertices that the placement selects, inside the tile. *)
Lemma addSymbolAtAnchorFromLine_spec line sh b :
  line <> [] ->
  walkable (horizontal sh) ->
  exists b',
    addSymbolAtAnchorFromLine cfg tile args line sh b = Normal (sh, b')
    /\ instanceAnchors b'
       = instanceAnchors b
         ++ insideTile (map pointCoordinates
                          (placedVertices (symbol_placement (layout cfg)) line)).
Proof.
  intros Hne Hwalk.
  assert (Hfirst : exists b',
            addSymbolAtVertex cfg tile args line 0 sh b = Normal (sh, b')
            /\ instanceAnchors b'
               = instanceAnchors b ++ insideTile (map pointCoordinates (take 1 line))).
  { destruct line as [| p0 rest]; [contradiction |].
    exact (addSymbolAtVertex_spec (p0 :: rest) 0 p0 sh b eq_refl Hwalk). }
  destruct (last_vertex line Hne) as [q [Hq Hdrop]].
  assert (Hlast : forall b0, exists b',
            addSymbolAtVertex cfg tile args line (length line - 1) sh b0 = Normal (sh, b')
            /\ instanceAnchors b'
               = instanceAnchors b0
                 ++ insideTile (map pointCoordinates (drop (length line - 1) line))).
  { intros b0. rewrite Hdrop. exact (addSymbolAtVertex_spec line _ q sh b0 Hq Hwalk). }
  unfold addSymbolAtAnchorFromLine, placedVertices.
  destruct (symbol_placement (layout cfg)); try exact Hfirst.
  - (* vertex *)
    destruct (forEach_vertices line (length line) 0 sh b Hwalk) as [b' [Hrun Ha]]; [lia |].
    exists b'. split; [exact Hrun |]. rewrite Ha, drop_0. now rewrite take_ge by lia.
  - (* last-vertex *)
    destruct (1 <? length line)%nat; [apply Hlast | exact Hfirst].
  - (* first-last-vertex *)
    destruct Hfirst as [b1 [Hrun1 Ha1]]. monad. erewrite bind_normal by exact Hrun1.
    destruct (1 <? length line)%nat.
    + destruct (Hlast b1) as [b' [Hrun Ha]]. exists b'. split; [exact Hrun |].
      now rewrite Ha, Ha1, map_app, insideTile_app, app_assoc.
    + exists b1. split; [reflexivity |]. now rewrite app_nil_r.
  - (* except-first-vertex *)
    destruct (1 <? length line)%nat eqn:E; [| exact Hfirst]. apply Nat.ltb_lt in E.
    destruct (forEach_vertices line (length line - 1) 1 sh b Hwalk) as [b' [Hrun Ha]];
      [lia |].
    exists b'. split; [exact Hrun |]. rewrite Ha.
    now rewrite take_ge by (rewrite length_drop; lia).
  - (* except-last-vertex *)
    destruct (1 <? length line)%nat eqn:E; [| exact Hfirst]. apply Nat.ltb_lt in E.
    destruct (forEach_vertices line (length line - 1) 0 sh b Hwalk) as [b' [Hrun Ha]];
      [lia |].
    exists b'. split; [exact Hrun |]. now rewrite Ha, drop_0.
  - (* middle-vertex *)
    destruct (2 <? length line)%nat eqn:E; [| exact Hfirst]. apply Nat.ltb_lt in E.
    destruct (forEach_vertices line (length line - 2) 1 sh b Hwalk) as [b' [Hrun Ha]];
      [lia |].
    exists b'. split; [exact Hrun |]. now rewrite Ha.
Qed.

(** A feature with LineString geometry under a placement that is neither
    [line] nor [line-center]. *)
Lemma placeFeature_lines textMaxBoxScale symbolMinDistance textMaxAngle sh b :
  placement_includes_line (symbol_placement (layout cfg)) = false ->
  ftype (saFeature args) = TypeLineString ->
  Forall (fun line => line <> []) (geometry (saFeature args)) ->
  walkable (horizontal sh) ->
  exists b',
    placeFeature cfg tile args textMaxBoxScale symbolMinDistance textMaxAngle sh b
    = Normal (sh, b')
    /\ instanceAnchors b'
       = instanceAnchors b
         ++ insideTile
              (map pointCoordinates
                 (concat (map (placedVertices (symbol_placement (layout cfg)))
                            (geometry (saFeature args))))).
Proof.
  intros Hplace Htype Hlines Hwalk.
  destruct (forEach_appends instanceAnchors (fun s => s = sh)
              (fun line => insideTile (map pointCoordinates
                             (placedVertices (symbol_placement (layout cfg)) line)))
              (addSymbolAtAnchorFromLine cfg tile args)
              (geometry (saFeature args))) with (s := sh) (b := b)
    as [s' [b' [Hrun [-> Ha]]]].
  - intros line s b0 Hin ->.
    rewrite List.Forall_forall in Hlines.
    destruct (addSymbolAtAnchorFromLine_spec line sh b0 (Hlines line Hin) Hwalk)
      as [b1 [Hrun1 Ha1]].
    exists sh, b1. now repeat split.
  - reflexivity.
  - exists b'. split.
    + unfold placeFeature. rewrite Htype.
      destruct (symbol_placement (layout cfg)); try discriminate Hplace; exact Hrun.
    + rewrite Ha. f_equal.
      generalize (geometry (saFeature args)) as lines. intros lines.
      induction lines as [| line lines IH]; [reflexivity |].
      cbn [map concat]. now rewrite map_app, insideTile_app, IH.
Qed.

(** A feature under the placement [line-center] whose text does not run
    along the line. *)
Lemma placeFeature_line_center textMaxBoxScale symbolMinDistance textMaxAngle sh b :
  symbol_placement (layout cfg) = PlaceLineCenter ->
  walkable (horizontal sh) ->
  exists b',
    placeFeature cfg tile args textMaxBoxScale symbolMinDistance textMaxAngle sh b
    = Normal (sh, b')
    /\ instanceAnchors b'
       = instanceAnchors b
         ++ insideTile
              (map anchorCoordinates
                 (centerAnchors textMaxAngle (verticalOrDefault sh) (shapedIcon sh) ONE_EM
                    textMaxBoxScale (geometry (saFeature args)))).
Proof.
  intros Hplace Hwalk. unfold placeFeature. rewrite Hplace.
  set (center := fun line : list Point =>
                   if (1 <? length line)%nat
                   then getCenterAnchor line textMaxAngle (verticalOrDefault sh)
                          (shapedIcon sh) ONE_EM textMaxBoxScale
                   else None).
  destruct (forEach_appends instanceAnchors (fun s => s = sh)
              (fun line => insideTile (map anchorCoordinates (option_list (center line))))
              (fun line sh =>
                 if (1 <? length line)%nat then
                   match getCenterAnchor line textMaxAngle (verticalOrDefault sh)
                           (shapedIcon sh) ONE_EM textMaxBoxScale with
                   | Some anchor => addSymbolAtAnchor cfg tile args line anchor sh
                   | None => ret sh
                   end
                 else ret sh)
              (geometry (saFeature args))) with (s := sh) (b := b)
    as [s' [b' [Hrun [-> Ha]]]].
  - intros line s b0 _ ->. subst center. cbv beta.
    destruct (1 <? length line)%nat;
      [| exists sh, b0; cbn; now rewrite app_nil_r].
    destruct (getCenterAnchor line textMaxAngle (verticalOrDefault sh) (shapedIcon sh)
                ONE_EM textMaxBoxScale) as [anchor |];
      [| exists sh, b0; cbn; now rewrite app_nil_r].
    destruct (addSymbolAtAnchor_spec cfg tile args sizes_complete line anchor sh b0 Hwalk
                not_along_line) as [b1 [Hrun1 Ha1]].
    exists sh, b1. split; [exact Hrun1 |]. split; [reflexivity |]. rewrite Ha1.
    change (option_list (Some anchor)) with [anchor].
    unfold insideTile, anchorCoordinates. cbn [map List.filter fst snd].
    now destruct (inTile (ax anchor) (ay anchor)).
  - reflexivity.
  - exists b'. split; [exact Hrun |]. rewrite Ha. f_equal. unfold centerAnchors.
    fold center. generalize (geometry (saFeature args)) as lines. intros lines.
    induction lines as [| line lines IH]; [reflexivity |].
    cbn [map concat]. rewrite IH.
    change (omap center (line :: lines))
      with (match center line with
            | Some anchor => anchor :: omap center lines
            | None => omap center lines
            end).
    destruct (center line) as [anchor |];
      [change (option_list (Some anchor)) with [anchor]
      | change (option_list (@None Anchor)) with (@nil Anchor); reflexivity].
    cbn [map].
    change (anchorCoordinates anchor :: map anchorCoordinates ?l)
      with ([anchorCoordinates anchor] ++ map anchorCoordinates l).
    now rewrite insideTile_app.
Qed.

(** X11.  A placement that asks for a vertex that the line does not have
    falls back on the line's first vertex: [last-vertex],
    [except-first-vertex] and [except-last-vertex] on a line of one
    vertex, [middle-vertex] on a line of one or two vertices, and
    [first-last-vertex] on a line of one vertex, which gets one symbol and
    not two, all do what [first-vertex] does. *)
Theorem short_line_gets_its_symbol_on_the_first_vertex (line : list Point) (sh : Shapes)
    (b : Bucket) :
  asksForMoreVertices (symbol_placement (layout cfg)) (length line) = true ->
  addSymbolAtAnchorFromLine cfg tile args line sh b
  = addSymbolAtVertex cfg tile args line 0 sh b.
Proof.
  unfold asksForMoreVertices, addSymbolAtAnchorFromLine.
  destruct (symbol_placement (layout cfg)); try discriminate; intros Hshort;
    apply Nat.leb_le in Hshort.
  - now rewrite (proj2 (Nat.ltb_ge 1 (length line))) by lia.
  - rewrite (proj2 (Nat.ltb_ge 1 (length line))) by lia. monad. unfold bind.
    now destruct (addSymbolAtVertex cfg tile args line 0 sh b) as [[sh1 b1] |].
  - now rewrite (proj2 (Nat.ltb_ge 1 (length line))) by lia.
  - now rewrite (proj2 (Nat.ltb_ge 1 (length line))) by lia.
  - now rewrite (proj2 (Nat.ltb_ge 2 (length line))) by lia.
Qed.

(** X12.  A line without vertices: the placement [vertex] writes nothing
    for it, and every other placement reads [line[0].x] and throws. *)
Theorem empty_line_throws_unless_every_vertex_is_placed (sh : Shapes) (b : Bucket) :
  addSymbolAtAnchorFromLine cfg tile args [] sh b
  = match symbol_placement (layout cfg) with
    | PlaceVertex => Normal (sh, b)
    | _ => TypeError
    end.
Proof.
  unfold addSymbolAtAnchorFromLine. now destruct (symbol_placement (layout cfg)).
Qed.

End VertexPlacement.

Section AddFeatureShapes.

Context `{C : Collaborators}.

(** [addFeature] hands the feature's text shapings to [placeFeature] as
    they are, and starts it on a bucket that has the symbol instances and
    the registry of the bucket it was given. *)
Lemma addFeature_shapes cfg tile feature orientations shapedIcon sizes layoutTextSize
    layoutIconSize textOffset isSDFIcon isUSVGIcon hasAnySecondaryIcon b :
  exists args textMaxBoxScale symbolMinDistance textMaxAngle sh b1,
    addFeature cfg tile feature orientations shapedIcon sizes layoutTextSize layoutIconSize
      textOffset isSDFIcon isUSVGIcon hasAnySecondaryIcon b
    = placeFeature cfg tile args textMaxBoxScale symbolMinDistance textMaxAngle sh b1
    /\ saFeature args = feature
    /\ saSizes args = sizes
    /\ saTextAlongLine args
       = is_map (text_rotation_alignment (layout cfg))
         && placement_includes_line (symbol_placement (layout cfg))
    /\ horizontal sh = fst orientations
    /\ vertical sh = snd orientations
    /\ symbolInstances b1 = symbolInstances b
    /\ compareText b1 = compareText b.
Proof.
  unfold addFeature. monad. rewrite bind_get.
  match goal with |- context [bind (if ?c then _ else _) _ _] => destruct c end.
  - rewrite bind_modify. do 6 eexists. split; [reflexivity |].
    repeat split; (destruct shapedIcon as [icon |]; [| reflexivity]);
      now destruct (icon_text_fit (layout cfg) feature).
  - rewrite bind_ret. do 6 eexists. split; [reflexivity |].
    repeat split; (destruct shapedIcon as [icon |]; [| reflexivity]);
      now destruct (icon_text_fit (layout cfg) feature).
Qed.

(** X10.  For a feature with LineString geometry on a layer whose
    placement is neither [line] nor [line-center], [addFeature] writes the
    symbol instances of the vertices that the placement selects on each
    line, those that lie inside the tile, at the vertices and in their
    order, line after line: every vertex for [vertex], the first for
    [first-vertex] and for [point], the last for [last-vertex], and so
    on.  Every line is taken to have a vertex. *)
Theorem vertex_placement_instances_are_the_selected_vertices_in_tile
    (cfg : BucketConfig) (tile : Tile) (feature : SymbolFeature)
    (orientations : HorizontalShapings * option Shaping)
    (shapedIcon : option PositionedIcon) (sizes : Sizes)
    (layoutTextSize layoutIconSize : Q) (textOffset : Q * Q)
    (isSDFIcon isUSVGIcon hasAnySecondaryIcon : bool) (b : Bucket) :
  placement_includes_line (symbol_placement (layout cfg)) = false ->
  ftype feature = TypeLineString ->
  Forall (fun line => line <> []) (geometry feature) ->
  sizesComplete cfg sizes ->
  walkable (fst orientations) ->
  exists sh' b',
    addFeature cfg tile feature orientations shapedIcon sizes layoutTextSize layoutIconSize
      textOffset isSDFIcon isUSVGIcon hasAnySecondaryIcon b
    = Normal (sh', b')
    /\ instanceAnchors b'
       = instanceAnchors b
         ++ insideTile
              (map pointCoordinates
                 (concat (map (placedVertices (symbol_placement (layout cfg)))
                            (geometry feature)))).
Proof.
  intros Hplace Htype Hlines Hsizes Hwalk.
  destruct (addFeature_shapes cfg tile feature orientations shapedIcon sizes layoutTextSize
              layoutIconSize textOffset isSDFIcon isUSVGIcon hasAnySecondaryIcon b)
    as [args [mbs [smd [tma [sh [b1 [Hrun [Hf [Hs [Ha [Hh [_ [Hi _]]]]]]]]]]]]].
  rewrite Hplace, andb_false_r in Ha. rewrite <- Hs in Hsizes. rewrite <- Hh in Hwalk.
  rewrite <- Hf in Htype, Hlines.
  destruct (placeFeature_lines cfg tile args Hsizes Ha mbs smd tma sh b1 Hplace Htype
              Hlines Hwalk) as [b' [Hrun' Hp]].
  exists sh, b'. rewrite Hrun. split; [exact Hrun' |].
  rewrite Hp. unfold instanceAnchors. now rewrite Hi, Hf.
Qed.

(** X13.  For a feature on a layer with the placement [line-center] whose
    text is not aligned with the map, [addFeature] writes at most one
    symbol instance per line: the centre anchor that [getCenterAnchor]
    finds on the line, when it finds one and it lies inside the tile.  A
    line of a single point gets none, the lines are not clipped, and all
    lines are measured with the same angle, shapings and box scale. *)
Theorem line_center_placement_instances_are_the_centre_anchors_in_tile
    (cfg : BucketConfig) (tile : Tile) (feature : SymbolFeature)
    (orientations : HorizontalShapings * option Shaping)
    (positionedIcon : option PositionedIcon) (sizes : Sizes)
    (layoutTextSize layoutIconSize : Q) (textOffset : Q * Q)
    (isSDFIcon isUSVGIcon hasAnySecondaryIcon : bool) (b : Bucket) :
  symbol_placement (layout cfg) = PlaceLineCenter ->
  is_map (text_rotation_alignment (layout cfg)) = false ->
  sizesComplete cfg sizes ->
  walkable (fst orientations) ->
  exists sh' b' maxAngle shapedText fittedIcon boxScale,
    addFeature cfg tile feature orientations positionedIcon sizes layoutTextSize layoutIconSize
      textOffset isSDFIcon isUSVGIcon hasAnySecondaryIcon b
    = Normal (sh', b')
    /\ instanceAnchors b'
       = instanceAnchors b
         ++ insideTile
              (map anchorCoordinates
                 (centerAnchors maxAngle shapedText fittedIcon ONE_EM boxScale
                    (geometry feature))).
Proof.
  intros Hplace Halign Hsizes Hwalk.
  destruct (addFeature_shapes cfg tile feature orientations positionedIcon sizes layoutTextSize
              layoutIconSize textOffset isSDFIcon isUSVGIcon hasAnySecondaryIcon b)
    as [args [mbs [smd [tma [sh [b1 [Hrun [Hf [Hs [Ha [Hh [_ [Hi _]]]]]]]]]]]]].
  rewrite Halign in Ha. cbn [andb] in Ha. rewrite <- Hs in Hsizes. rewrite <- Hh in Hwalk.
  destruct (placeFeature_line_center cfg tile args Hsizes Ha mbs smd tma sh b1 Hplace Hwalk)
    as [b' [Hrun' Hp]].
  exists sh, b', tma, (verticalOrDefault sh), (shapedIcon sh), mbs.
  rewrite Hrun. split; [exact Hrun' |].
  rewrite Hp. unfold instanceAnchors. now rewrite Hi, Hf.
Qed.

End AddFeatureShapes.

Lemma vertex_placement_instances_are_the_selected_vertices_in_tile_witness :
  let feature := Sample.textFeature TypeLineString [SampleInputs.street] "Main St" in
  let cfg := Sample.sampleConfig (Sample.sampleLayout PlaceExceptFirstVertex AlignAuto None 16)
               SizeSource [feature] in
  exists sh' b',
    addFeature cfg Sample.sampleTile feature (SampleInputs.centred "Main St") None
      (layoutSizes cfg Sample.sampleTile) 16 1 (0, 0) false false false (emptyBucket [])
    = Normal (sh', b')
    /\ instanceAnchors b' = [(4000, 10)].
Proof.
  intros feature cfg.
  destruct (vertex_placement_instances_are_the_selected_vertices_in_tile cfg
              Sample.sampleTile feature (SampleInputs.centred "Main St") None
              (layoutSizes cfg Sample.sampleTile) 16 1 (0, 0) false false false
              (emptyBucket [])) as [sh' [b' [Hrun Hanchors]]].
  - reflexivity.
  - reflexivity.
  - repeat constructor. discriminate.
  - split; intros lo hi H; discriminate H.
  - left. reflexivity.
  - exists sh', b'. split; [exact Hrun | exact Hanchors].
Defined.

Lemma short_line_gets_its_symbol_on_the_first_vertex_witness :
  let line := [mkPoint 10 10; mkPoint 4000 10] in
  let feature := Sample.textFeature TypeLineString [line] "Main St" in
  let cfg := Sample.sampleConfig (Sample.sampleLayout PlaceMiddleVertex AlignAuto None 16)
               SizeSource [feature] in
  let sh := mkShapes (fst (SampleInputs.centred "Main St")) None None None in
  addSymbolAtAnchorFromLine cfg Sample.sampleTile (SampleInputs.sampleArgs cfg feature) line
    sh (emptyBucket [])
  = addSymbolAtVertex cfg Sample.sampleTile (SampleInputs.sampleArgs cfg feature) line 0
      sh (emptyBucket []).
Proof.
  intros line feature cfg sh.
  apply (short_line_gets_its_symbol_on_the_first_vertex cfg Sample.sampleTile
           (SampleInputs.sampleArgs cfg feature) line sh (emptyBucket [])).
  reflexivity.
Defined.

Lemma line_center_placement_instances_are_the_centre_anchors_in_tile_witness :
  let feature :=
    Sample.textFeature TypeLineString
      [SampleInputs.street; [mkPoint 50 50]; [mkPoint 9000 10; mkPoint 8000 10]] "Main St" in
  let cfg := Sample.sampleConfig (Sample.sampleLayout PlaceLineCenter AlignAuto None 16)
               SizeSource [feature] in
  exists sh' b' maxAngle shapedText fittedIcon boxScale,
    addFeature cfg Sample.sampleTile feature (SampleInputs.centred "Main St") None
      (layoutSizes cfg Sample.sampleTile) 16 1 (0, 0) false false false (emptyBucket [])
    = Normal (sh', b')
    /\ instanceAnchors b'
       = insideTile
           (map anchorCoordinates
              (centerAnchors maxAngle shapedText fittedIcon 24 boxScale (geometry feature)))
    /\ instanceAnchors b' = [(10, 10)].
Proof.
  intros feature cfg.
  destruct (line_center_placement_instances_are_the_centre_anchors_in_tile cfg
              Sample.sampleTile feature (SampleInputs.centred "Main St") None
              (layoutSizes cfg Sample.sampleTile) 16 1 (0, 0) false false false
              (emptyBucket []))
    as [sh' [b' [maxAngle [shapedText [fittedIcon [boxScale [Hrun Hanchors]]]]]]].
  - reflexivity.
  - reflexivity.
  - split; intros lo hi H; discriminate H.
  - left. reflexivity.
  - exists sh', b', maxAngle, shapedText, fittedIcon, boxScale.
    split; [exact Hrun |]. split; [exact Hanchors |]. rewrite Hanchors. reflexivity.
Defined.

(** ** Texts that name a member of [Object.prototype] *)

(** X14.  On a layer with the placement [line], a feature whose rendered
    text is the name of a member of [Object.prototype], such as
    [constructor] or [toString], makes [addFeature] throw at its first
    anchor when the registry holds no anchors for that text yet:
    [text in compareText] finds the inherited member, which is not an
    array of anchors. *)
Theorem text_named_like_an_Object_member_throws `{C : Collaborators}
    (cfg : BucketConfig) (tile : Tile) (feature : SymbolFeature)
    (orientations : HorizontalShapings * option Shaping)
    (positionedIcon : option PositionedIcon) (sizes : Sizes)
    (layoutTextSize layoutIconSize : Q) (textOffset : Q * Q)
    (isSDFIcon isUSVGIcon hasAnySecondaryIcon : bool) (b : Bucket)
    (shapedText : Shaping) (line : list Point) (lines : list (list Point)) :
  symbol_placement (layout cfg) = PlaceLine ->
  defaultShaping (mkShapes (fst orientations) (snd orientations) None None)
  = Some shapedText ->
  inObjectPrototype (stext shapedText) = true ->
  compareText b !! stext shapedText = None ->
  clipLine (geometry feature) (mkClipRegion 0 0 EXTENT EXTENT) = line :: lines ->
  (forall spacing maxAngle text icon glyphSize boxScale,
     getAnchors line spacing maxAngle text icon glyphSize boxScale (overscaling cfg) EXTENT
     <> []) ->
  addFeature cfg tile feature orientations positionedIcon sizes layoutTextSize
    layoutIconSize textOffset isSDFIcon isUSVGIcon hasAnySecondaryIcon b
  = TypeError.
Proof.
  intros Hplace Hdefault Hmember Hnew Hclip Hanchors.
  destruct (addFeature_shapes cfg tile feature orientations positionedIcon sizes
              layoutTextSize layoutIconSize textOffset isSDFIcon isUSVGIcon
              hasAnySecondaryIcon b)
    as [args [mbs [smd [tma [sh [b1 [Hrun [Hf [_ [_ [Hh [Hv [_ Hc]]]]]]]]]]]]].
  rewrite Hrun. unfold placeFeature. rewrite Hplace, Hf. unfold lineClipRegion.
  rewrite Hclip. cbn [forEach]. monad. apply bind_throws.
  unfold placeAlongLine.
  specialize (Hanchors smd tma (verticalOrDefault sh) (shapedIcon sh) ONE_EM mbs).
  destruct (getAnchors line smd tma (verticalOrDefault sh) (shapedIcon sh) ONE_EM mbs
              (overscaling cfg) EXTENT) as [| anchor anchors]; [contradiction |].
  cbn [forEach]. monad. apply bind_throws.
  assert (Hsh : defaultShaping sh = Some shapedText).
  { unfold defaultShaping in *. cbn [horizontal vertical] in Hdefault.
    now rewrite Hh, Hv. }
  rewrite Hsh. apply bind_throws.
  unfold anchorIsTooClose. monad. rewrite bind_get, Hc, Hnew, Hmember. reflexivity.
Qed.

Lemma text_named_like_an_Object_member_throws_witness :
  let feature :=
    Sample.textFeature TypeLineString [[mkPoint 10 10; mkPoint 4000 10]] "constructor" in
  let cfg := Sample.sampleConfig (Sample.sampleLayout PlaceLine AlignMap None 16)
               SizeConstant [feature] in
  addFeature cfg Sample.sampleTile feature (SampleInputs.centred "constructor") None
    (layoutSizes cfg Sample.sampleTile) 16 1 (0, 0) false false false (emptyBucket [])
  = TypeError.
Proof.
  intros feature cfg.
  apply (text_named_like_an_Object_member_throws cfg Sample.sampleTile feature
           (SampleInputs.centred "constructor") None (layoutSizes cfg Sample.sampleTile)
           16 1 (0, 0) false false false (emptyBucket [])
           (Sample.shaping "constructor" 1) [mkPoint 10 10; mkPoint 4000 10] []).
  - reflexivity.
  - reflexivity.
  - reflexivity.
  - reflexivity.
  - reflexivity.
  - intros. discriminate.
Defined.

(** ** What every symbol instance of a layout satisfies *)

Lemma preserves_forEach_In {A S} (P : Bucket -> Prop) (l : list A) (body : A -> S -> M S) :
  (forall x s, In x l -> preserves P (body x s)) ->
  forall s, preserves P (forEach l body s).
Proof.
  induction l as [| x l IH]; intros Hbody s; cbn [forEach]; monad.
  - apply preserves_ret.
  - apply preserves_bind; [apply Hbody; now left |].
    intros s'. apply IH. intros y s0 Hy. apply Hbody. now right.
Qed.

Section WrittenInstances.

Context `{C : Collaborators}.

(** A property of symbol instances, and the buckets whose instances all
    have it. *)
Variable Q : SymbolInstance -> Prop.

Let P (b : Bucket) : Prop := Forall Q (symbolInstances b).

Lemma instances_frame (f : Bucket -> Bucket) :
  (forall b, compareText (f b) = compareText b
             /\ symbolInstances (f b) = symbolInstances b) ->
  preserves P (modify f).
Proof.
  intros Hf. apply preserves_modify. intros b Hb. unfold P. now rewrite (proj2 (Hf b)).
Qed.

Lemma anchorIsTooClose_instances text r anchor : preserves P (anchorIsTooClose text r anchor).
Proof.
  unfold anchorIsTooClose. monad.
  repeat first [ preserves_step | apply preserves_modify; intros b0 Hb0; exact Hb0 ].
Qed.

Section Symbol.

Variable cfg : BucketConfig.
Variable tile : Tile.
Variable args : SymbolArgs.

(** The instances written for the feature of [args] at an anchor inside
    the tile have the property. *)
Hypothesis Q_written :
  forall inst,
    inTile (anchorX inst) (anchorY inst) = true ->
    featureIndex inst = findex (saFeature args) ->
    Q inst.

Lemma addSymbol_writes anchor globe line sh :
  inTile (ax anchor) (ay anchor) = true ->
  preserves P (addSymbol cfg args anchor globe line sh).
Proof.
  intros Hin. pose proof instances_frame as Hframe.
  unfold addSymbol, addToLineVertexArray, addToSortKeyRanges. monad.
  repeat first [ apply verticalCollision_registry; exact Hframe
               | apply placeIcon_registry; exact Hframe
               | apply horizontalLoop_registry; exact Hframe
               | apply addTextVertices_registry; exact Hframe
               | apply warnOnce_registry; exact Hframe
               | frame_step ].
  apply preserves_modify. intros b0 Hb0. unfold P.
  cbn [symbolInstances set_symbolInstances].
  apply Forall_app. split; [exact Hb0 |]. constructor; [| constructor].
  apply Q_written; [exact Hin | reflexivity].
Qed.

Lemma addSymbolAtAnchor_writes line anchor sh :
  preserves P (addSymbolAtAnchor cfg tile args line anchor sh).
Proof.
  unfold addSymbolAtAnchor. rewrite inTile_guard.
  destruct (inTile (ax anchor) (ay anchor)) eqn:Hin; cbn [negb].
  - now apply addSymbol_writes.
  - apply preserves_ret.
Qed.

Lemma addSymbolAtVertex_writes line i sh :
  preserves P (addSymbolAtVertex cfg tile args line i sh).
Proof.
  unfold addSymbolAtVertex.
  repeat first [ apply addSymbolAtAnchor_writes | preserves_step ].
Qed.

Lemma addSymbolAtAnchorFromLine_writes line sh :
  preserves P (addSymbolAtAnchorFromLine cfg tile args line sh).
Proof.
  unfold addSymbolAtAnchorFromLine. monad.
  repeat first [ apply addSymbolAtVertex_writes | preserves_step ].
Qed.

Lemma placeFeature_writes textMaxBoxScale symbolMinDistance textMaxAngle sh :
  preserves P (placeFeature cfg tile args textMaxBoxScale symbolMinDistance textMaxAngle sh).
Proof.
  unfold placeFeature, placeAlongLine.
  repeat first [ apply addSymbolAtAnchor_writes | apply addSymbolAtAnchorFromLine_writes
               | apply anchorIsTooClose_instances | preserves_step ].
Qed.

End Symbol.

Lemma addFeature_writes cfg tile feature orientations positionedIcon sizes layoutTextSize
    layoutIconSize textOffset isSDFIcon isUSVGIcon hasAnySecondaryIcon :
  (forall inst,
     inTile (anchorX inst) (anchorY inst) = true ->
     featureIndex inst = findex feature ->
     Q inst) ->
  preserves P (addFeature cfg tile feature orientations positionedIcon sizes layoutTextSize
                 layoutIconSize textOffset isSDFIcon isUSVGIcon hasAnySecondaryIcon).
Proof.
  intros HQ. pose proof instances_frame as Hframe. unfold addFeature. monad.
  repeat first [ apply placeFeature_writes; exact HQ | frame_step ].
Qed.

Lemma layoutFeature_writes cfg tile sizes hasAnySecondaryIcon feature :
  (forall inst,
     inTile (anchorX inst) (anchorY inst) = true ->
     featureIndex inst = findex feature ->
     Q inst) ->
  preserves P (layoutFeature cfg tile sizes hasAnySecondaryIcon feature).
Proof.
  intros HQ. pose proof instances_frame as Hframe. unfold layoutFeature. monad.
  repeat first [ apply shapeFeatureIcon_registry; exact Hframe
               | apply addFeature_writes; exact HQ | frame_step ].
Qed.

(** Every symbol instance of a completed layout has a property that holds
    of the instances written inside the tile for a feature of the
    bucket. *)
Lemma performSymbolLayout_writes cfg tile b b' :
  (forall inst feature,
     In feature (features cfg) ->
     inTile (anchorX inst) (anchorY inst) = true ->
     featureIndex inst = findex feature ->
     Q inst) ->
  performSymbolLayout cfg tile b = Normal (tt, b') ->
  Forall Q (symbolInstances b').
Proof.
  intros HQ Hrun. pose proof instances_frame as Hframe.
  unfold performSymbolLayout, createArrays in Hrun. monad.
  rewrite !bind_modify in Hrun.
  match type of Hrun with bind ?m ?k ?b0 = _ =>
    assert (Hstart : P b0) by constructor;
    assert (Hkeeps : preserves P (bind m k)); [| exact (Hkeeps _ _ _ Hstart Hrun)]
  end.
  apply preserves_bind.
  - apply preserves_forEach_In. intros feature [] Hin.
    apply layoutFeature_writes. intros inst. now apply HQ.
  - intros _. unfold generateCollisionDebugBuffers.
    repeat frame_step.
Qed.

End WrittenInstances.

(** X15.  The global rule of the tile bounds: every symbol instance that a
    completed layout leaves in the bucket is anchored inside the tile,
    with both coordinates in [[0, EXTENT)], whatever the placement and the
    geometry of its feature are. *)
Theorem symbol_instances_lie_inside_the_tile `{C : Collaborators}
    (cfg : BucketConfig) (tile : Tile) (b b' : Bucket) :
  performSymbolLayout cfg tile b = Normal (tt, b') ->
  forall inst,
    In inst (symbolInstances b') ->
    (0 <= anchorX inst /\ anchorX inst < EXTENT)
    /\ (0 <= anchorY inst /\ anchorY inst < EXTENT).
Proof.
  intros Hrun.
  apply List.Forall_forall.
  apply (performSymbolLayout_writes _ cfg tile b b'); [| exact Hrun].
  intros inst feature _ Hin _. now apply inTile_bounds.
Qed.

Lemma symbol_instances_lie_inside_the_tile_witness :
  let cfg := Sample.sampleConfig (Sample.sampleLayout PlaceVertex AlignAuto None 16)
               SizeSource
               [Sample.textFeature TypeLineString [SampleInputs.street] "Main St";
                Sample.textFeature TypePoint [[mkPoint (-5) 3; mkPoint 100 8191]] "Cafe"] in
  exists b',
    performSymbolLayout cfg Sample.sampleTile (emptyBucket []) = Normal (tt, b')
    /\ length (symbolInstances b') = 3%nat
    /\ forall inst,
         In inst (symbolInstances b') ->
         (0 <= anchorX inst /\ anchorX inst < 8192)
         /\ (0 <= anchorY inst /\ anchorY inst < 8192).
Proof.
  intros cfg.
  destruct (performSymbolLayout cfg Sample.sampleTile (emptyBucket [])) as [[[] b'] |] eqn:Hrun;
    [| vm_compute in Hrun; discriminate Hrun].
  exists b'. split; [reflexivity |]. split.
  - vm_compute in Hrun. injection Hrun as <-. reflexivity.
  - exact (symbol_instances_lie_inside_the_tile cfg Sample.sampleTile (emptyBucket []) b'
             Hrun).
Defined.

(** X16.  Every symbol instance that a completed layout leaves in the
    bucket carries the index of one of the bucket's features. *)
Theorem symbol_instances_belong_to_the_features `{C : Collaborators}
    (cfg : BucketConfig) (tile : Tile) (b b' : Bucket) :
  performSymbolLayout cfg tile b = Normal (tt, b') ->
  forall inst,
    In inst (symbolInstances b') ->
    exists feature, In feature (features cfg) /\ featureIndex inst = findex feature.
Proof.
  intros Hrun.
  apply List.Forall_forall.
  apply (performSymbolLayout_writes _ cfg tile b b'); [| exact Hrun].
  intros inst feature Hfeature _ Hindex. now exists feature.
Qed.

Lemma symbol_instances_belong_to_the_features_witness :
  let cfg := Sample.sampleConfig (Sample.sampleLayout PlacePoint AlignAuto None 16)
               SizeSource
               [mkFeature TypePoint [[mkPoint 10 10]] (Some "Cafe") None 4 0 None;
                mkFeature TypePoint [[mkPoint 20 20; mkPoint 30 30]] (Some "Bar") None 9 0
                  None] in
  exists b',
    performSymbolLayout cfg Sample.sampleTile (emptyBucket []) = Normal (tt, b')
    /\ map featureIndex (symbolInstances b') = [4; 9; 9]%Z
    /\ forall inst,
         In inst (symbolInstances b') ->
         exists feature, In feature (features cfg) /\ featureIndex inst = findex feature.
Proof.
  intros cfg.
  destruct (performSymbolLayout cfg Sample.sampleTile (emptyBucket [])) as [[[] b'] |] eqn:Hrun;
    [| vm_compute in Hrun; discriminate Hrun].
  exists b'. split; [reflexivity |]. split.
  - vm_compute in Hrun. injection Hrun as <-. reflexivity.
  - exact (symbol_instances_belong_to_the_features cfg Sample.sampleTile (emptyBucket []) b'
             Hrun).
Defined.

(** ** Indices in bounds *)

Lemma bind_inv {A B} (m : M A) (k : A -> M B) b r b' :
  bind m k b = Normal (r, b') ->
  exists a b1, m b = Normal (a, b1) /\ k a b1 = Normal (r, b').
Proof.
  unfold bind. destruct (m b) as [[a b1] |]; [| discriminate]. intros H. now exists a, b1.
Qed.

Lemma extends_refl b : extends b b.
Proof.
  split; [reflexivity |]. repeat split; exists []; now rewrite app_nil_r.
Qed.

Lemma extends_trans b1 b2 b3 : extends b1 b2 -> extends b2 b3 -> extends b1 b3.
Proof.
  intros [Hi1 [[c1 Hc1] [[t1 Ht1] [i1 Hic1]]]] [Hi2 [[c2 Hc2] [[t2 Ht2] [i2 Hic2]]]].
  split; [congruence |].
  repeat split.
  - exists (c1 ++ c2). now rewrite Hc2, Hc1, app_assoc.
  - exists (t1 ++ t2). now rewrite Ht2, Ht1, app_assoc.
  - exists (i1 ++ i2). now rewrite Hic2, Hic1, app_assoc.
Qed.

Lemma len_app {A} (l1 l2 : list A) : len (l1 ++ l2) = (len l1 + len l2)%Z.
Proof. unfold len. rewrite length_app. lia. Qed.

Lemma len_nonneg {A} (l : list A) : (0 <= len l)%Z.
Proof. unfold len. lia. Qed.

Lemma len_singleton {A} (x : A) : len [x] = 1%Z.
Proof. reflexivity. Qed.

Lemma extends_lengths b b' :
  extends b b' ->
  (len (collisionBoxArray b) <= len (collisionBoxArray b'))%Z
  /\ (len (textPlacedSymbolArray b) <= len (textPlacedSymbolArray b'))%Z
  /\ (len (iconPlacedSymbolArray b) <= len (iconPlacedSymbolArray b'))%Z.
Proof.
  intros [_ [[c Hc] [[t Ht] [i Hi]]]]. rewrite Hc, Ht, Hi, !len_app.
  pose proof (len_nonneg c). pose proof (len_nonneg t). pose proof (len_nonneg i). lia.
Qed.

Lemma boxIndexWithin_extends b b' index :
  extends b b' -> boxIndexWithin b index -> boxIndexWithin b' index.
Proof.
  intros He. apply extends_lengths in He. destruct index as [i |]; cbn; [lia | trivial].
Qed.

Lemma placedTextsWithin_extends b b' indices :
  extends b b' -> placedTextsWithin b indices -> placedTextsWithin b' indices.
Proof.
  intros He Hm. apply extends_lengths in He. unfold placedTextsWithin in *.
  eapply map_Forall_impl; [exact Hm |]. intros k i. cbv beta. lia.
Qed.

Lemma rangeWithin_mono L L' start stop :
  (L <= L')%Z -> rangeWithin L start stop -> rangeWithin L' start stop.
Proof. unfold rangeWithin. lia. Qed.

Lemma indicesInBounds_extends b b' :
  extends b b' -> indicesInBounds b -> indicesInBounds b'.
Proof.
  intros He. pose proof (extends_lengths _ _ He) as [Hc [Ht Hi]].
  destruct He as [Hinst _]. unfold indicesInBounds. rewrite Hinst. intros Hb.
  eapply Forall_impl; [exact Hb |]. cbv beta. intros inst [[H1 [H2 [H3 H4]]] [P1 [P2 [P3 [P4 [P5 P6]]]]]].
  split.
  - unfold boxRangesWithin, rangeWithin in *. lia.
  - unfold placedSymbolsWithin, placedWithin in *. lia.
Qed.

(** Writes that keep the symbol instances and only append to the
    stores. *)
Lemma extends_modify b0 (f : Bucket -> Bucket) :
  (forall b, extends b (f b)) -> preserves (extends b0) (modify f).
Proof.
  intros Hf. apply preserves_modify. intros b Hb. exact (extends_trans _ _ _ Hb (Hf b)).
Qed.

Ltac extends_write :=
  intros; split; [reflexivity |];
  repeat split;
  solve [ eexists; reflexivity | exists []; symmetry; apply app_nil_r ].

Ltac extends_step :=
  first
    [ preserves_step
    | apply extends_modify; extends_write ].

Lemma warnOnce_extends b0 message : preserves (extends b0) (warnOnce message).
Proof.
  unfold warnOnce. apply extends_modify. intros b.
  destruct (existsb (String.eqb message) (warnOnceHistory b)); extends_write.
Qed.

Section Extends.

Context `{C : Collaborators}.

Lemma packSizes_extends b0 cfg property sizeData layoutSize compositeSizes scale feature :
  preserves (extends b0)
    (packSizes cfg property sizeData layoutSize compositeSizes scale feature).
Proof.
  unfold packSizes. monad. repeat first [ apply warnOnce_extends | extends_step ].
Qed.

Lemma addSymbols_extends b0 arrays p : preserves (extends b0) (addSymbols arrays p).
Proof.
  unfold addSymbols. apply extends_modify. intros b. destruct arrays; extends_write.
Qed.

Lemma evaluateBoxCollisionFeature_extends b0 projectedAnchor tileAnchor fi sli bi shaped
    padding rotate textOffset iconScaledSize :
  preserves (extends b0)
    (evaluateBoxCollisionFeature projectedAnchor tileAnchor fi sli bi shaped padding rotate
       textOffset iconScaledSize).
Proof. unfold evaluateBoxCollisionFeature. monad. repeat extends_step. Qed.

Lemma addTextVertices_extends b0 cfg tileAnchor shapedText textAlongLine feature textOffset
    lineArray writingMode placementTypes indices placedIconIndex sizes :
  preserves (extends b0)
    (addTextVertices cfg tileAnchor shapedText textAlongLine feature textOffset lineArray
       writingMode placementTypes indices placedIconIndex sizes).
Proof.
  unfold addTextVertices. monad.
  repeat first [ apply packSizes_extends | apply addSymbols_extends | extends_step ].
Qed.

End Extends.

Lemma placedWithin_extends_icons b b' index :
  extends b b' ->
  placedWithin (len (iconPlacedSymbolArray b)) index ->
  placedWithin (len (iconPlacedSymbolArray b')) index.
Proof. intros He. apply extends_lengths in He. unfold placedWithin. lia. Qed.

Lemma placedTexts_fold (L index : Z) (names : list string) :
  (0 <= index < L)%Z ->
  forall indices : gmap string Z,
    map_Forall (fun _ i => (0 <= i < L)%Z) indices ->
    map_Forall (fun _ i => (0 <= i < L)%Z)
      (fold_left (fun m name => <[name := index]> m) names indices).
Proof.
  intros Hindex. induction names as [| name names IH]; intros indices Hm; cbn [fold_left].
  - exact Hm.
  - apply IH. now apply map_Forall_insert_2.
Qed.

Section IndexFacts.

Context `{C : Collaborators}.

Lemma evaluateBoxCollisionFeature_index projectedAnchor tileAnchor fi sli bi shaped padding
    rotate textOffset iconScaledSize b index b' :
  evaluateBoxCollisionFeature projectedAnchor tileAnchor fi sli bi shaped padding rotate
    textOffset iconScaledSize b = Normal (index, b') ->
  extends b b' /\ boxIndexWithin b' (Some index).
Proof.
  intros Hrun. split.
  - exact (evaluateBoxCollisionFeature_extends b _ _ _ _ _ _ _ _ _ _ b index b'
             (extends_refl b) Hrun).
  - destruct (evaluateBoxCollisionFeature_run projectedAnchor tileAnchor fi sli bi shaped
                padding rotate textOffset iconScaledSize b) as [box [Hbox _]].
    rewrite Hbox in Hrun. injection Hrun as <- <-.
    cbn [boxIndexWithin collisionBoxArray set_collisionBoxArray].
    rewrite len_app, len_singleton.
    pose proof (len_nonneg (collisionBoxArray b)). lia.
Qed.

Lemma addTextVertices_indices cfg tileAnchor shapedText textAlongLine feature textOffset
    lineArray writingMode placementTypes indices placedIconIndex sizes b r b' :
  placedTextsWithin b indices ->
  addTextVertices cfg tileAnchor shapedText textAlongLine feature textOffset lineArray
    writingMode placementTypes indices placedIconIndex sizes b = Normal (r, b') ->
  extends b b' /\ placedTextsWithin b' (snd r).
Proof.
  intros Hindices Hrun. split.
  - exact (addTextVertices_extends b _ _ _ _ _ _ _ _ _ _ _ _ b r b' (extends_refl b) Hrun).
  - unfold addTextVertices in Hrun. monad.
    apply bind_inv in Hrun as [data [b1 [Hpack Hrun]]].
    pose proof (packSizes_extends b _ _ _ _ _ _ _ b data b1 (extends_refl b) Hpack) as He.
    unfold addSymbols, bind, modify, get, ret in Hrun. injection Hrun as <- <-.
    cbn [snd]. unfold placedTextsWithin.
    cbn [textPlacedSymbolArray set_textPlacedSymbolArray set_glyphOffsetArray].
    apply extends_lengths in He as [_ [Ht _]].
    pose proof (len_nonneg (textPlacedSymbolArray b)).
    apply placedTexts_fold.
    + rewrite len_app, len_singleton. lia.
    + eapply map_Forall_impl; [exact Hindices |]. intros k i. cbv beta.
      rewrite len_app, len_singleton. lia.
Qed.

Variable cfg : BucketConfig.
Variable args : SymbolArgs.
Variable anchor : Anchor.
Variable globe : option Anchor.

Lemma textCollision_index justification shaping st b st1 b1 :
  boxIndexWithin b (tlTextBoxIndex st) ->
  textCollision cfg args anchor globe justification shaping st b = Normal (st1, b1) ->
  extends b b1
  /\ boxIndexWithin b1 (tlTextBoxIndex st1)
  /\ tlPlacedTextSymbolIndices st1 = tlPlacedTextSymbolIndices st.
Proof.
  intros Hindex. unfold textCollision.
  destruct (negb (indexTruthy (tlTextBoxIndex st))).
  - destruct (saTextAlongLine args).
    + destruct (evaluateCircleCollisionFeature (sbox shaping)) as [circle box].
      intros Hrun. injection Hrun as <- <-.
      split; [apply extends_refl |]. now split.
    + monad. intros Hrun. apply bind_inv in Hrun as [index [b2 [Hbox Hrun]]].
      injection Hrun as <- <-.
      apply evaluateBoxCollisionFeature_index in Hbox as [He Hi].
      split; [exact He |]. split; [exact Hi | reflexivity].
  - intros Hrun. injection Hrun as <- <-. split; [apply extends_refl |]. now split.
Qed.

Lemma horizontalLoop_indices lineArray placedIconSymbolIndex keys :
  forall st b st' b',
    boxIndexWithin b (tlTextBoxIndex st) ->
    placedTextsWithin b (tlPlacedTextSymbolIndices st) ->
    horizontalLoop cfg args anchor globe lineArray placedIconSymbolIndex keys st b
    = Normal (st', b') ->
    extends b b'
    /\ boxIndexWithin b' (tlTextBoxIndex st')
    /\ placedTextsWithin b' (tlPlacedTextSymbolIndices st').
Proof.
  induction keys as [| justification rest IH]; intros st b st' b' Hindex Hplaced Hrun;
    cbn [horizontalLoop] in Hrun.
  - injection Hrun as <- <-. split; [apply extends_refl |]. now split.
  - destruct (horizontal_get justification (horizontal (tlShapes st))) as [shaping |];
      [| discriminate Hrun].
    monad. apply bind_inv in Hrun as [st1 [b1 [Hcollision Hrun]]].
    apply textCollision_index in Hcollision as [He1 [Hi1 Hp1]]; [| exact Hindex].
    destruct (horizontal_get justification (horizontal (tlShapes st1))) as [shaping1 |];
      [| discriminate Hrun].
    apply bind_inv in Hrun as [r [b2 [Hvertices Hrun]]].
    apply addTextVertices_indices in Hvertices as [He2 Hp2];
      [| rewrite Hp1; exact (placedTextsWithin_extends _ _ _ He1 Hplaced)].
    pose proof (boxIndexWithin_extends _ _ _ He2 Hi1) as Hi2.
    destruct (length (positionedLines shaping1) =? 1)%nat.
    + injection Hrun as <- <-. cbn [tlTextBoxIndex tlPlacedTextSymbolIndices].
      split; [exact (extends_trans _ _ _ He1 He2) |]. now split.
    + apply IH in Hrun as [He3 [Hi3 Hp3]]; [| exact Hi2 | exact Hp2].
      split; [exact (extends_trans _ _ _ (extends_trans _ _ _ He1 He2) He3) |]. now split.
Qed.

Lemma verticalCollision_extends b0 sh :
  preserves (extends b0) (verticalCollision cfg args anchor globe sh).
Proof.
  unfold verticalCollision. monad.
  repeat first [ apply evaluateBoxCollisionFeature_extends | extends_step ].
Qed.

Lemma verticalCollision_indices sh b r b1 :
  verticalCollision cfg args anchor globe sh b = Normal (r, b1) ->
  extends b b1
  /\ boxIndexWithin b1 (snd (fst (fst (fst r))))
  /\ boxIndexWithin b1 (snd (fst (fst r))).
Proof.
  intros Hrun. split.
  - exact (verticalCollision_extends b sh b r b1 (extends_refl b) Hrun).
  - destruct (verticalCollision_spec cfg args anchor globe sh b)
      as [sh1 [vtb [vib [vtc [vic [b2 [Hspec [Hvtb [Hvib [Hg _]]]]]]]]]].
    rewrite Hspec in Hrun. injection Hrun as <- <-. cbn [fst snd].
    apply grows_len in Hg. pose proof (len_nonneg (collisionBoxArray b)).
    unfold verticalIconPresent in *.
    destruct (verticalTextPresent cfg args sh);
      destruct (bool_decide (is_Some (verticallyShapedIcon sh)));
      subst vtb vib; cbn [boxIndexWithin andb boxCount Nat.add] in *; split; trivial; lia.
Qed.

Lemma placeIcon_extends b0 lineArray sh :
  preserves (extends b0) (placeIcon cfg args anchor globe lineArray sh).
Proof.
  unfold placeIcon. monad.
  repeat first [ apply evaluateBoxCollisionFeature_extends | apply packSizes_extends
               | apply addSymbols_extends | extends_step ].
Qed.

Lemma placeIcon_indices lineArray sh b ip b1 :
  placeIcon cfg args anchor globe lineArray sh b = Normal (ip, b1) ->
  extends b b1
  /\ boxIndexWithin b1 (ipIconBoxIndex ip)
  /\ placedWithin (len (iconPlacedSymbolArray b1)) (ipPlacedIconSymbolIndex ip)
  /\ placedWithin (len (iconPlacedSymbolArray b1)) (ipVerticalPlacedIconSymbolIndex ip).
Proof.
  intros Hrun.
  split; [exact (placeIcon_extends b lineArray sh b ip b1 (extends_refl b) Hrun) |].
  revert Hrun. unfold placeIcon, placedWithin.
  destruct (shapedIcon sh) as [icon |].
  - monad. intros Hrun.
    apply bind_inv in Hrun as [index [b2 [Hbox Hrun]]].
    apply evaluateBoxCollisionFeature_index in Hbox as [He2 Hi2].
    apply bind_inv in Hrun as [data [b3 [Hpack Hrun]]].
    pose proof (packSizes_extends b2 _ _ _ _ _ _ _ b2 data b3 (extends_refl b2) Hpack) as He3.
    pose proof (boxIndexWithin_extends _ _ _ He3 Hi2) as Hi3.
    pose proof (len_nonneg (iconPlacedSymbolArray b3)).
    destruct (verticallyShapedIcon sh) as [vicon |];
      unfold addSymbols, bind, modify, get, ret in Hrun; injection Hrun as <- <-;
      cbn [ipIconBoxIndex ipPlacedIconSymbolIndex ipVerticalPlacedIconSymbolIndex
           iconPlacedSymbolArray set_iconPlacedSymbolArray set_glyphOffsetArray
           collisionBoxArray boxIndexWithin] in *;
      rewrite ?len_app, ?len_singleton;
      repeat split; lia.
  - intros Hrun. injection Hrun as <- <-. pose proof (len_nonneg (iconPlacedSymbolArray b)).
    cbn. repeat split; trivial; lia.
Qed.

End IndexFacts.

Section IndexInvariant.

Context `{C : Collaborators}.

Lemma placedIndex_within (b : Bucket) (indices : gmap string Z) (name : string) :
  placedTextsWithin b indices ->
  placedWithin (len (textPlacedSymbolArray b)) (placedIndex indices name).
Proof.
  intros Hm. unfold placedIndex, placedWithin.
  pose proof (len_nonneg (textPlacedSymbolArray b)).
  destruct (indices !! name) as [i |] eqn:E; [| lia].
  apply Hm in E. destruct (0 <=? i)%Z; lia.
Qed.

Lemma definedOr_within (b : Bucket) (index : option Z) :
  boxIndexWithin b index ->
  rangeWithin (len (collisionBoxArray b))
    (definedOr index 0 (len (collisionBoxArray b)))
    (definedOr index 1 (len (collisionBoxArray b))).
Proof.
  unfold rangeWithin. pose proof (len_nonneg (collisionBoxArray b)).
  destruct index as [i |]; cbn; lia.
Qed.

Lemma truthyOr_within (b : Bucket) (index : option Z) :
  boxIndexWithin b index ->
  rangeWithin (len (collisionBoxArray b))
    (truthyOr index 0 (len (collisionBoxArray b)))
    (truthyOr index 1 (len (collisionBoxArray b))).
Proof.
  unfold rangeWithin. pose proof (len_nonneg (collisionBoxArray b)).
  destruct index as [i |]; cbn; [destruct (i =? 0)%Z |]; lia.
Qed.

Variable cfg : BucketConfig.
Variable args : SymbolArgs.
Variable anchor : Anchor.
Variable globe : option Anchor.
Variable line : list Point.

(** [addSymbol] keeps the indices in bounds: those of the instances that
    the bucket holds, as the stores only grow, and those of the instance
    that it appends. *)
Lemma addSymbol_indices sh : preserves indicesInBounds (addSymbol cfg args anchor globe line sh).
Proof.
  intros b r b' Hb Hrun. unfold addSymbol in Hrun. monad.
  rewrite (bind_normal _ _ _ _ _ (addToLineVertexArray_run anchor line b)) in Hrun.
  set (b0 := set_lineVertexArray _ b) in Hrun.
  assert (He0 : extends b b0) by (subst b0; extends_write).
  clearbody b0.
  set (offsets := if text_radial_offset_unset (layout cfg) then _ else _) in Hrun.
  destruct offsets as [textOffset0 textOffset1].
  apply bind_inv in Hrun as [v [b1 [Hvertical Hrun]]].
  apply verticalCollision_indices in Hvertical as [He1 [Hvtb Hvib]].
  destruct v as [[[[sh1 vtb] vib] vtc] vic]. cbn [fst snd] in Hvtb, Hvib.
  apply bind_inv in Hrun as [ip [b2 [Hicon Hrun]]].
  apply placeIcon_indices in Hicon as [He2 [Hib [Hpi Hpvi]]].
  apply bind_inv in Hrun as [st [b3 [Hloop Hrun]]].
  apply horizontalLoop_indices in Hloop as [He3 [Htb Hpt]];
    [| exact I | apply map_Forall_empty].
  apply bind_inv in Hrun as [vt [b4 [Hvt Hrun]]].
  assert (Hvt' : extends b3 b4 /\ placedTextsWithin b4 (snd vt)).
  { destruct (vertical (tlShapes st)) as [verticalShaping |].
    - now apply addTextVertices_indices in Hvt.
    - injection Hvt as <- <-. split; [apply extends_refl | exact Hpt]. }
  destruct Hvt' as [He4 Hpt4]. destruct vt as [numVerticalGlyphVertices indices].
  cbn [snd] in Hpt4. rewrite bind_get in Hrun.
  apply bind_inv in Hrun as [[] [b5 [Hwarn Hrun]]].
  assert (He5 : extends b4 b5).
  { destruct (MAX_GLYPHS <=? glyphOffsetArray b4)%Z.
    - exact (warnOnce_extends b4 _ b4 tt b5 (extends_refl b4) Hwarn).
    - injection Hwarn as <-. apply extends_refl. }
  rewrite bind_get in Hrun.
  apply bind_inv in Hrun as [[] [b6 [Hsort Hrun]]].
  assert (He6 : extends b5 b6).
  { destruct (sortKey (saFeature args)) as [k |].
    - unfold addToSortKeyRanges, modify in Hsort. injection Hsort as <-. extends_write.
    - injection Hsort as <-. apply extends_refl. }
  unfold bind, modify, ret in Hrun. injection Hrun as _ <-.
  assert (He : extends b b6).
  { repeat (eapply extends_trans; [eassumption |]). apply extends_refl. }
  assert (He26 : extends b2 b6).
  { repeat (eapply extends_trans; [eassumption |]). apply extends_refl. }
  assert (He36 : extends b3 b6).
  { repeat (eapply extends_trans; [eassumption |]). apply extends_refl. }
  assert (He46 : extends b4 b6) by exact (extends_trans _ _ _ He5 He6).
  assert (He16 : extends b1 b6) by exact (extends_trans _ _ _ He2 He26).
  unfold indicesInBounds.
  cbn [symbolInstances set_symbolInstances collisionBoxArray textPlacedSymbolArray
       iconPlacedSymbolArray].
  apply Forall_app. split; [exact (indicesInBounds_extends _ _ He Hb) |].
  constructor; [| constructor].
  pose proof (placedTextsWithin_extends _ _ _ He46 Hpt4) as Hplaced.
  split.
  - unfold boxRangesWithin.
    cbn [textBoxStartIndex textBoxEndIndex verticalTextBoxStartIndex
         verticalTextBoxEndIndex iconBoxStartIndex iconBoxEndIndex
         verticalIconBoxStartIndex verticalIconBoxEndIndex].
    split; [apply definedOr_within; exact (boxIndexWithin_extends _ _ _ He36 Htb) |].
    split; [apply definedOr_within; exact (boxIndexWithin_extends _ _ _ He16 Hvtb) |].
    split; [apply definedOr_within; exact (boxIndexWithin_extends _ _ _ He26 Hib) |].
    apply truthyOr_within. exact (boxIndexWithin_extends _ _ _ He16 Hvib).
  - unfold placedSymbolsWithin.
    cbn [rightJustifiedTextSymbolIndex centerJustifiedTextSymbolIndex
         leftJustifiedTextSymbolIndex verticalPlacedTextSymbolIndex
         placedIconSymbolIndex verticalPlacedIconSymbolIndex].
    repeat (split; [now apply placedIndex_within |]).
    split; now apply (placedWithin_extends_icons b2 b6).
Qed.

End IndexInvariant.

Lemma indices_modify (f : Bucket -> Bucket) :
  (forall b, extends b (f b)) -> preserves indicesInBounds (modify f).
Proof.
  intros Hf. apply preserves_modify. intros b. apply indicesInBounds_extends, Hf.
Qed.

Ltac indices_step :=
  first
    [ preserves_step
    | apply indices_modify; extends_write ].

Lemma warnOnce_indices message : preserves indicesInBounds (warnOnce message).
Proof.
  unfold warnOnce. apply indices_modify. intros b.
  destruct (existsb (String.eqb message) (warnOnceHistory b)); extends_write.
Qed.

Section IndexInvariantLayout.

Context `{C : Collaborators}.

Variable cfg : BucketConfig.
Variable tile : Tile.

Lemma anchorIsTooClose_indices text r anchor :
  preserves indicesInBounds (anchorIsTooClose text r anchor).
Proof. unfold anchorIsTooClose. monad. repeat indices_step. Qed.

Lemma addSymbolAtAnchor_indices args line anchor sh :
  preserves indicesInBounds (addSymbolAtAnchor cfg tile args line anchor sh).
Proof.
  unfold addSymbolAtAnchor. repeat first [ apply addSymbol_indices | indices_step ].
Qed.

Lemma addSymbolAtAnchorFromLine_indices args line sh :
  preserves indicesInBounds (addSymbolAtAnchorFromLine cfg tile args line sh).
Proof.
  unfold addSymbolAtAnchorFromLine, addSymbolAtVertex. monad.
  repeat first [ apply addSymbolAtAnchor_indices | indices_step ].
Qed.

Lemma placeFeature_indices args textMaxBoxScale symbolMinDistance textMaxAngle sh :
  preserves indicesInBounds
    (placeFeature cfg tile args textMaxBoxScale symbolMinDistance textMaxAngle sh).
Proof.
  unfold placeFeature, placeAlongLine.
  repeat first [ apply addSymbolAtAnchor_indices | apply addSymbolAtAnchorFromLine_indices
               | apply anchorIsTooClose_indices | indices_step ].
Qed.

Lemma layoutFeature_indices sizes hasAnySecondaryIcon feature :
  preserves indicesInBounds (layoutFeature cfg tile sizes hasAnySecondaryIcon feature).
Proof.
  unfold layoutFeature, shapeFeatureIcon, addFeature. monad.
  repeat first [ apply placeFeature_indices | apply warnOnce_indices | indices_step ].
Qed.

(** The indices that the symbol instances of a completed layout record
    are indices into the bucket's stores. *)
Lemma performSymbolLayout_indices b b' :
  performSymbolLayout cfg tile b = Normal (tt, b') -> indicesInBounds b'.
Proof.
  intros Hrun. unfold performSymbolLayout, createArrays in Hrun. monad.
  rewrite !bind_modify in Hrun.
  match type of Hrun with bind ?m ?k ?b0 = _ =>
    assert (Hstart : indicesInBounds b0) by constructor;
    assert (Hkeeps : preserves indicesInBounds (bind m k));
    [| exact (Hkeeps _ _ _ Hstart Hrun)]
  end.
  unfold generateCollisionDebugBuffers.
  repeat first [ apply layoutFeature_indices | indices_step ].
Qed.

End IndexInvariantLayout.

(** X17.  Every range of collision boxes that a symbol instance of a
    completed layout records, for its text, its vertical text, its icon
    and its vertical icon, is a range of the bucket's collision box store:
    it starts at a row or at the end of the store, ends where it starts or
    one row further, and does not go beyond the end of the store. *)
Theorem box_ranges_of_symbol_instances_are_in_bounds `{C : Collaborators}
    (cfg : BucketConfig) (tile : Tile) (b b' : Bucket) :
  performSymbolLayout cfg tile b = Normal (tt, b') ->
  forall inst,
    In inst (symbolInstances b') ->
    boxRangesWithin (len (collisionBoxArray b')) inst.
Proof.
  intros Hrun inst Hin.
  pose proof (performSymbolLayout_indices cfg tile b b' Hrun) as Hbounds.
  unfold indicesInBounds in Hbounds. rewrite List.Forall_forall in Hbounds.
  exact (proj1 (Hbounds inst Hin)).
Qed.

(** X18.  Every placed symbol that a symbol instance of a completed layout
    refers to, for its right, centre and left justified text, its vertical
    text, its icon and its vertical icon, is a row of the bucket's array
    of placed text symbols or of placed icon symbols, or is [-1] for
    none. *)
Theorem placed_symbols_of_symbol_instances_are_in_bounds `{C : Collaborators}
    (cfg : BucketConfig) (tile : Tile) (b b' : Bucket) :
  performSymbolLayout cfg tile b = Normal (tt, b') ->
  forall inst,
    In inst (symbolInstances b') ->
    placedSymbolsWithin (len (textPlacedSymbolArray b')) (len (iconPlacedSymbolArray b'))
      inst.
Proof.
  intros Hrun inst Hin.
  pose proof (performSymbolLayout_indices cfg tile b b' Hrun) as Hbounds.
  unfold indicesInBounds in Hbounds. rewrite List.Forall_forall in Hbounds.
  exact (proj2 (Hbounds inst Hin)).
Qed.

Lemma box_ranges_of_symbol_instances_are_in_bounds_witness :
  let cfg := Sample.sampleConfig (Sample.sampleLayout PlacePoint AlignAuto None 16)
               SizeSource
               [Sample.textFeature TypePoint [[mkPoint 10 10; mkPoint 20 20]] "Cafe"] in
  exists b',
    performSymbolLayout cfg Sample.sampleTile (emptyBucket []) = Normal (tt, b')
    /\ map (fun inst => (textBoxStartIndex inst, textBoxEndIndex inst, iconBoxStartIndex inst))
         (symbolInstances b')
       = [(0, 1, 1); (1, 2, 2)]%Z
    /\ forall inst,
         In inst (symbolInstances b') ->
         boxRangesWithin (len (collisionBoxArray b')) inst.
Proof.
  intros cfg.
  destruct (performSymbolLayout cfg Sample.sampleTile (emptyBucket [])) as [[[] b'] |] eqn:Hrun;
    [| vm_compute in Hrun; discriminate Hrun].
  exists b'. split; [reflexivity |]. split.
  - vm_compute in Hrun. injection Hrun as <-. reflexivity.
  - exact (box_ranges_of_symbol_instances_are_in_bounds cfg Sample.sampleTile
             (emptyBucket []) b' Hrun).
Defined.

Lemma placed_symbols_of_symbol_instances_are_in_bounds_witness :
  let cfg := Sample.sampleConfig (Sample.sampleLayout PlacePoint AlignAuto None 16)
               SizeSource
               [Sample.textFeature TypePoint [[mkPoint 10 10; mkPoint 20 20]] "Cafe"] in
  exists b',
    performSymbolLayout cfg Sample.sampleTile (emptyBucket []) = Normal (tt, b')
    /\ map (fun inst => (centerJustifiedTextSymbolIndex inst, placedIconSymbolIndex inst))
         (symbolInstances b')
       = [(0, -1); (1, -1)]%Z
    /\ forall inst,
         In inst (symbolInstances b') ->
         placedSymbolsWithin (len (textPlacedSymbolArray b'))
           (len (iconPlacedSymbolArray b')) inst.
Proof.
  intros cfg.
  destruct (performSymbolLayout cfg Sample.sampleTile (emptyBucket [])) as [[[] b'] |] eqn:Hrun;
    [| vm_compute in Hrun; discriminate Hrun].
  exists b'. split; [reflexivity |]. split.
  - vm_compute in Hrun. injection Hrun as <-. reflexivity.
  - exact (placed_symbols_of_symbol_instances_are_in_bounds cfg Sample.sampleTile
             (emptyBucket []) b' Hrun).
Defined.

(** * Interpolate expressions *)

Section InterpolationFactor.

Import Interpolate.
Context `{L : ExpressionLibrary}.



Lemma exponential_base_1_is_linear (input lower upper base : Q) :
  Qeq_bool base 1 = true ->
  interpolationFactor (Exponential base) input lower upper
  = interpolationFactor Linear input lower upper.
Proof.
  intros H. cbn [interpolationFactor]. unfold exponentialInterpolation.
  now rewrite H.
Qed.

End InterpolationFactor.

Section ParseFacts.

Import Interpolate.
Context `{L : ExpressionLibrary} `{P : !ParsingContext}.

Lemma sorted_snoc (l : list Q) (x : Q) :
  StronglySorted Qlt l -> (forall y, last l = Some y -> y < x) ->
  StronglySorted Qlt (l ++ [x]).
Proof.
  induction l as [|a l IH]; intros Hs Hlast.
  - repeat constructor.
  - inversion Hs as [|? ? Hs' Hall]; subst. cbn [app]. constructor.
    + apply IH; [exact Hs' |]. intros y Hy. apply Hlast.
      destruct l; [discriminate | exact Hy].
    + apply List.Forall_app. split; [exact Hall |].
      constructor; [| constructor].
      destruct (last l) as [y|] eqn:Hy.
      * apply Qlt_trans with y.
        -- rewrite List.Forall_forall in Hall. apply Hall.
           apply last_Some in Hy as [l' ->]. apply in_or_app. right. now left.
        -- apply Hlast. destruct l; [discriminate | exact Hy].
      * apply last_None in Hy. subst. now apply Hlast.
Qed.

Lemma lastLabelReaches_false {A} (stops : list (Q * A)) (label : Q) :
  lastLabelReaches stops label = false ->
  forall y, last (map fst stops) = Some y -> y < label.
Proof.
  unfold lastLabelReaches. intros H y Hy. rewrite Hy in H.
  unfold Num.geb in H. apply Qnot_le_lt. intros Hle.
  apply Qle_bool_iff in Hle. congruence.
Qed.

Lemma parseStops_pair (label : Q) (value : JsValue) (rest : list JsValue) (i : Z)
    (outputType : option ExprType) (acc : list (Q * Expression)) :
  parseStops (JNumber label :: value :: rest) i outputType acc =
  if lastLabelReaches acc label then inl (Undefined LabelsNotAscending [(i + 3)%Z])
  else
    match contextParse (Some value) (i + 4) outputType with
    | None => inl Null
    | Some parsed =>
        parseStops rest (i + 2)
          match outputType with
          | Some ty => Some ty
          | None => Some (typeOf parsed)
          end
          (acc ++ [(label, parsed)])
    end.
Proof. reflexivity. Qed.

(** The stops of a run of the loop over an even number of elements. *)
Lemma parseStops_inv (n : nat) :
  forall rest i outputType acc outputType' stops',
    (length rest <= n)%nat -> Nat.even (length rest) = true ->
    parseStops rest i outputType acc = inr (outputType', stops') ->
    exists new,
      stops' = acc ++ new /\
      length rest = (2 * length new)%nat /\
      (forall k label, map fst new !! k = Some label ->
                       rest !! (2 * k)%nat = Some (JNumber label)) /\
      (StronglySorted Qlt (map fst acc) -> StronglySorted Qlt (map fst stops')) /\
      (forall ty, outputType = Some ty -> outputType' = Some ty) /\
      (new <> [] -> exists ty, outputType' = Some ty).
Proof.
  induction n as [|n IH]; intros rest i outputType acc outputType' stops' Hlen Heven Hrun.
  - destruct rest; [| cbn in Hlen; lia]. cbn in Hrun. injection Hrun as <- <-.
    exists []. rewrite app_nil_r. repeat split; try easy.
  - destruct rest as [|label [|value rest]].
    + cbn in Hrun. injection Hrun as <- <-.
      exists []. rewrite app_nil_r. repeat split; try easy.
    + discriminate Heven.
    + destruct label as [| |label| | |]; try discriminate Hrun.
      rewrite parseStops_pair in Hrun.
      destruct (lastLabelReaches acc label) eqn:Hlast; [discriminate |].
      destruct (contextParse (Some value) (i + 4) outputType) as [parsed|] eqn:Hparsed;
        [| discriminate].
      apply IH in Hrun as (new & -> & Hl & Hlabels & Hsorted & Hty & Hsome);
        [| cbn in Hlen; lia | exact Heven].
      exists ((label, parsed) :: new). repeat split.
      * now rewrite <- app_assoc.
      * cbn [length]. lia.
      * intros [|k] l Hk.
        -- cbn in Hk. injection Hk as <-. reflexivity.
        -- replace (2 * S k)%nat with (S (S (2 * k))) by lia. cbn. now apply Hlabels.
      * intros Hacc. apply Hsorted. rewrite map_app. cbn [map fst].
        apply sorted_snoc; [exact Hacc |]. now apply lastLabelReaches_false.
      * intros ty ->. now apply Hty.
      * intros _. destruct outputType as [ty|]; eauto.
Qed.

(** The loop of [parse] gives the same stops on what [serialize] writes
    for them, when the sub-expressions parse back from what they
    serialize to. *)
Lemma parseStops_again (n : nat) :
  (forall value key ty e,
     contextParse (Some value) key ty = Some e ->
     contextParse (Some (serializeExpression e)) key ty = Some e) ->
  forall rest i outputType acc outputType' stops',
    (length rest <= n)%nat -> Nat.even (length rest) = true ->
    parseStops rest i outputType acc = inr (outputType', stops') ->
    exists new,
      stops' = acc ++ new /\
      parseStops
        (flat_map (fun stop => [JNumber (fst stop); serializeExpression (snd stop)]) new)
        i outputType acc = inr (outputType', stops').
Proof.
  intros Hback.
  induction n as [|n IH]; intros rest i outputType acc outputType' stops' Hlen Heven Hrun.
  - destruct rest; [| cbn in Hlen; lia]. cbn in Hrun. injection Hrun as <- <-.
    exists []. now rewrite app_nil_r.
  - destruct rest as [|label [|value rest]].
    + cbn in Hrun. injection Hrun as <- <-. exists []. now rewrite app_nil_r.
    + discriminate Heven.
    + destruct label as [| |label| | |]; try discriminate Hrun.
      rewrite parseStops_pair in Hrun.
      destruct (lastLabelReaches acc label) eqn:Hlast; [discriminate |].
      destruct (contextParse (Some value) (i + 4) outputType) as [parsed|] eqn:Hparsed;
        [| discriminate].
      apply IH in Hrun as (new & -> & Hagain); [| cbn in Hlen; lia | exact Heven].
      exists ((label, parsed) :: new). split; [now rewrite <- app_assoc |].
      cbn [flat_map app fst snd]. rewrite parseStops_pair, Hlast.
      now rewrite (Hback _ _ _ _ Hparsed).
Qed.

End ParseFacts.

Section ParseTheorems.

Import Interpolate.
Context `{L : ExpressionLibrary} `{P : !ParsingContext}.

Lemma even_rest {A} (args : list A) :
  (3 < len args - 1)%Z -> Z.rem (len args - 1) 2 = 0%Z ->
  Nat.even (length (drop 3 args)) = true.
Proof.
  unfold len. intros Hlt Hrem. rewrite length_drop.
  apply Nat.even_spec. exists (Z.to_nat (Z.quot (Z.of_nat (length args) - 1) 2) - 1)%nat.
  pose proof (Z.quot_rem' (Z.of_nat (length args) - 1) 2) as Hq.
  rewrite Hrem in Hq. lia.
Qed.

Lemma parseInterpolationType_failure (interpolation : option JsValue) (failure : ParseResult) :
  parseInterpolationType interpolation = inl failure ->
  forall self, failure <> Parsed self.
Proof.
  unfold parseInterpolationType. intros H self ->.
  repeat match type of H with
         | context [match ?x with _ => _ end] => destruct x
         end; discriminate.
Qed.

Lemma parseStops_failure (rest : list JsValue) :
  forall n i outputType acc failure,
    (length rest <= n)%nat ->
    parseStops rest i outputType acc = inl failure ->
    forall self, failure <> Parsed self.
Proof.
  intros n. revert rest.
  induction n as [|n IH]; intros rest i outputType acc failure Hlen Hrun self ->.
  - destruct rest; [discriminate | cbn in Hlen; lia].
  - destruct rest as [|label rest]; [discriminate |].
    cbn [parseStops] in Hrun.
    destruct label as [| |label| | |]; try discriminate.
    destruct (lastLabelReaches acc label); [discriminate |].
    destruct (contextParse (head rest) (i + 4) outputType); [| discriminate].
    eapply (IH _ _ _ _ _) in Hrun; [now apply Hrun |].
    destruct rest; cbn in *; lia.
Qed.

(** What a successful [parse] has gone through. *)
Lemma parse_inv (args : list JsValue) (self : t) :
  parse args = Parsed self ->
  let outputType :=
    if isColorOperator (args !! 0%nat) then Some ColorType else expectedOutputType in
  exists interpolation0 input0,
    parseInterpolationType (args !! 1%nat) = inr interpolation0 /\
    contextParse (args !! 2%nat) 2 (Some NumberType) = Some input0 /\
    ((len args = 4%Z /\
      exists stopsExpression,
        contextParse (drop 3 args !! 0%nat) 3 (Some ValueType) = Some stopsExpression /\
        self = make outputType (args !! 0%nat) interpolation0 input0
                 (Some stopsExpression) [])
     \/
     ((4 < len args)%Z /\ Nat.even (length (drop 3 args)) = true /\
      exists ty stops,
        parseStops (drop 3 args) 0 outputType [] = inr (Some ty, stops) /\
        interpolatable ty = true /\
        self = make (Some ty) (args !! 0%nat) interpolation0 input0 None stops)).
Proof.
  intros Hparse outputType. unfold parse in Hparse. fold outputType in Hparse.
  destruct (parseInterpolationType (args !! 1%nat)) as [failure|interpolation0] eqn:Hi.
  { now apply parseInterpolationType_failure with (self := self) in Hi. }
  destruct (len args - 1 <? 3)%Z eqn:Hfew; [discriminate |].
  destruct ((3 <? len args - 1)%Z && negb (Z.rem (len args - 1) 2 =? 0)%Z) eqn:Hodd;
    [discriminate |].
  destruct (contextParse (args !! 2%nat) 2 (Some NumberType)) as [input0|] eqn:Hinput;
    [| discriminate].
  exists interpolation0, input0. split; [reflexivity |]. split; [reflexivity |].
  destruct (len args - 1 =? 3)%Z eqn:Hthree.
  - left. split; [lia |].
    destruct (contextParse (drop 3 args !! 0%nat) 3 (Some ValueType))
      as [stopsExpression|]; [| discriminate].
    exists stopsExpression. split; [reflexivity |]. congruence.
  - right. assert (Hmore : (3 < len args - 1)%Z) by lia.
    split; [lia |]. split.
    { apply even_rest; [exact Hmore |].
      apply Z.ltb_lt in Hmore. rewrite Hmore in Hodd. cbn in Hodd.
      apply negb_false_iff in Hodd. lia. }
    destruct (parseStops (drop 3 args) 0 outputType []) as [failure|[[ty|] stops]] eqn:Hstops.
    + now apply parseStops_failure with (n := length (drop 3 args)) (self := self) in Hstops.
    + destruct (interpolatable ty) eqn:Hty; [| discriminate].
      exists ty, stops. repeat split; congruence.
    + discriminate.
Qed.

(** X20. An expression that [parse] returns with stops of its own was
    given more than four arguments; it has half as many stops as
    arguments after the input, their labels are the numbers at every
    other argument from the fourth on and are strictly ascending, and its
    type is a number, a colour or an array of numbers of known length.
    One that [parse] returns with a stops expression was given exactly
    four arguments and has no stops of its own.  The operator is the first
    argument as it came. *)
Theorem parsed_stops_are_ascending (args : list JsValue) (self : t) :
  parse args = Parsed self ->
  operator self = args !! 0%nat /\
  match dynamicStops self with
  | Some _ => len args = 4%Z /\ stops self = []
  | None =>
      (4 < len args)%Z /\
      (2 * len (stops self) = len args - 3)%Z /\
      StronglySorted Qlt (labels self) /\
      (forall k label, labels self !! k = Some label ->
                       args !! (3 + 2 * k)%nat = Some (JNumber label)) /\
      exists ty, type self = Some ty /\ interpolatable ty = true
  end.
Proof.
  intros Hparse.
  destruct (parse_inv _ _ Hparse) as (interpolation0 & input0 & _ & _ & Hcases).
  destruct Hcases as [(Hlen & dyn & _ & ->) | (Hlen & Heven & ty & stops0 & Hstops & Hty & ->)];
    cbn [operator dynamicStops stops type labels].
  - now split.
  - split; [reflexivity |].
    apply parseStops_inv with (n := length (drop 3 args)) in Hstops
      as (new & -> & Hl & Hlabels & Hsorted & _ & _); [| lia | exact Heven].
    cbn [app] in *. split; [exact Hlen |]. split.
    { unfold len in *. rewrite length_drop in Hl. lia. }
    split; [apply Hsorted; constructor |]. split.
    { intros k label Hk. apply Hlabels in Hk. now rewrite lookup_drop in Hk. }
    now exists ty.
Qed.

Lemma parseInterpolationType_again (value : option JsValue) (i : InterpolationType) :
  parseInterpolationType value = inr i ->
  exists i',
    parseInterpolationType (Some (serializeInterpolationType i)) = inr i' /\
    forall input lower upper,
      interpolationFactor i' input lower upper = interpolationFactor i input lower upper.
Proof.
  unfold parseInterpolationType at 1. intros H.
  destruct value as [[| | | |[|name rest]|]|]; try discriminate.
  destruct (isString name "linear").
  { injection H as <-. exists Linear. now split. }
  destruct (isString name "exponential").
  { destruct rest as [|[| |base| | |] ?]; try discriminate. injection H as <-.
    cbn [serializeInterpolationType]. destruct (Qeq_bool base 1) eqn:Hbase.
    - exists Linear. split; [reflexivity |].
      intros. symmetry. now apply exponential_base_1_is_linear.
    - exists (Exponential base). now split. }
  destruct (isString name "cubic-bezier"); [| discriminate].
  destruct (negb (length rest =? 4)%nat || existsb notInUnitInterval rest) eqn:Hpoints;
    [discriminate |].
  destruct rest as [|[| |c0| | |] [|[| |c1| | |] [|[| |c2| | |] [|[| |c3| | |] [|]]]]];
    try discriminate.
  injection H as <-. exists (CubicBezier c0 c1 c2 c3). split; [| reflexivity].
  cbn [serializeInterpolationType parseInterpolationType].
  simpl (isString _ _). now rewrite Hpoints.
Qed.

Lemma andThen_ext {A B} (m : Evaluated A) (k1 k2 : A -> Evaluated B) :
  (forall a, k1 a = k2 a) -> andThen m k1 = andThen m k2.
Proof. intros H. destruct m; cbn; [apply H | reflexivity | reflexivity]. Qed.

(** [evaluate] reads the interpolation through its factor only. *)
Lemma evaluate_factor (ty : option ExprType) (op : option JsValue)
    (i1 i2 : InterpolationType) (inp : Expression) (dyn : option Expression)
    (st : list (Q * Expression)) (ctx : EvaluationContext) :
  (forall x lower upper,
     interpolationFactor i1 x lower upper = interpolationFactor i2 x lower upper) ->
  evaluate (make ty op i1 inp dyn st) ctx = evaluate (make ty op i2 inp dyn st) ctx.
Proof.
  intros Hfactor. unfold evaluate. cbn [dynamicStops stops].
  apply andThen_ext. intros stops0.
  unfold evaluateStops, operatorIs. cbn [type operator interpolation input].
  destruct (length stops0 =? 1)%nat; [reflexivity |].
  apply andThen_ext. intros value. cbv zeta.
  destruct (stops0 !! 0%nat) as [[firstLabel firstOutput]|]; [| reflexivity].
  destruct (last stops0) as [[lastLabel lastOutput]|]; [| reflexivity].
  destruct (Num.geb firstLabel (numberOf value)); [reflexivity |].
  destruct (Num.geb (numberOf value) lastLabel); [reflexivity |].
  destruct (stops0 !! _) as [[lower lowerOutput]|]; [| reflexivity].
  destruct (stops0 !! _) as [[upper upperOutput]|]; [| reflexivity].
  now rewrite Hfactor.
Qed.

(** X21. What [serialize] writes for an expression that [parse] returned
    parses again, in a context whose sub-expressions parse back from what
    they serialize to: to an expression with the same type, operator,
    input and stops, whose interpolation has the same factor everywhere
    (an exponential one of base 1 comes back as a linear one) and which
    evaluates to the same in every context. *)
Theorem serialized_expression_parses_back (args : list JsValue) (self : t) :
  (forall value key ty e,
     contextParse (Some value) key ty = Some e ->
     contextParse (Some (serializeExpression e)) key ty = Some e) ->
  parse args = Parsed self ->
  exists args' self',
    serialize self = map Some args' /\
    parse args' = Parsed self' /\
    type self' = type self /\
    operator self' = operator self /\
    input self' = input self /\
    dynamicStops self' = dynamicStops self /\
    stops self' = stops self /\
    (forall x lower upper,
       interpolationFactor (interpolation self') x lower upper
       = interpolationFactor (interpolation self) x lower upper) /\
    forall ctx, evaluate self' ctx = evaluate self ctx.
Proof.
  intros Hback Hparse.
  destruct (parse_inv _ _ Hparse) as (interpolation0 & input0 & Hi & Hinput & Hcases).
  destruct (parseInterpolationType_again _ _ Hi) as (i' & Hi' & Hfactor).
  assert (Hinput' : contextParse (Some (serializeExpression input0)) 2 (Some NumberType)
                    = Some input0).
  { destruct (args !! 2%nat) as [inputValue|] eqn:Hv.
    - now apply Hback with inputValue.
    - unfold len in Hcases. apply lookup_ge_None in Hv.
      destruct Hcases as [[? _] | [? _]]; lia. }
  destruct (args !! 0%nat) as [op|] eqn:Hop.
  2: { unfold len in Hcases. apply lookup_ge_None in Hop.
       destruct Hcases as [[? _] | [? _]]; lia. }
  destruct Hcases as [(Hlen & dyn & Hdyn & ->) | (Hlen & Heven & ty & stops0 & Hstops & Hty & ->)].
  - assert (Hdyn' : contextParse (Some (serializeExpression dyn)) 3 (Some ValueType)
                    = Some dyn).
    { destruct (drop 3 args !! 0%nat) as [stopsValue|] eqn:Hv.
      - now apply Hback with stopsValue.
      - apply lookup_ge_None in Hv. rewrite length_drop in Hv. unfold len in Hlen. lia. }
    exists [op; serializeInterpolationType interpolation0; serializeExpression input0;
            serializeExpression dyn].
    eexists. split; [reflexivity |]. split.
    { unfold parse. cbn [lookup list_lookup drop len length].
      rewrite Hi'. cbn [Z.of_nat Pos.of_succ_nat Pos.succ Z.sub Z.add Z.opp Z.pos_sub
                          Pos.pred_double Z.ltb Z.compare Pos.compare Pos.compare_cont
                          Z.eqb Pos.eqb andb negb Z.rem Z.quotrem].
      cbn. rewrite Hinput'. cbn. rewrite Hdyn'. reflexivity. }
    cbn [type operator input dynamicStops stops interpolation].
    repeat split; try reflexivity; try exact Hfactor.
    intros ctx. now apply evaluate_factor.
  - pose proof Hstops as Hinv.
    apply parseStops_inv with (n := length (drop 3 args)) in Hinv
      as (new & Hnew & Hl & _); [| lia | exact Heven].
    apply (parseStops_again (length (drop 3 args)) Hback) in Hstops
      as (new' & Hnew' & Hagain); [| lia | exact Heven].
    cbn [app] in Hnew, Hnew'. subst new new'.
    set (rest' := flat_map (fun stop => [JNumber (fst stop); serializeExpression (snd stop)])
                    stops0) in *.
    set (args' := op :: serializeInterpolationType interpolation0
                     :: serializeExpression input0 :: rest').
    assert (Hrest : length rest' = (2 * length stops0)%nat).
    { subst rest'. clear. induction stops0 as [|stop stops0 IH]; cbn [flat_map length app];
        [reflexivity | rewrite IH; lia]. }
    assert (Hargs : len args' = (3 + 2 * len stops0)%Z).
    { unfold len, args'. cbn [length]. rewrite Hrest. lia. }
    assert (Hmany : (1 <= len stops0)%Z).
    { unfold len in *. rewrite length_drop in Hl. lia. }
    exists args'. eexists. split.
    { unfold serialize, args', rest'. cbn [operator interpolation input dynamicStops stops].
      cbn [app map]. do 3 f_equal. clear. induction stops0 as [|stop stops0 IH];
        cbn [flat_map map app]; [reflexivity | now rewrite IH]. }
    split.
    { unfold parse.
      replace (args' !! 1%nat) with (Some (serializeInterpolationType interpolation0))
        by reflexivity.
      replace (args' !! 2%nat) with (Some (serializeExpression input0)) by reflexivity.
      replace (args' !! 0%nat) with (Some op) by reflexivity.
      replace (drop 3 args') with rest' by reflexivity.
      rewrite Hi', Hinput', Hagain, Hty.
      replace (len args' - 1 <? 3)%Z with false by lia.
      replace (3 <? len args' - 1)%Z with true by lia.
      replace (len args' - 1 =? 3)%Z with false by lia.
      replace (Z.rem (len args' - 1) 2 =? 0)%Z with true; [reflexivity |].
      symmetry. apply Z.eqb_eq.
      replace (len args' - 1)%Z with ((1 + len stops0) * 2)%Z by lia.
      now apply Z.rem_mul. }
    cbn [type operator input dynamicStops stops interpolation].
    repeat split; try reflexivity; try exact Hfactor.
    intros ctx. now apply evaluate_factor.
Qed.

End ParseTheorems.

Section InterpolateSamples.

Import Interpolate.


Lemma parsed_stops_are_ascending_witness :
  let args :=
    [JString "interpolate"; JArray [JString "linear"]; JArray [JString "zoom"];
       JNumber 5; JNumber 1; JNumber 10; JNumber 3; JNumber 15; JNumber 9] in
  exists self,
    parse (P := SampleExpressions.context None) args = Parsed self /\
    operator self = args !! 0%nat /\
    match dynamicStops self with
    | Some _ => len args = 4%Z /\ stops self = []
    | None =>
        (4 < len args)%Z /\
        (2 * len (stops self) = len args - 3)%Z /\
        StronglySorted Qlt (labels self) /\
        (forall k label, labels self !! k = Some label ->
                         args !! (3 + 2 * k)%nat = Some (JNumber label)) /\
        exists ty, type self = Some ty /\ interpolatable ty = true
    end.
Proof.
  intros args. eexists. split; [reflexivity |].
  apply (parsed_stops_are_ascending (P := SampleExpressions.context None) args).
  reflexivity.
Defined.

Lemma serialized_expression_parses_back_witness :
  let args :=
    [JString "interpolate"; JArray [JString "exponential"; JNumber 1];
       JArray [JString "zoom"]; JNumber 5; JNumber 1; JNumber 10; JNumber 3] in
  exists self,
    parse (P := SampleExpressions.context None) args = Parsed self /\
    interpolation self = Exponential 1 /\
    exists args' self',
      serialize self = map Some args' /\
      parse (P := SampleExpressions.context None) args'
      = Parsed self' /\
      type self' = type self /\
      operator self' = operator self /\
      input self' = input self /\
      dynamicStops self' = dynamicStops self /\
      stops self' = stops self /\
      (forall x lower upper,
         interpolationFactor (interpolation self') x lower upper
         = interpolationFactor (interpolation self) x lower upper) /\
      forall ctx, evaluate self' ctx = evaluate self ctx.
Proof.
  intros args. eexists. split; [reflexivity |]. split; [reflexivity |].
  apply (serialized_expression_parses_back (P := SampleExpressions.context None) args).
  - intros value key ty e _. destruct e as [[]|]; reflexivity.
  - reflexivity.
Defined.

End InterpolateSamples.

Section EvaluateFacts.

Import Interpolate.
Context `{L : ExpressionLibrary}.

Lemma last_of_map {A B} (f : A -> B) (l : list A) :
  last (map f l) = option_map f (last l).
Proof.
  induction l as [|a [|b l] IH]; [reflexivity | reflexivity |].
  change (last (map f (a :: b :: l))) with (last (map f (b :: l))).
  now rewrite IH.
Qed.

Lemma sorted_first_last (a : Q) (l : list Q) (b : Q) :
  StronglySorted Qlt (a :: l) -> l <> [] -> last (a :: l) = Some b -> a < b.
Proof.
  intros Hs Hne Hlast. inversion Hs as [|? ? _ Hall]; subst.
  rewrite List.Forall_forall in Hall. apply Hall.
  destruct l as [|c l]; [contradiction |].
  change (last (a :: c :: l)) with (last (c :: l)) in Hlast.
  apply last_Some in Hlast as [l' Hl']. rewrite Hl'. apply in_or_app. right. now left.
Qed.

(** X22. An expression with stops of its own and ascending labels takes
    the output of its first stop for an input at or below the first
    label, and the output of its last stop for an input at or above the
    last label: outside the stops it does not extrapolate. *)
Theorem evaluate_clamps_outside_the_stops (self : t) (ctx : EvaluationContext)
    (value : Value) :
  dynamicStops self = None ->
  StronglySorted Qlt (labels self) ->
  evaluateExpression (input self) ctx = Returns value ->
  (forall label output,
     head (stops self) = Some (label, output) -> numberOf value <= label ->
     evaluate self ctx = evaluateExpression output ctx) /\
  (forall label output,
     last (stops self) = Some (label, output) -> label <= numberOf value ->
     evaluate self ctx = evaluateExpression output ctx).
Proof.
  intros Hdyn Hsorted Hinput. unfold evaluate, labels in *. rewrite Hdyn. cbn [andThen].
  set (f := fun stop : Q * Expression => (fst stop, OutputExpression (snd stop))).
  unfold evaluateStops. rewrite last_of_map, length_map.
  destruct (stops self) as [|[firstLabel firstOutput] [|second rest]].
  - split; intros label output H; discriminate H.
  - split; intros label output H _; cbn in H; injection H as <- <-; reflexivity.
  - cbn [length Nat.eqb]. rewrite Hinput. cbn [andThen map lookup list_lookup]. cbv zeta.
    destruct (last ((firstLabel, firstOutput) :: second :: rest))
      as [[lastLabel lastOutput]|] eqn:Hlast;
      [| apply last_None in Hlast; discriminate].
    cbn [option_map f fst snd]. split; intros label output H Hle.
    + cbn in H. injection H as <- <-.
      unfold Num.geb. apply Qle_bool_iff in Hle. now rewrite Hle.
    + injection H as <- <-.
      assert (Hlt : firstLabel < lastLabel).
      { cbn [map fst] in Hsorted.
        apply (sorted_first_last _ _ _ Hsorted); [discriminate |].
        change (firstLabel :: fst second :: map fst rest)
          with (map fst ((firstLabel, firstOutput) :: second :: rest)).
        now rewrite last_of_map, Hlast. }
      unfold Num.geb.
      destruct (Qle_bool (numberOf value) firstLabel) eqn:Hfirst.
      { apply Qle_bool_iff in Hfirst. lra. }
      apply Qle_bool_iff in Hle. now rewrite Hle.
Qed.

Lemma labels_of_literalStops (pairs : list (Q * JsValue)) :
  map fst (literalStops pairs) = map fst pairs.
Proof. unfold literalStops. rewrite List.map_map. reflexivity. Qed.

Lemma dynamicStopsLoop_pair (label : Q) (output : JsValue) (rest : list JsValue)
    (acc : list (Q * Output)) :
  dynamicStopsLoop (JNumber label :: output :: rest) acc =
  if lastLabelReaches acc label then RuntimeError notAscendingMessage
  else dynamicStopsLoop rest (acc ++ [(label, OutputLiteral output)]).
Proof. reflexivity. Qed.

Lemma dynamicStopsLoop_inv (n : nat) :
  forall value acc stops,
    (length value <= n)%nat -> Nat.even (length value) = true ->
    dynamicStopsLoop value acc = Returns stops ->
    exists pairs,
      value = flatPairs pairs /\ stops = acc ++ literalStops pairs /\
      (StronglySorted Qlt (map fst acc) -> StronglySorted Qlt (map fst stops)).
Proof.
  induction n as [|n IH]; intros value acc stops Hlen Heven Hrun.
  - destruct value; [| cbn in Hlen; lia]. cbn in Hrun. injection Hrun as <-.
    exists []. now rewrite app_nil_r.
  - destruct value as [|label [|output rest]].
    + cbn in Hrun. injection Hrun as <-. exists []. now rewrite app_nil_r.
    + discriminate Heven.
    + destruct label as [| |label| | |]; try discriminate Hrun.
      rewrite dynamicStopsLoop_pair in Hrun.
      destruct (lastLabelReaches acc label) eqn:Hlast; [discriminate |].
      apply IH in Hrun as (pairs & -> & -> & Hsorted); [| cbn in Hlen; lia | exact Heven].
      exists ((label, output) :: pairs). split; [reflexivity |].
      split; [now rewrite <- app_assoc |].
      intros Hacc. apply Hsorted. rewrite map_app. cbn [map fst].
      apply sorted_snoc; [exact Hacc |]. now apply lastLabelReaches_false.
Qed.

Lemma sorted_app_last (l1 : list Q) (x : Q) (l2 : list Q) :
  StronglySorted Qlt (l1 ++ x :: l2) -> forall y, last l1 = Some y -> y < x.
Proof.
  induction l1 as [|a l1 IH]; intros Hs y Hy; [discriminate |].
  cbn [app] in Hs. inversion Hs as [|? ? Hs' Hall]; subst.
  destruct l1 as [|b l1].
  - cbn in Hy. injection Hy as <-. now inversion Hall.
  - apply IH; [exact Hs' | exact Hy].
Qed.

Lemma dynamicStopsLoop_runs (pairs : list (Q * JsValue)) :
  forall acc,
    StronglySorted Qlt (map fst acc ++ map fst pairs) ->
    dynamicStopsLoop (flatPairs pairs) acc = Returns (acc ++ literalStops pairs).
Proof.
  induction pairs as [|[label output] pairs IH]; intros acc Hsorted.
  - cbn. now rewrite app_nil_r.
  - cbn [flatPairs flat_map app fst snd]. rewrite dynamicStopsLoop_pair.
    cbn [map fst] in Hsorted.
    assert (Hlast : lastLabelReaches acc label = false).
    { unfold lastLabelReaches. destruct (last (map fst acc)) as [y|] eqn:Hy; [| reflexivity].
      pose proof (sorted_app_last _ _ _ Hsorted y Hy) as Hlt.
      unfold Num.geb. destruct (Qle_bool label y) eqn:Hle; [| reflexivity].
      apply Qle_bool_iff in Hle. lra. }
    rewrite Hlast. fold (flatPairs pairs). rewrite IH.
    + cbn [literalStops map fst snd]. now rewrite <- app_assoc.
    + rewrite map_app. cbn [map fst]. now rewrite <- app_assoc.
Qed.

Lemma length_flatPairs (pairs : list (Q * JsValue)) :
  length (flatPairs pairs) = (2 * length pairs)%nat.
Proof.
  induction pairs as [|pair pairs IH]; [reflexivity |].
  cbn [flatPairs flat_map app length]. fold (flatPairs pairs). rewrite IH. lia.
Qed.

Lemma even_double (n : nat) : Nat.even (2 * n) = true.
Proof. apply Nat.even_spec. now exists n. Qed.

Lemma dynamicStopsOf_inv (value : list JsValue) (stops : list (Q * Output)) :
  dynamicStopsOf value = Returns stops ->
  exists pairs,
    pairs <> [] /\ StronglySorted Qlt (map fst pairs) /\
    value = flatPairs pairs /\ stops = literalStops pairs.
Proof.
  unfold dynamicStopsOf. intros Hrun.
  destruct (Nat.even (length value)) eqn:Heven; [| discriminate].
  cbn [negb] in Hrun.
  destruct (dynamicStopsLoop value []) as [stops0| |] eqn:Hloop; try discriminate.
  cbn [andThen] in Hrun.
  apply dynamicStopsLoop_inv with (n := length value) in Hloop
    as (pairs & -> & -> & Hsorted); [| lia | exact Heven].
  cbn [app] in *. exists pairs.
  destruct pairs as [|pair pairs]; [discriminate |].
  injection Hrun as <-. split; [discriminate |]. split; [| now split].
  rewrite <- labels_of_literalStops. apply Hsorted. constructor.
Qed.

(** X23. The stops that [evaluate] takes from the value of a stops
    expression: [evaluate] accepts the value exactly when it is a
    sequence of one or more pairs of a number and an output whose
    numbers are strictly ascending, and then its stops are these pairs in
    order, each output as a literal; for any other value it throws. *)
Theorem dynamic_stops_are_ascending_pairs (value : list JsValue)
    (stops : list (Q * Output)) :
  dynamicStopsOf value = Returns stops <->
  exists pairs,
    pairs <> [] /\ StronglySorted Qlt (map fst pairs) /\
    value = flatPairs pairs /\ stops = literalStops pairs.
Proof.
  split; [apply dynamicStopsOf_inv |].
  intros (pairs & Hne & Hsorted & -> & ->).
  unfold dynamicStopsOf. rewrite length_flatPairs, even_double. cbn [negb].
  rewrite dynamicStopsLoop_runs by exact Hsorted. cbn [andThen app].
  destruct pairs; [contradiction | reflexivity].
Qed.

End EvaluateFacts.

Section UntypedStops.

Import Interpolate.
Context `{L : ExpressionLibrary} `{P : !ParsingContext}.

Lemma literalStops_lookup (pairs : list (Q * JsValue)) (k : nat) (label : Q)
    (output : Output) :
  literalStops pairs !! k = Some (label, output) ->
  exists value, output = OutputLiteral value.
Proof.
  revert k. induction pairs as [|pair pairs IH]; intros [|k] H; try discriminate.
  - cbn in H. injection H as _ <-. eauto.
  - now apply IH with k.
Qed.

(** X24. An ["interpolate"] expression with a stops expression, parsed
    where no type or any value is expected, has no type; evaluating it
    for an input strictly between the first and the last label of its
    stops throws a TypeError instead of returning a value. *)
Theorem untyped_stops_expression_throws_between_stops (args : list JsValue) (self : t)
    (stopsExpression : Expression) (ctx : EvaluationContext) (stopsValue value : Value)
    (stops0 : list (Q * Output)) (first final : Q * Output) :
  parse args = Parsed self ->
  dynamicStops self = Some stopsExpression ->
  args !! 0%nat = Some (JString "interpolate") ->
  expectedOutputType = None ->
  evaluateExpression stopsExpression ctx = Returns stopsValue ->
  dynamicStopsOf (arrayOf stopsValue) = Returns stops0 ->
  evaluateExpression (input self) ctx = Returns value ->
  head stops0 = Some first -> last stops0 = Some final ->
  fst first < numberOf value < fst final ->
  type self = None /\ evaluate self ctx = TypeError.
Proof.
  intros Hparse Hdyn Hop Hexpected HstopsValue Hstops Hinput Hfirst Hfinal [Hlo Hhi].
  destruct (parse_inv _ _ Hparse) as (interpolation0 & input0 & _ & _ & Hcases).
  rewrite Hop in Hcases.
  change (isColorOperator (Some (JString "interpolate"))) with false in Hcases.
  destruct Hcases as [(_ & dyn & _ & ->) | (_ & _ & ty & st & _ & _ & ->)];
    [| discriminate Hdyn].
  cbn [dynamicStops input] in Hdyn, Hinput. injection Hdyn as ->.
  split; [exact Hexpected |].
  unfold evaluate. cbn [dynamicStops].
  rewrite HstopsValue. cbn [andThen]. rewrite Hstops. cbn [andThen].
  apply dynamicStopsOf_inv in Hstops as (pairs & _ & _ & _ & ->).
  unfold evaluateStops, operatorIs. cbn [input type operator interpolation].
  rewrite Hfinal.
  destruct pairs as [|[firstLabel firstValue] [|[secondLabel secondValue] rest]].
  - discriminate Hfirst.
  - cbn in Hfirst, Hfinal. injection Hfirst as <-. injection Hfinal as <-. cbn in Hlo, Hhi. lra.
  - set (pairs := (firstLabel, firstValue) :: (secondLabel, secondValue) :: rest) in *.
    cbn in Hfirst. injection Hfirst as <-. cbn [fst] in Hlo.
    destruct final as [lastLabel lastOutput]. cbn [fst] in Hhi.
    replace (length (literalStops pairs) =? 1)%nat with false by reflexivity.
    replace (literalStops pairs !! 0%nat) with (Some (firstLabel, OutputLiteral firstValue))
      by reflexivity.
    rewrite Hinput. cbn [andThen]. cbv zeta. unfold Num.geb.
    destruct (Qle_bool (numberOf value) firstLabel) eqn:H1.
    { apply Qle_bool_iff in H1. lra. }
    destruct (Qle_bool lastLabel (numberOf value)) eqn:H2.
    { apply Qle_bool_iff in H2. lra. }
    destruct (literalStops pairs !! _) as [[lower lowerOutput]|] eqn:Hlower; [| reflexivity].
    apply literalStops_lookup in Hlower as [lowerValue ->].
    destruct (literalStops pairs !! S _) as [[upper upperOutput]|] eqn:Hupper; [| reflexivity].
    apply literalStops_lookup in Hupper as [upperValue ->].
    cbn [evaluateOutput andThen].
    change (isString (JString "interpolate") "interpolate") with true.
    cbv iota. now rewrite Hexpected.
Qed.

End UntypedStops.

Section EvaluateSamples.

Import Interpolate.

Lemma evaluate_clamps_outside_the_stops_witness :
  let self :=
    make (Some NumberType) (Some (JString "interpolate")) Linear SampleExpressions.Zoom None
      [(5, SampleExpressions.Literal (JNumber 1));
       (10, SampleExpressions.Literal (JNumber 3))] in
  evaluate self 20 = Returns (JNumber 3) /\
  (forall label output,
     head (stops self) = Some (label, output) -> numberOf (JNumber 20) <= label ->
     evaluate self 20 = evaluateExpression output 20) /\
  (forall label output,
     last (stops self) = Some (label, output) -> label <= numberOf (JNumber 20) ->
     evaluate self 20 = evaluateExpression output 20).
Proof.
  intros self. split; [reflexivity |].
  apply (evaluate_clamps_outside_the_stops (L := SampleExpressions.library) self 20
           (JNumber 20)).
  - reflexivity.
  - repeat constructor.
  - reflexivity.
Defined.

Lemma untyped_stops_expression_throws_between_stops_witness :
  let args :=
    [JString "interpolate"; JArray [JString "linear"]; JArray [JString "zoom"];
     JArray [JString "literal"; JArray [JNumber 0; JNumber 1; JNumber 10; JNumber 2]]] in
  exists self,
    parse (P := SampleExpressions.context None) args = Parsed self /\
    type self = None /\ evaluate self 5 = TypeError.
Proof.
  intros args. eexists. split; [reflexivity |].
  eapply (untyped_stops_expression_throws_between_stops
            (P := SampleExpressions.context None) args _ _ 5 _ (JNumber 5) _
            (0, OutputLiteral (JNumber 1)) (10, OutputLiteral (JNumber 2)));
    try reflexivity.
  split; reflexivity.
Defined.

End EvaluateSamples.

(** * Raster tile worker source *)

Section ObjectDelete.

Context {V : Type}.

Lemma obj_delete_app (k : string) (o1 o2 : JsObject V) :
  obj_delete k (o1 ++ o2) = obj_delete k o1 ++ obj_delete k o2.
Proof. apply List.filter_app. Qed.

Lemma obj_delete_absent (k : string) (o : JsObject V) :
  ~ In k (obj_keys o) -> obj_delete k o = o.
Proof.
  induction o as [|[k' v] o IH]; intros Hk; [reflexivity |].
  cbn [obj_delete List.filter fst]. fold (obj_delete k o).
  destruct (String.eqb k k') eqn:E.
  - apply String.eqb_eq in E. subst. exfalso. apply Hk. now left.
  - cbn [negb]. rewrite IH; [reflexivity |]. intros H. apply Hk. now right.
Qed.

Lemma obj_get_delete (k k' : string) (o : JsObject V) :
  obj_get k (obj_delete k' o) = if String.eqb k k' then None else obj_get k o.
Proof.
  induction o as [|[k0 v] o IH]; [now destruct (String.eqb k k') |].
  cbn [obj_delete List.filter fst]. fold (obj_delete k' o).
  destruct (String.eqb k' k0) eqn:E0; cbn [negb obj_get].
  - rewrite IH. apply String.eqb_eq in E0. subst k0.
    destruct (String.eqb k k') eqn:E; [reflexivity | reflexivity].
  - rewrite IH. destruct (String.eqb k k') eqn:E; [| reflexivity].
    apply String.eqb_eq in E. subst k'. now rewrite E0.
Qed.

Lemma obj_get_delete_all (k : string) (keys : list string) (o : JsObject V) :
  obj_get k (obj_delete_all keys o)
  = if existsb (String.eqb k) keys then None else obj_get k o.
Proof.
  revert o. induction keys as [|k' keys IH]; intros o; [reflexivity |].
  cbn [obj_delete_all fold_left existsb]. fold (obj_delete_all keys (obj_delete k' o)).
  rewrite IH, obj_get_delete.
  destruct (String.eqb k k'); cbn [orb]; [now destruct (existsb _ keys) | reflexivity].
Qed.

(** Deleting the keys of a stretch of bindings takes out the stretch,
    when no key occurs twice. *)
Lemma obj_delete_stretch (o2 : JsObject V) :
  forall o1 o3,
    NoDup (obj_keys (o1 ++ o2 ++ o3)) ->
    obj_delete_all (obj_keys o2) (o1 ++ o2 ++ o3) = o1 ++ o3.
Proof.
  induction o2 as [|[k v] o2 IH]; intros o1 o3 Hnd; [reflexivity |].
  cbn [obj_keys map fst obj_delete_all fold_left].
  fold (obj_keys o2). fold (obj_delete_all (obj_keys o2) (obj_delete k (o1 ++ ((k, v) :: o2) ++ o3))).
  unfold obj_keys in Hnd. rewrite map_app in Hnd. cbn [app map fst] in Hnd.
  apply NoDup_app in Hnd as (Hnd1 & Hdisj & Hnd2).
  apply NoDup_cons in Hnd2 as [Hk Hnd2].
  assert (Hk1 : ~ In k (obj_keys o1)).
  { intros H. apply (Hdisj k); [now apply list_elem_of_In | left]. }
  assert (Hrest : obj_delete k (o1 ++ ((k, v) :: o2) ++ o3) = o1 ++ o2 ++ o3).
  { rewrite obj_delete_app. rewrite (obj_delete_absent k o1 Hk1).
    cbn [app obj_delete List.filter fst]. rewrite String.eqb_refl. cbn [negb].
    fold (obj_delete k (o2 ++ o3)). rewrite obj_delete_absent; [reflexivity |].
    intros H. apply Hk. apply list_elem_of_In. exact H. }
  rewrite Hrest. apply IH.
  unfold obj_keys. rewrite map_app. apply NoDup_app. split; [exact Hnd1 |].
  split; [| exact Hnd2].
  intros x Hx Hx'. apply (Hdisj x Hx). now right.
Qed.

Lemma keysBetween_keys (first last : nat) (o : JsObject V) :
  RasterTileWorkerSource.keysBetween first last (obj_keys o)
  = obj_keys (drop first (take last o)).
Proof.
  unfold RasterTileWorkerSource.keysBetween, obj_keys.
  change (map fst) with (fmap (M := list) (fst (A := string) (B := V))).
  now rewrite fmap_drop, fmap_take.
Qed.

(** Deleting the keys between two indices leaves what is before the
    first and from the last on. *)
Lemma obj_delete_between (first last : nat) (o : JsObject V) :
  NoDup (obj_keys o) -> (first <= last)%nat ->
  obj_delete_all (RasterTileWorkerSource.keysBetween first last (obj_keys o)) o
  = take first o ++ drop last o.
Proof.
  intros Hnd Hle. rewrite keysBetween_keys.
  assert (Hsplit : o = take first o ++ drop first (take last o) ++ drop last o).
  { rewrite <- (take_drop last o) at 1. rewrite <- (take_drop first (take last o)) at 1.
    rewrite take_take. rewrite Nat.min_l by exact Hle. now rewrite <- app_assoc. }
  rewrite Hsplit at 2. apply obj_delete_stretch. now rewrite <- Hsplit.
Qed.

End ObjectDelete.

Section LimitedStorage.

Import RasterTileWorkerSource.
Context {Image : Type}.

(** X25. [limitedStorage] of the first copy leaves a store of at most 200
    images as it is; of a larger one it keeps the first eight and the
    last eight bindings in the order of [Object.keys] and deletes all
    between them, so that the store never stays above 200 images.  It
    touches nothing else of the instance. *)
Theorem limitedStorage_keeps_the_first_and_last_eight (self : t (Image := Image)) :
  NoDup (obj_keys (subLoading self)) ->
  subLoading (Copy1.limitedStorage self)
  = (if (200 <? len (subLoading self))%Z
     then take 8 (subLoading self) ++ drop (length (subLoading self) - 8) (subLoading self)
     else subLoading self) /\
  (len (subLoading (Copy1.limitedStorage self)) <= 200)%Z /\
  objects (Copy1.limitedStorage self) = objects self /\
  loading (Copy1.limitedStorage self) = loading self /\
  cancelled (Copy1.limitedStorage self) = cancelled self.
Proof.
  intros Hnd. unfold Copy1.limitedStorage.
  assert (Hkeys : length (obj_keys (subLoading self)) = length (subLoading self)).
  { unfold obj_keys. apply length_map. }
  unfold len in *. rewrite Hkeys.
  destruct (200 <? Z.of_nat (length (subLoading self)))%Z eqn:Hmany.
  - cbn [subLoading set_subLoading objects loading cancelled].
    rewrite obj_delete_between by (exact Hnd || lia).
    split; [reflexivity |]. split; [| now repeat split].
    rewrite length_app, length_take, length_drop. lia.
  - split; [reflexivity |]. split; [lia | now repeat split].
Qed.

(** X26. [limitedStorage] of the second copy leaves a store of at most
    300 images as it is; of a larger one it keeps the last 80 bindings in
    the order of [Object.keys] and deletes all before them.  It touches
    nothing else of the instance. *)
Theorem limitedStorage_keeps_the_last_eighty (self : t (Image := Image)) :
  NoDup (obj_keys (subLoading self)) ->
  subLoading (Copy2.limitedStorage self)
  = (if (300 <? len (subLoading self))%Z
     then drop (length (subLoading self) - 80) (subLoading self)
     else subLoading self) /\
  (len (subLoading (Copy2.limitedStorage self)) <= 300)%Z /\
  objects (Copy2.limitedStorage self) = objects self /\
  loading (Copy2.limitedStorage self) = loading self /\
  cancelled (Copy2.limitedStorage self) = cancelled self.
Proof.
  intros Hnd. unfold Copy2.limitedStorage.
  assert (Hkeys : length (obj_keys (subLoading self)) = length (subLoading self)).
  { unfold obj_keys. apply length_map. }
  unfold len in *. rewrite Hkeys.
  destruct (300 <? Z.of_nat (length (subLoading self)))%Z eqn:Hmany.
  - cbn [subLoading set_subLoading objects loading cancelled].
    rewrite obj_delete_between by (exact Hnd || lia).
    split; [reflexivity |]. split; [| now repeat split].
    rewrite take_0. cbn [app]. rewrite length_drop. lia.
  - split; [reflexivity |]. split; [lia | now repeat split].
Qed.

End LimitedStorage.

Section LimitedStorageSamples.

Import RasterTileWorkerSource.

Lemma limitedStorage_keeps_the_first_and_last_eight_witness :
  let self := SampleRaster.holding 201 in
  subLoading (Copy1.limitedStorage self)
  = (if (200 <? len (subLoading self))%Z
     then take 8 (subLoading self) ++ drop (length (subLoading self) - 8) (subLoading self)
     else subLoading self) /\
  (len (subLoading (Copy1.limitedStorage self)) <= 200)%Z /\
  objects (Copy1.limitedStorage self) = objects self /\
  loading (Copy1.limitedStorage self) = loading self /\
  cancelled (Copy1.limitedStorage self) = cancelled self.
Proof.
  intros self. apply (limitedStorage_keeps_the_first_and_last_eight self).
  apply (bool_decide_unpack (NoDup (obj_keys (subLoading self)))). vm_compute. exact I.
Defined.

Lemma limitedStorage_keeps_the_last_eighty_witness :
  let self := SampleRaster.holding 301 in
  subLoading (Copy2.limitedStorage self)
  = (if (300 <? len (subLoading self))%Z
     then drop (length (subLoading self) - 80) (subLoading self)
     else subLoading self) /\
  (len (subLoading (Copy2.limitedStorage self)) <= 300)%Z /\
  objects (Copy2.limitedStorage self) = objects self /\
  loading (Copy2.limitedStorage self) = loading self /\
  cancelled (Copy2.limitedStorage self) = cancelled self.
Proof.
  intros self. apply (limitedStorage_keeps_the_last_eighty self).
  apply (bool_decide_unpack (NoDup (obj_keys (subLoading self)))). vm_compute. exact I.
Defined.

End LimitedStorageSamples.

Section CoverTiles.

Import RasterTileWorkerSource.

Lemma in_coverGrid (xs ys : list Z) (tile : Z -> Z -> CoverTile) (c : CoverTile) :
  In c (coverGrid xs ys tile) <-> exists x y, In x xs /\ In y ys /\ c = tile x y.
Proof.
  unfold coverGrid. rewrite in_flat_map. split.
  - intros (x & Hx & Hc). apply in_map_iff in Hc as (y & <- & Hy). eauto.
  - intros (x & y & Hx & Hy & ->). exists x. split; [exact Hx |].
    apply in_map_iff. eauto.
Qed.

Lemma in_seqZ (m n k : Z) : In k (seqZ m n) <-> (m <= k < m + n)%Z.
Proof. rewrite <- list_elem_of_In. apply elem_of_seqZ. Qed.

(** A grid whose cells are told apart by their column and by their row
    has no cell twice. *)
Lemma NoDup_coverGrid {A B} (xs ys : list Z) (tile : Z -> Z -> CoverTile)
    (cell : CoverTile -> A * B) (column : Z -> A) (row : Z -> B) :
  (forall x y, cell (tile x y) = (column x, row y)) ->
  (forall x x', In x xs -> In x' xs -> column x = column x' -> x = x') ->
  (forall y y', In y ys -> In y' ys -> row y = row y' -> y = y') ->
  NoDup xs -> NoDup ys ->
  NoDup (map cell (coverGrid xs ys tile)).
Proof.
  intros Hcell Hcolumn Hrow Hxs Hys. unfold coverGrid.
  induction Hxs as [|x xs Hx Hxs IH]; [constructor |].
  cbn [flat_map]. rewrite map_app. apply NoDup_app. split; [| split].
  - rewrite List.map_map. clear IH Hcolumn.
    induction Hys as [|y ys Hy Hys IHy]; [constructor |].
    cbn [map]. apply NoDup_cons. split.
    + rewrite list_elem_of_In, in_map_iff. intros (y' & Heq & Hy').
      rewrite !Hcell in Heq. injection Heq as Heq.
      apply Hrow in Heq; [| now right | now left].
      subst y'. apply Hy. now apply list_elem_of_In.
    + apply IHy. intros y1 y2 H1 H2. apply Hrow; now right.
  - intros p Hp Hp'. rewrite list_elem_of_In in Hp, Hp'.
    apply in_map_iff in Hp as (c & <- & Hc). apply in_map_iff in Hc as (y & <- & Hy).
    apply in_map_iff in Hp' as (c' & Heq & Hc').
    apply in_flat_map in Hc' as (x' & Hx' & Hc'). apply in_map_iff in Hc' as (y' & <- & Hy').
    rewrite !Hcell in Heq. injection Heq as Heq _.
    apply Hcolumn in Heq; [| now right | now left].
    subst x'. apply Hx. now apply list_elem_of_In.
  - apply IH. intros x1 x2 H1 H2. apply Hcolumn; now right.
Qed.

(** The cells of the two loops of the second copy's [getCoverTiles]. *)
Lemma coverTilesOf_cells (z worldSize xMin yMin xRange yRange : Z)
    (direction : Z * Z) :
  (fst direction = 1 \/ fst direction = -1)%Z ->
  (snd direction = 1 \/ snd direction = -1)%Z ->
  let cells :=
    map (fun c => (dx c, dy c))
      (Copy2.coverTilesOf z worldSize xMin yMin xRange yRange direction) in
  NoDup cells /\
  forall i j, In (i, j) cells <-> (0 <= i <= xRange /\ 0 <= j <= yRange)%Z.
Proof.
  intros Hx Hy cells. subst cells. unfold Copy2.coverTilesOf. split.
  - apply NoDup_coverGrid with
      (column := fun x => (x * fst direction
                           + (if (fst direction <? 0)%Z then xRange else 0))%Z)
      (row := fun y => (y * snd direction
                        + (if (snd direction <? 0)%Z then yRange else 0))%Z).
    + reflexivity.
    + intros x x' _ _. destruct Hx as [-> | ->]; cbn; lia.
    + intros y y' _ _. destruct Hy as [-> | ->]; cbn; lia.
    + apply NoDup_seqZ.
    + apply NoDup_seqZ.
  - intros i j. rewrite in_map_iff. split.
    + intros (c & Hc & Hin). apply in_coverGrid in Hin as (x & y & Hxin & Hyin & ->).
      apply in_seqZ in Hxin. apply in_seqZ in Hyin. cbn [dx dy] in Hc.
      injection Hc as <- <-.
      destruct Hx as [-> | ->], Hy as [-> | ->]; cbn; lia.
    + intros [Hi Hj].
      exists (mkCoverTile
                (Z.rem (xMin + (if (fst direction <? 0)%Z then xRange - i else i)) worldSize)
                (yMin + (if (snd direction <? 0)%Z then yRange - j else j)) z i j)%Z.
      split; [reflexivity |]. apply in_coverGrid.
      exists (if (fst direction <? 0)%Z then xRange - i else i)%Z,
             (if (snd direction <? 0)%Z then yRange - j else j)%Z.
      rewrite !in_seqZ.
      destruct Hx as [-> | ->], Hy as [-> | ->]; cbn;
        (split; [lia |]; split; [lia |]; f_equal; lia).
Qed.

(** X27. With directions of 1 or -1 along both axes, the cover tiles
    that the second copy's [getCoverTiles] reports fill a grid of
    [xRange + 1] by [yRange + 1] cells: every cell [(dx, dy)] with
    [0 <= dx <= xRange] and [0 <= dy <= yRange] gets exactly one tile and
    no tile lies outside the grid, where the reported right bottom pixel
    is the pixel of the south east corner moved by 256 pixels for each
    step of [xRange] and [yRange]. *)
Theorem cover_tiles_fill_every_cell_once `{G : TileProjection} (projection : string)
    (tile : CanonicalTileID) :
  (fst (direction projection) = 1 \/ fst (direction projection) = -1)%Z ->
  (snd (direction projection) = 1 \/ snd (direction projection) = -1)%Z ->
  let cover := Copy2.getCoverTiles projection tile in
  let cells := map (fun c => (dx c, dy c)) (Copy2.coverTiles cover) in
  let rbPoint :=
    lngLatToPixel (transformLngLat (getSouthEast (toLngLatBounds tile)) "WGS84" projection)
      (tileZ tile) (Some projection) in
  exists xRange yRange : Z,
    Copy2.rbPixel cover
    = (fst rbPoint + 256 * inject_Z xRange, snd rbPoint + 256 * inject_Z yRange) /\
    NoDup cells /\
    forall i j, In (i, j) cells <-> (0 <= i <= xRange /\ 0 <= j <= yRange)%Z.
Proof.
  intros Hx Hy cover cells rbPoint. subst cells cover. unfold Copy2.getCoverTiles.
  cbn [Copy2.coverTiles Copy2.rbPixel].
  eexists _, _. split; [reflexivity |].
  now apply coverTilesOf_cells.
Qed.

Lemma worldSizeOf_pow (z : Z) : (0 <= z <= 30)%Z -> Copy2.worldSizeOf z = (2 ^ z)%Z.
Proof.
  intros Hz. unfold Copy2.worldSizeOf.
  change 31%Z with (Z.ones 5). rewrite Z.land_ones by lia.
  rewrite Z.mod_small by (change (2 ^ 5)%Z with 32%Z; lia).
  rewrite Z.shiftl_1_l. apply toInt32_small.
  assert (H0 : (0 < 2 ^ z)%Z) by (apply Z.pow_pos_nonneg; lia).
  assert (H1 : (2 ^ z <= 2 ^ 30)%Z) by (apply Z.pow_le_mono_r; lia).
  change (2 ^ 30)%Z with 1073741824%Z in H1. lia.
Qed.

(** X28. For a zoom from 0 to 30 the world of the second copy's
    [getCoverTiles] is [2 ^ z] tiles wide.  When the first and the last
    column [xMin], [xMax] are columns of this world, every cover tile
    has a column of the world that lies between [xMin] and [xMax] going
    east, around the world when [xMin > xMax]; the tile of the cell
    [(dx, dy)] is the one [dx] columns east of [xMin] and [dy] rows after
    [yMin], counted from the other end along an axis whose direction is
    -1. *)
Theorem cover_tiles_wrap_around_the_world (z xMin xMax yMin yRange : Z)
    (direction : Z * Z) (c : CoverTile) :
  (0 <= z <= 30)%Z ->
  let worldSize := Copy2.worldSizeOf z in
  (0 <= xMin < worldSize)%Z -> (0 <= xMax < worldSize)%Z ->
  (fst direction = 1 \/ fst direction = -1)%Z ->
  (snd direction = 1 \/ snd direction = -1)%Z ->
  let xRange := Copy2.xRangeOf worldSize xMin xMax in
  In c (Copy2.coverTilesOf z worldSize xMin yMin xRange yRange direction) ->
  worldSize = (2 ^ z)%Z /\
  coverZ c = z /\
  (0 <= coverX c < worldSize)%Z /\
  (if (xMax <? xMin)%Z then (xMin <= coverX c \/ coverX c <= xMax)%Z
   else (xMin <= coverX c <= xMax)%Z) /\
  coverX c
  = ((xMin + (if (fst direction <? 0)%Z then xRange - dx c else dx c)) mod worldSize)%Z /\
  coverY c = (yMin + (if (snd direction <? 0)%Z then yRange - dy c else dy c))%Z.
Proof.
  intros Hz worldSize HxMin HxMax Hx Hy xRange Hin.
  split; [now apply worldSizeOf_pow |].
  apply in_coverGrid in Hin as (x & y & Hxin & Hyin & ->).
  apply in_seqZ in Hxin. apply in_seqZ in Hyin. cbn [coverX coverY coverZ dx dy].
  split; [reflexivity |].
  assert (Hrange : (xRange = if (xMax <? xMin)%Z then worldSize - xMin + xMax
                              else xMax - xMin)%Z) by reflexivity.
  assert (Hcolumn : ((if (fst direction <? 0)%Z
                      then xRange - (x * fst direction
                                     + (if (fst direction <? 0)%Z then xRange else 0))
                      else x * fst direction
                           + (if (fst direction <? 0)%Z then xRange else 0)) = x)%Z).
  { destruct Hx as [-> | ->]; cbn; lia. }
  assert (Hrow : ((if (snd direction <? 0)%Z
                   then yRange - (y * snd direction
                                  + (if (snd direction <? 0)%Z then yRange else 0))
                   else y * snd direction
                        + (if (snd direction <? 0)%Z then yRange else 0)) = y)%Z).
  { destruct Hy as [-> | ->]; cbn; lia. }
  rewrite Hcolumn, Hrow. clear Hcolumn Hrow Hx Hy.
  rewrite Z.rem_mod_nonneg by lia.
  generalize dependent xRange. generalize dependent worldSize.
  intros worldSize HxMin HxMax xRange Hxin Hrange.
  destruct (xMax <? xMin)%Z eqn:Hcross.
  - destruct (Z_lt_ge_dec (xMin + x) worldSize) as [Hlt | Hge].
    + rewrite Z.mod_small by lia. repeat split; lia.
    + assert (Hmod : ((xMin + x) mod worldSize = xMin + x - worldSize)%Z).
      { symmetry. apply Z.mod_unique with 1%Z; lia. }
      rewrite Hmod. repeat split; lia.
  - rewrite Z.mod_small by lia. repeat split; lia.
Qed.

End CoverTiles.

Section CoverTilesSamples.

Import RasterTileWorkerSource.

Lemma cover_tiles_fill_every_cell_once_witness :
  let tile := mkTileID 2 3 1 "2/3/1" in
  let cover := Copy2.getCoverTiles "flipped" tile in
  let cells := map (fun c => (dx c, dy c)) (Copy2.coverTiles cover) in
  map (fun c => (coverX c, coverY c)) (Copy2.coverTiles cover)
  = [(3, 1); (3, 2); (0, 1); (0, 2)]%Z /\
  cells = [(0, 1); (0, 0); (1, 1); (1, 0)]%Z /\
  exists xRange yRange : Z,
    Copy2.rbPixel cover
    = (fst (inject_Z 1024 + 128, inject_Z 512 + 128) + 256 * inject_Z xRange,
       snd (inject_Z 1024 + 128, inject_Z 512 + 128) + 256 * inject_Z yRange) /\
    NoDup cells /\
    forall i j, In (i, j) cells <-> (0 <= i <= xRange /\ 0 <= j <= yRange)%Z.
Proof.
  intros tile. split; [reflexivity |]. split; [reflexivity |].
  apply (cover_tiles_fill_every_cell_once (G := SampleRaster.projection) "flipped" tile);
    [left | right]; reflexivity.
Defined.

Lemma cover_tiles_wrap_around_the_world_witness :
  let c := mkCoverTile 0 6 2 1 1 in
  In c (Copy2.coverTilesOf 2 4 3 5 1 1 (1, 1)%Z) /\
  Copy2.worldSizeOf 2 = (2 ^ 2)%Z /\
  coverZ c = 2%Z /\
  (0 <= coverX c < Copy2.worldSizeOf 2)%Z /\
  (if (0 <? 3)%Z then (3 <= coverX c \/ coverX c <= 0)%Z else (3 <= coverX c <= 0)%Z) /\
  coverX c
  = ((3 + (if (fst (1, 1)%Z <? 0)%Z then Copy2.xRangeOf (Copy2.worldSizeOf 2) 3 0 - dx c
           else dx c)) mod Copy2.worldSizeOf 2)%Z /\
  coverY c = (5 + (if (snd (1, 1)%Z <? 0)%Z then 1 - dy c else dy c))%Z.
Proof.
  intros c.
  assert (Hin : In c (Copy2.coverTilesOf 2 4 3 5 1 1 (1, 1)%Z)).
  { right. right. right. left. reflexivity. }
  split; [exact Hin |].
  apply (cover_tiles_wrap_around_the_world 2 3 0 5 1 (1, 1)%Z c);
    [lia | split; [lia | reflexivity] | split; [lia | reflexivity] | now left | now left
     | exact Hin].
Defined.

End CoverTilesSamples.

Section RemoveTile.

Import RasterTileWorkerSource.
Context {Image : Type}.

(** X29. [removeTile] of a tile that is loading takes its key out of
    [this.loading] and leaves the other keys as they are, marks the
    tile's object as unloaded, cancels its request when it has one and
    no other, and deletes from [this.subLoading] the images of the
    tile's sub tiles and no others; the tile is not loading afterwards,
    so that a second [removeTile] changes nothing. *)
Theorem removeTile_releases_the_tile (key : string) (self : t (Image := Image))
    (place : nat) (tile : LoadingTile) :
  loadingTile key self = Some (place, tile) ->
  let self' := removeTile key self in
  loadingTile key self' = None /\
  (forall k, obj_get k (loading self')
             = if String.eqb k key then None else obj_get k (loading self)) /\
  objects self' = <[place := set_status "unloaded" tile]> (objects self) /\
  cancelled self' = cancelled self ++ option_list (request tile) /\
  (forall k, obj_get k (subLoading self')
             = if existsb (String.eqb k) (default [] (subTiles tile)) then None
               else obj_get k (subLoading self)) /\
  removeTile key self' = self'.
Proof.
  intros Hloading self'.
  assert (Hself : self' =
    make (<[place := set_status "unloaded" tile]> (objects self))
      (obj_delete key (loading self))
      (obj_delete_all (default [] (subTiles tile)) (subLoading self))
      (cancelled self ++ option_list (request tile))).
  { subst self'. unfold removeTile, abortTile. rewrite Hloading.
    destruct (request tile), (subTiles tile); cbn; unfold set_subLoading, set_loading; cbn;
      rewrite ?app_nil_r; reflexivity. }
  assert (Hgone : loadingTile key self' = None).
  { rewrite Hself. unfold loadingTile. cbn [loading].
    now rewrite obj_get_delete, String.eqb_refl. }
  split; [exact Hgone |]. split; [| split; [| split; [| split]]].
  - intros k. rewrite Hself. cbn [loading]. apply obj_get_delete.
  - now rewrite Hself.
  - now rewrite Hself.
  - intros k. rewrite Hself. cbn [subLoading]. apply obj_get_delete_all.
  - unfold removeTile, abortTile. now rewrite Hgone.
Qed.

End RemoveTile.

Section FirstCopyCoverTiles.

Import RasterTileWorkerSource.
Context `{G : TileProjection}.

(** X30. The first copy's [getCoverTiles] reports [null] exactly when the
    pixel of the tile's north west corner has [x == 0], or [y] times the
    direction's [y] is 0.  Otherwise it reports that offset and a list of
    cover tiles without repetition that holds the tile of the north west
    corner and the tile of the south east corner; every cover tile lies
    in the rectangle that the two span, has the zoom of the tile, a [dx]
    that counts its columns from the rectangle's first and a [dy] that
    is its row from the rectangle's first times the direction's [y]. *)
Theorem first_copy_reports_the_rectangle_of_tiles (projection : string)
    (tile : CanonicalTileID) :
  let bound := getTileBounds (tileX tile) (tileY tile) (tileZ tile) in
  let northwest := transformLngLat (getNorthWest bound) "WGS84" projection in
  let southeast := transformLngLat (getSouthEast bound) "WGS84" projection in
  let pixel := lngLatToPixel northwest (tileZ tile) None in
  let offset := (fst pixel, snd pixel * inject_Z (snd (direction projection))) in
  let northwestTile := lngLatToTileFromZ northwest (tileZ tile) projection in
  let southeastTile := lngLatToTileFromZ southeast (tileZ tile) projection in
  let xMin := Z.min (fst northwestTile) (fst southeastTile) in
  let xMax := Z.max (fst northwestTile) (fst southeastTile) in
  let yMin := Z.min (snd northwestTile) (snd southeastTile) in
  let yMax := Z.max (snd northwestTile) (snd southeastTile) in
  match Copy1.getCoverTiles projection tile with
  | None => fst offset == 0 \/ snd offset == 0
  | Some cover =>
      ~ fst offset == 0 /\ ~ snd offset == 0 /\
      Copy1.offset cover = offset /\
      let places := map (fun c => (coverX c, coverY c)) (Copy1.coverTiles cover) in
      NoDup places /\ In northwestTile places /\ In southeastTile places /\
      forall c, In c (Copy1.coverTiles cover) ->
                (xMin <= coverX c <= xMax)%Z /\ (yMin <= coverY c <= yMax)%Z /\
                coverZ c = tileZ tile /\
                dx c = (coverX c - xMin)%Z /\
                dy c = ((coverY c - yMin) * snd (direction projection))%Z
  end.
Proof.
  intros bound northwest southeast pixel offset northwestTile southeastTile xMin xMax yMin yMax.
  unfold Copy1.getCoverTiles. fold bound. fold northwest. fold southeast. fold pixel.
  fold northwestTile. fold southeastTile. fold xMin. fold xMax. fold yMin. fold yMax.
  fold offset. unfold Num.truthy.
  destruct (Qeq_bool (fst offset) 0) eqn:H0; cbn [negb andb].
  { left. now apply Qeq_bool_iff. }
  destruct (Qeq_bool (snd offset) 0) eqn:H1; cbn [negb].
  { right. now apply Qeq_bool_iff. }
  split; [intros H; apply Qeq_bool_iff in H; congruence |].
  split; [intros H; apply Qeq_bool_iff in H; congruence |].
  split; [reflexivity |]. cbn [Copy1.coverTiles]. cbv zeta.
  assert (Hin : forall x y, (xMin <= x <= xMax)%Z -> (yMin <= y <= yMax)%Z ->
            In (x, y)
              (map (fun c => (coverX c, coverY c))
                 (coverGrid (seqZ xMin (xMax - xMin + 1)) (seqZ yMin (yMax - yMin + 1))
                    (fun x y => mkCoverTile x y (tileZ tile) (x - xMin)
                                  ((y - yMin) * snd (direction projection)))))).
  { intros x y Hx Hy. apply in_map_iff.
    exists (mkCoverTile x y (tileZ tile) (x - xMin) ((y - yMin) * snd (direction projection))).
    split; [reflexivity |]. apply in_coverGrid. exists x, y.
    rewrite !in_seqZ. repeat split; lia. }
  split; [| split; [| split]].
  - apply NoDup_coverGrid with (column := fun x => x) (row := fun y => y);
      [reflexivity | now intros | now intros | apply NoDup_seqZ | apply NoDup_seqZ].
  - rewrite (surjective_pairing northwestTile). apply Hin; subst xMin xMax yMin yMax; lia.
  - rewrite (surjective_pairing southeastTile). apply Hin; subst xMin xMax yMin yMax; lia.
  - intros c Hc. apply in_coverGrid in Hc as (x & y & Hx & Hy & ->).
    apply in_seqZ in Hx. apply in_seqZ in Hy. cbn [coverX coverY coverZ dx dy].
    repeat split; lia.
Qed.

End FirstCopyCoverTiles.

Section RemoveTileSamples.

Import RasterTileWorkerSource.

Lemma removeTile_releases_the_tile_witness :
  let tile := mkLoadingTile "loading" (Some ["3"; "5"]) (Some 7%nat) in
  let self := make [tile] [("2/3/1", 0%nat)] (SampleRaster.store 6) [4%nat] in
  let self' := removeTile "2/3/1" self in
  obj_keys (subLoading self') = ["0"; "1"; "2"; "4"] /\
  loadingTile "2/3/1" self' = None /\
  (forall k, obj_get k (loading self')
             = if String.eqb k "2/3/1" then None else obj_get k (loading self)) /\
  objects self' = <[0%nat := set_status "unloaded" tile]> (objects self) /\
  cancelled self' = cancelled self ++ option_list (request tile) /\
  (forall k, obj_get k (subLoading self')
             = if existsb (String.eqb k) (default [] (subTiles tile)) then None
               else obj_get k (subLoading self)) /\
  removeTile "2/3/1" self' = self'.
Proof.
  intros tile self. split; [reflexivity |].
  apply (removeTile_releases_the_tile "2/3/1" self 0 tile). reflexivity.
Defined.

End RemoveTileSamples.
